(** * Document-processing notebook: job polling, result pagination,
      page aggregation, text chunking and the train/val/test split.

    The repository is a set of notebooks.  The cells embedded here are

    - "Monitor the job status" (the status-poll loop, [awaitCompletion]),
    - "Extract textract results" (the NextToken loop, [collectPages]),
    - "Output from Textract" ([trp.Document] and the page loop,
      [aggregateText]),
    - the Comprehend Medical chunking loop ([chunks]),
    - "Make train, validation and test splits" ([split_cell]),
    - the whole Comprehend Medical cell with its service ([comprehend_cell]),
    - the notebook "Downloading and Combining Datasets": labels,
      annotations, merge, sampling and the frog annotations
      ([dataset_notebook]),
    - "Make new folder structure and copy image files" ([structure_cell]),
    - the helpfulness label and the training lines of the reviews notebook
      ([is_helpful], [text_line]).

    A cell is a transformer of the notebook's world: the global variables
    it assigns, the state of the remote service behind the [textract]
    client, and the trace of what the cell did (sleeps, requests, printed
    lines).  Loops that Python does not bound take a budget of iterations
    and answer [Running] when the budget is spent with the loop condition
    still true.  The timing report of the [%%time] cell magic is not part of
    a trace. *)

From Stdlib Require Import ZArith Lia.
From stdpp Require Import base tactics option list strings pretty sorting gmap.

Open Scope string_scope.
Open Scope list_scope.
Open Scope nat_scope.

(** ** Data *)

(** A block of a Textract response: the two keys the notebook's path reads. *)
Record Block := mkBlock { BlockType : string; Text : string }.

(** The dictionary [get_document_analysis] returns.  ["NextToken"] is a key
    that may be absent; ["StatusMessage"] is returned with a failed job and
    no cell reads it. *)
Record Response := mkResponse {
  JobStatus : string;
  StatusMessage : option string;
  NextToken : option string;
  Blocks : list Block }.

(** A Python exception: its class and its argument. *)
Record exn := mkExn { exn_class : string; exn_arg : string }.

(** The error kinds of the specification's taxonomy. *)
Definition JobFailedError (reason : string) : exn := mkExn "JobFailedError" reason.
Definition TimeoutError : exn := mkExn "TimeoutError" EmptyString.
Definition ProtocolError (what : string) : exn := mkExn "ProtocolError" what.
Definition InvalidStateError (what : string) : exn := mkExn "InvalidStateError" what.

(** What a cell does that is visible from outside. *)
Inductive event :=
  | Sleep (secs : nat)
  | GetDocumentAnalysis (JobId : string) (token : option string)
  | Print (line : string).

(** How the run of a cell ends. *)
Inductive outcome :=
  | Done
  | Raised (e : exn)
  | Running.

(** Python truth value of [nextToken]: [None] and the empty string are false. *)
Definition truthy (t : option string) : bool :=
  match t with
  | None => false
  | Some s => negb (String.eqb s EmptyString)
  end.

(** The tokens of the page requests in a trace, in order. *)
Definition page_requests (tr : list event) : list (option string) :=
  omap (λ e, match e with GetDocumentAnalysis _ t => Some t | _ => None end) tr.

(** The characters of a string, in order. *)
Abbreviation chars := String.list_ascii_of_string.

(** The pauses of a trace, in order. *)
Definition sleeps (tr : list event) : list nat :=
  omap (λ e, match e with Sleep n => Some n | _ => None end) tr.

(** ** The notebook's world and the two Textract cells *)

Section Notebook.
(** The remote service: a request moves its state and is answered by a
    response or by an exception of the client. *)
Context {Svc : Type}.
Variable get_document_analysis :
  string → option string → Svc → (exn + Response) * Svc.
Variable textractJobId : string.

Record World := mkWorld {
  textract : Svc;
  trace : list event;
  response : option Response;
  status : option string;
  pages : option (list Response);
  nextToken : option string }.

(** [time.sleep(secs)] *)
Definition sleep (secs : nat) (w : World) : World :=
  mkWorld (textract w) (trace w ++ [Sleep secs])
          (response w) (status w) (pages w) (nextToken w).

(** [print(line)] *)
Definition print (line : string) (w : World) : World :=
  mkWorld (textract w) (trace w ++ [Print line])
          (response w) (status w) (pages w) (nextToken w).

(** [textract.get_document_analysis(JobId=textractJobId[, NextToken=tok])] *)
Definition call (tok : option string) (w : World) : (exn + Response) * World :=
  let '(r, s) := get_document_analysis textractJobId tok (textract w) in
  (r, mkWorld s (trace w ++ [GetDocumentAnalysis textractJobId tok])
              (response w) (status w) (pages w) (nextToken w)).

(** [response = r; status = response["JobStatus"]] *)
Definition set_status (r : Response) (w : World) : World :=
  mkWorld (textract w) (trace w) (Some r) (Some (JobStatus r))
          (pages w) (nextToken w).

(** [while(status == "IN_PROGRESS"): ...] *)
Fixpoint status_loop (fuel : nat) (w : World) : outcome * World :=
  if bool_decide (status w = Some "IN_PROGRESS") then
    match fuel with
    | O => (Running, w)
    | S fuel' =>
        match call None (sleep 5 w) with
        | (inl e, w1) => (Raised e, w1)
        | (inr r, w1) =>
            let w2 := set_status r w1 in
            status_loop fuel'
              (print ("Textract Job status: " +:+ JobStatus r) w2)
        end
    end
  else (Done, w).

(** The cell "Monitor the job status". *)
Definition awaitCompletion (fuel : nat) (w : World) : outcome * World :=
  match call None (sleep 5 w) with
  | (inl e, w1) => (Raised e, w1)
  | (inr r, w1) => status_loop fuel (set_status r w1)
  end.

(** [pages.append(response); nextToken = None;
     if 'NextToken' in response: nextToken = response['NextToken']]
    ([pages] is bound by the cell's first statement before any append) *)
Definition append_page (r : Response) (w : World) : World :=
  mkWorld (textract w) (trace w) (Some r) (status w)
          (Some (default [] (pages w) ++ [r])) (NextToken r).

(** [while(nextToken): ...] *)
Fixpoint token_loop (fuel : nat) (w : World) : outcome * World :=
  if truthy (nextToken w) then
    match fuel with
    | O => (Running, w)
    | S fuel' =>
        match call (nextToken w) (sleep 5 w) with
        | (inl e, w1) => (Raised e, w1)
        | (inr r, w1) =>
            let w2 := append_page r w1 in
            token_loop fuel'
              (print ("Resultset page recieved: "
                      +:+ pretty (length (default [] (pages w2)))) w2)
        end
    end
  else (Done, w).

(** The cell "Extract textract results". *)
Definition collectPages (fuel : nat) (w : World) : outcome * World :=
  let w0 := mkWorld (textract w) (trace w) (response w) (status w)
                    (Some []) (nextToken w) in
  match call None (sleep 5 w0) with
  | (inl e, w1) => (Raised e, w1)
  | (inr r, w1) => token_loop fuel (append_page r w1)
  end.

End Notebook.

Arguments World : clear implicits.
Arguments mkWorld {Svc}.

(** ** The response parser the notebook installs ([textract-trp] 0.1.3)

    [trp.Document(pages)] is not a file of the repository: the notebook
    installs the package and calls it.  Its page grouping and its page text
    are transcribed from the package's [Document._parseDocumentPagesAndBlockMap]
    and [Page._parse]: a document page starts at each block of type
    ["PAGE"], whatever response carries it, and the text of a page is the
    text of its ["LINE"] blocks, each followed by a newline.  The recorded
    run of the notebook agrees: the NextToken cell printed no "Resultset
    page recieved" line (one response), and the next cell printed "Total
    length of document is 2". *)
Module trp.

Definition newline : string := String (Ascii.ascii_of_nat 10) EmptyString.

(** A parsed page: the blocks it was built from and its text. *)
Record Page := mkPage { blocks : list Block; text : string }.

(** The parser's loop state: [documentPages] and the open [documentPage]
    ([None] before the first ["PAGE"] block). *)
Definition parse_state : Type := list (list Block) * option (list Block).

(** One iteration of [for block in page['Blocks']].  A block met before
    any ["PAGE"] block is appended to [None]: an [AttributeError]. *)
Definition parse_block (st : parse_state) (block : Block)
  : exn + parse_state :=
  let '(documentPages, documentPage) := st in
  if bool_decide (BlockType block = "PAGE") then
    match documentPage with
    | Some (b :: bs) => inr (documentPages ++ [b :: bs], Some [block])
    | _ => inr (documentPages, Some [block])
    end
  else
    match documentPage with
    | Some bs => inr (documentPages, Some (bs ++ [block]))
    | None =>
        inl (mkExn "AttributeError"
                   "'NoneType' object has no attribute 'append'")
    end.

(** [for page in self._responsePages: for block in page['Blocks']: ...] *)
Fixpoint parse_blocks (st : parse_state) (bs : list Block)
  : exn + parse_state :=
  match bs with
  | [] => inr st
  | block :: bs' =>
      match parse_block st block with
      | inl e => inl e
      | inr st' => parse_blocks st' bs'
      end
  end.

(** [_parseDocumentPagesAndBlockMap], the page part. *)
Definition parseDocumentPages (responsePages : list Response)
  : exn + list (list Block) :=
  match parse_blocks ([], None) (responsePages ≫= Blocks) with
  | inl e => inl e
  | inr (documentPages, Some (b :: bs)) => inr (documentPages ++ [b :: bs])
  | inr (documentPages, _) => inr documentPages
  end.

(** [Page._parse], the text part: [self._text = self._text + l.text + '\n']
    for each ["LINE"] block. *)
Definition page_text (bs : list Block) : string :=
  foldl (λ t b, if bool_decide (BlockType b = "LINE")
                then t +:+ Text b +:+ newline else t) EmptyString bs.

(** [trp.Document(responsePages).pages] *)
Definition Document (responsePages : list Response) : exn + list Page :=
  match parseDocumentPages responsePages with
  | inl e => inl e
  | inr documentPages =>
      inr ((λ bs, mkPage bs (page_text bs)) <$> documentPages)
  end.

End trp.

(** ** The cell "Output from Textract" *)

(** The pairs the page loop goes through: [idx] counts from 1 and
    [page.text] is the text of the page. *)
Definition enumerate_pages (doc_pages : list trp.Page) : list (nat * string) :=
  zip (seq 1 (length doc_pages)) (trp.text <$> doc_pages).

(** The cell as a function of [pages]: the sequence of (page index, text). *)
Definition aggregateText (pages : list Response) : exn + list (nat * string) :=
  match trp.Document pages with
  | inl e => inl e
  | inr doc_pages => inr (enumerate_pages doc_pages)
  end.

Section OutputCell.
Context {Svc : Type}.
(** [color.BOLD] and [color.END] come from the repository's
    [util/preprocess.py]. *)
Variables color_BOLD color_END : string.

(** The globals the cell binds, next to the world of the Textract cells. *)
Record DocWorld := mkDocWorld {
  world : World Svc;
  doc : option (list trp.Page);
  idx : option nat;
  page : option trp.Page }.

(** The line [print(color.BOLD + f"Results from page {idx}: \n" + color.END,
    page.text)] writes. *)
Definition page_line (p : nat * string) : string :=
  color_BOLD +:+ "Results from page " +:+ pretty p.1 +:+ ": " +:+ trp.newline
    +:+ color_END +:+ " " +:+ p.2.

(** One turn of [for page in doc.pages]: print the page under its number,
    then [idx=idx+1].  The state is the world, [idx] and [page]. *)
Definition page_turn (st : World Svc * nat * option trp.Page) (pg : trp.Page)
  : World Svc * nat * option trp.Page :=
  let '(w, i, _) := st in
  (print (page_line (i, trp.text pg)) w, i + 1, Some pg).

(** The whole cell: it reads [pages], builds the document, prints its
    length and goes through its pages, printing and counting. *)
Definition output_cell (d : DocWorld) : outcome * DocWorld :=
  match pages (world d) with
  | None => (Raised (mkExn "NameError" "name 'pages' is not defined"), d)
  | Some ps =>
      match trp.Document ps with
      | inl e => (Raised e, d)
      | inr doc_pages =>
          let w1 :=
            print ("Total length of document is "
                   +:+ pretty (length doc_pages)) (world d) in
          let '(w2, i, pg) := foldl page_turn (w1, 1, page d) doc_pages in
          (Done, mkDocWorld w2 (Some doc_pages) (Some i) pg)
      end
  end.
End OutputCell.

Arguments DocWorld : clear implicits.
Arguments mkDocWorld {Svc}.

(** ** The Comprehend Medical chunking loop *)

Definition maxLength : nat := Z.to_nat 20000.

(** [range(start, stop, step)] for a positive [step], as the [for] loop
    walks it: [i] starts at [start] and grows by [step] while [i < stop]. *)
Fixpoint py_range_from (fuel i stop step : nat) : list nat :=
  match fuel with
  | O => []
  | S fuel' =>
      if i <? stop then i :: py_range_from fuel' (i + step) stop step else []
  end.

Definition py_range (start stop step : nat) : list nat :=
  py_range_from (stop - start) start stop step.

(** [s[a:b]] for indices that are not negative: out-of-range bounds are
    clamped to the string. *)
Definition py_slice (s : string) (a b : nat) : string :=
  String.substring a (b - a) s.

(** The texts passed to [detect_entities_v2] for one page:
    [pageText[0+i:maxLength+i] for i in range(0, len(pageText), maxLength)]. *)
Definition chunks_by (M : nat) (pageText : string) : list string :=
  (λ i, py_slice pageText (0 + i) (M + i))
    <$> py_range 0 (String.length pageText) M.

Definition chunks (pageText : string) : list string :=
  chunks_by maxLength pageText.

(** Ceiling of [a / b]. *)
Definition ceil_div (a b : nat) : nat := (a + b - 1) / b.

(** ** The train/validation/test split *)

(** *** [int(n * 0.8)] and [int(n * 0.9)], in binary64

    A finite positive double is [m * 2^e] with [m < 2^53].  The product of
    two doubles is the exact product rounded to 53 bits, ties to even;
    [int] drops the fraction. *)
Module b64.
Local Open Scope Z_scope.

Definition float : Type := Z * Z.

(** Round the exact value [p * 2^e], [0 <= p], to a 53-bit significand. *)
Definition round (p e : Z) : float :=
  let k := Z.log2 p + 1 in
  if Z.leb k 53 then (p, e)
  else
    let s := k - 53 in
    let q := p / 2 ^ s in
    let r := p mod 2 ^ s in
    let half := 2 ^ (s - 1) in
    if Z.ltb half r || (Z.eqb r half && Z.odd q)
    then (q + 1, e + s) else (q, e + s).

(** [float(n)] for an [int] that is not negative. *)
Definition of_int (n : Z) : float := round n 0.

Definition mul (x y : float) : float := round (x.1 * y.1) (x.2 + y.2).

(** [int(x)] *)
Definition to_int (x : float) : Z :=
  if Z.leb 0 x.2 then x.1 * 2 ^ x.2 else x.1 / 2 ^ (- x.2).

(** The doubles the literals [0.8] and [0.9] denote. *)
Definition lit_0_8 : float := (7205759403792794, -53).
Definition lit_0_9 : float := (8106479329266893, -53).

End b64.

(** [first_80 = int(len(image_ids) * 0.8)] *)
Definition first_80 (n : nat) : nat :=
  Z.to_nat (b64.to_int (b64.mul (b64.of_int (Z.of_nat n)) b64.lit_0_8)).

(** [next_10 = int(len(image_ids) * 0.9)] *)
Definition next_10 (n : nat) : nat :=
  Z.to_nat (b64.to_int (b64.mul (b64.of_int (Z.of_nat n)) b64.lit_0_9)).

(** [ary[a:b]] on a sequence, for indices that are not negative. *)
Definition slice {A} (ary : list A) (a b : nat) : list A :=
  take (b - a) (drop a ary).

(** [np.split(ary, indices)]: the pieces between consecutive division
    points [0, indices..., len(ary)]. *)
Fixpoint split_at {A} (ary : list A) (st : nat) (div_points : list nat)
  : list (list A) :=
  match div_points with
  | [] => []
  | en :: rest => slice ary st en :: split_at ary en rest
  end.

Definition np_split {A} (ary : list A) (indices : list nat) : list (list A) :=
  split_at ary 0 (indices ++ [length ary]).

Section SplitCell.
(** [sample_annos] maps an image id to its annotation. *)
Context {Anno : Type}.
(** [np.random.seed(0); np.random.shuffle(image_ids)]: with the seed fixed
    the shuffle is a function of the list. *)
Variable shuffle : list Z → list Z.

(** [image_ids = sorted(list(sample_annos.keys()))] *)
Definition sorted_keys (sample_annos : gmap Z Anno) : list Z :=
  merge_sort Z.le (elements (dom sample_annos)).

(** The list [image_ids] after the shuffle. *)
Definition image_ids (sample_annos : gmap Z Anno) : list Z :=
  shuffle (sorted_keys sample_annos).

(** [train_ids, val_ids, test_ids = np.split(image_ids, [first_80, next_10])] *)
Definition split_cell (sample_annos : gmap Z Anno) : list (list Z) :=
  let ids := image_ids sample_annos in
  np_split ids [first_80 (length ids); next_10 (length ids)].
End SplitCell.

(** ** What a service does, as seen by the cells *)

(** Is the outcome an exception? *)
Definition raised (o : outcome) : bool :=
  match o with Raised _ => true | _ => false end.

Section Protocol.
Context {Svc : Type}.
Variable get_document_analysis :
  string → option string → Svc → (exn + Response) * Svc.
Variable textractJobId : string.

Local Abbreviation poll := (GetDocumentAnalysis textractJobId None).

(** [polled s rs s']: from state [s] the service answers successive
    status requests with the responses [rs], ending in state [s']. *)
Inductive polled : Svc → list Response → Svc → Prop :=
  | polled_nil s : polled s [] s
  | polled_cons s r s1 rs s' :
      get_document_analysis textractJobId None s = (inr r, s1) →
      polled s1 rs s' →
      polled s (r :: rs) s'.

(** A service that answers ["IN_PROGRESS"] to a status request in every
    state. *)
Definition always_in_progress : Prop :=
  ∀ s, ∃ r s', get_document_analysis textractJobId None s = (inr r, s')
               ∧ JobStatus r = "IN_PROGRESS".

(** What one turn of the loop does, for the response it receives. *)
Definition turn_events (r : Response) : list event :=
  [Sleep 5; poll; Print ("Textract Job status: " +:+ JobStatus r)].

(** What the cell does for the responses [rs] it receives. *)
Definition await_events (rs : list Response) : list event :=
  match rs with
  | [] => []
  | _ :: rest => [Sleep 5; poll] ++ (rest ≫= turn_events)
  end.

(** [chain s tok rs s']: from state [s] the service answers the request
    with token [tok] by the head of [rs] and, as long as a response carries
    a token, answers the request with that token by the next one; the last
    response carries none and leaves the service in [s']. *)
Fixpoint chain (s : Svc) (tok : option string) (rs : list Response) (s' : Svc)
  : Prop :=
  match rs with
  | [] => False
  | r :: rs' =>
      ∃ s1, get_document_analysis textractJobId tok s = (inr r, s1)
            ∧ if truthy (NextToken r) then chain s1 (NextToken r) rs' s'
              else rs' = [] ∧ s' = s1
  end.

(** [status = st], leaving the rest of the world alone. *)
Definition with_status (st : option string) (w : World Svc) : World Svc :=
  mkWorld (textract w) (trace w) (response w) st (pages w) (nextToken w).

End Protocol.

(** ** The shape of a parsed document *)

(** The blocks that open a page. *)
Definition page_blocks (bs : list Block) : list Block :=
  filter (λ b, BlockType b = "PAGE") bs.

(** A document page: a ["PAGE"] block, then blocks of other types. *)
Definition page_shaped (p : list Block) : Prop :=
  ∃ b rest, p = b :: rest ∧ BlockType b = "PAGE"
            ∧ Forall (λ x, BlockType x ≠ "PAGE") rest.

(** The blocks a loop state holds, in the order they came. *)
Definition held (st : trp.parse_state) : list Block :=
  concat st.1 ++ default [] st.2.

(** The pages a loop state stands for: the closed ones and the open one. *)
Definition held_pages (st : trp.parse_state) : list (list Block) :=
  st.1 ++ match st.2 with Some (b :: bs) => [b :: bs] | _ => [] end.

(** What the parser's loop keeps true. *)
Definition state_ok (st : trp.parse_state) : Prop :=
  Forall page_shaped st.1 ∧ ∀ p, st.2 = Some p → page_shaped p.

(** ** Scripted services *)

(** A scripted service counts the requests it has answered. *)
Definition world0 : World nat := mkWorld 0 [] None None None None.

(** A result page with one line of text. *)
Definition result_page (content : string) (tok : option string) : Response :=
  mkResponse "SUCCEEDED" None tok [mkBlock "PAGE" EmptyString; mkBlock "LINE" content].

(** Pages ["A"] and ["B"]: the first with token ["t1"], the second with none. *)
Definition two_page_service (JobId : string) (tok : option string) (calls : nat)
  : (exn + Response) * nat :=
  match tok with
  | None => (inr (result_page "A" (Some "t1")), S calls)
  | Some t =>
      if String.eqb t "t1" then (inr (result_page "B" None), S calls)
      else (inl (mkExn "InvalidParameterException" t), S calls)
  end.

(** A job that has failed, with the reason the service reports. *)
Definition failed_response : Response :=
  mkResponse "FAILED" (Some "INVALID_DOCUMENT") None [].

Definition failed_service (JobId : string) (tok : option string) (calls : nat)
  : (exn + Response) * nat :=
  (inr failed_response, S calls).

(** A job that never leaves ["IN_PROGRESS"]. *)
Definition in_progress_service (JobId : string) (tok : option string) (calls : nat)
  : (exn + Response) * nat :=
  (inr (mkResponse "IN_PROGRESS" None None []), S calls).

(** A service that reports the statuses of a script, one per request, and
    repeats the last one when the script is over. *)
Definition status_script_service (script : list string)
    (JobId : string) (tok : option string) (calls : nat)
  : (exn + Response) * nat :=
  (inr (mkResponse (default (default EmptyString (last script)) (script !! calls))
                   None None []),
   S calls).

(** Page ["A"] with token ["t1"], then a request that fails. *)
Definition flaky_service (JobId : string) (tok : option string) (calls : nat)
  : (exn + Response) * nat :=
  match tok with
  | None => (inr (result_page "A" (Some "t1")), S calls)
  | Some _ => (inl (mkExn "ThrottlingException" "Rate exceeded"), S calls)
  end.

(** One response that carries both sheets of a two-sheet document. *)
Definition two_sheet_response : Response :=
  mkResponse "SUCCEEDED" None None
    [mkBlock "PAGE" EmptyString; mkBlock "LINE" "Discharge Summary";
     mkBlock "PAGE" EmptyString; mkBlock "LINE" "upper respiratory infection"].

Definition two_sheet_service (JobId : string) (tok : option string) (calls : nat)
  : (exn + Response) * nat :=
  (inr two_sheet_response, S calls).

(** ** The pace of the requests *)

(** A stretch of trace made of turns: a pause of 5 seconds followed by one
    request, with printed lines anywhere between the turns. *)
Inductive turns : list event → Prop :=
  | turns_nil : turns []
  | turns_request JobId tok evs :
      turns evs → turns (Sleep 5 :: GetDocumentAnalysis JobId tok :: evs)
  | turns_print line evs : turns evs → turns (Print line :: evs).

(** Every request of the stretch comes right after a pause of 5 seconds. *)
Definition paced (evs : list event) : Prop :=
  ∀ i JobId tok,
    evs !! i = Some (GetDocumentAnalysis JobId tok) →
    ∃ i', i = S i' ∧ evs !! i' = Some (Sleep 5).

(** The status cell binds [response] and [status] together. *)
Definition status_bound {Svc : Type} (w : World Svc) : Prop :=
  ∃ r, response w = Some r ∧ status w = Some (JobStatus r).

(** A service whose every response carries a token. *)
Definition endless_tokens {Svc : Type}
    (get_document_analysis : string → option string → Svc → (exn + Response) * Svc)
    (textractJobId : string) : Prop :=
  ∀ tok s, ∃ r s', get_document_analysis textractJobId tok s = (inr r, s')
                   ∧ truthy (NextToken r) = true.

(** A service whose answer depends on the request only. *)
Definition stateless {Svc : Type}
    (get_document_analysis : string → option string → Svc → (exn + Response) * Svc)
    (textractJobId : string) (answer : option string → exn + Response) : Prop :=
  ∀ tok s, (get_document_analysis textractJobId tok s).1 = answer tok.

(** A service that hands out a new token with every response. *)
Definition endless_service (JobId : string) (tok : option string) (calls : nat)
  : (exn + Response) * nat :=
  (inr (mkResponse "SUCCEEDED" None (Some ("t" +:+ pretty calls)) []), S calls).

(** ** The Comprehend Medical cell *)

Section ComprehendCell.
(** The second service: a request carries a text and is answered by a
    response or by an exception of the client. *)
Context {CSvc CResp : Type}.
Variable detect_entities_v2 : string → CSvc → (exn + CResp) * CSvc.

(** The service, the texts sent to it so far, and [comprehendResponse]. *)
Record CWorld := mkCWorld {
  comprehend : CSvc;
  sent : list string;
  comprehendResponse : list CResp }.

(** [for i in range(0, len(pageText), maxLength):
       response = detect_entities_v2(Text=pageText[0+i:maxLength+i])
       comprehendResponse.append(response)],
    over the indices left to visit. *)
Fixpoint page_requests_loop (pageText : string) (indices : list nat)
    (w : CWorld) : outcome * CWorld :=
  match indices with
  | [] => (Done, w)
  | i :: rest =>
      let chunk := py_slice pageText (0 + i) (maxLength + i) in
      match detect_entities_v2 chunk (comprehend w) with
      | (inl e, s) =>
          (Raised e, mkCWorld s (sent w ++ [chunk]) (comprehendResponse w))
      | (inr r, s) =>
          page_requests_loop pageText rest
            (mkCWorld s (sent w ++ [chunk]) (comprehendResponse w ++ [r]))
      end
  end.

(** [for page in doc.pages: pageText = page.text; ...] *)
Fixpoint pages_loop (doc_pages : list trp.Page) (w : CWorld)
  : outcome * CWorld :=
  match doc_pages with
  | [] => (Done, w)
  | pg :: rest =>
      let pageText := trp.text pg in
      match page_requests_loop pageText
              (py_range 0 (String.length pageText) maxLength) w with
      | (Done, w') => pages_loop rest w'
      | stop => stop
      end
  end.

(** The same requests, for texts laid out in advance: send them one after
    the other and stop at the first that fails. *)
Fixpoint send_all (texts : list string) (w : CWorld) : outcome * CWorld :=
  match texts with
  | [] => (Done, w)
  | t :: rest =>
      match detect_entities_v2 t (comprehend w) with
      | (inl e, s) => (Raised e, mkCWorld s (sent w ++ [t]) (comprehendResponse w))
      | (inr r, s) =>
          send_all rest (mkCWorld s (sent w ++ [t]) (comprehendResponse w ++ [r]))
      end
  end.

(** The cell: [comprehendResponse = []], then the loops. *)
Definition comprehend_cell (doc_pages : list trp.Page) (w : CWorld)
  : outcome * CWorld :=
  pages_loop doc_pages (mkCWorld (comprehend w) (sent w) []).

(** [comprehendResponse[0]], as the next cell reads it. *)
Definition first_response (w : CWorld) : exn + CResp :=
  match comprehendResponse w with
  | [] => inl (mkExn "IndexError" "list index out of range")
  | r :: _ => inr r
  end.

End ComprehendCell.

Arguments CWorld : clear implicits.
Arguments mkCWorld {CSvc CResp}.

(** A Comprehend service that answers with the length of the text. *)
Definition length_service (t : string) (calls : nat) : (exn + nat) * nat :=
  (inr (String.length t), S calls).

(** ** Python dictionaries with integer keys

    A [dict] keeps its keys in the order of their first insertion; an
    assignment to a key that is present replaces the value in place. *)
Section ODict.
Context {V : Type}.

Definition odict : Type := list (Z * V).

(** [d[k]] ([None] stands for [KeyError]) and [k in d] *)
Fixpoint od_get (k : Z) (d : odict) : option V :=
  match d with
  | [] => None
  | (k', v) :: d' => if decide (k = k') then Some v else od_get k d'
  end.

(** [d[k] = v] *)
Fixpoint od_set (k : Z) (v : V) (d : odict) : odict :=
  match d with
  | [] => [(k, v)]
  | (k', v') :: d' =>
      if decide (k = k') then (k, v) :: d' else (k', v') :: od_set k v d'
  end.

(** [list(d.keys())] *)
Definition od_keys (d : odict) : list Z := d.*1.

End ODict.

Arguments odict : clear implicits.

(** ** The notebook "Downloading and Combining Datasets" *)

(** The entries of the COCO metadata the notebook reads. *)
Record Category := mkCategory {
  cat_id : Z; cat_name : string; cat_supercategory : string }.
Record AnnotationEntry := mkAnnotationEntry {
  ann_image_id : Z; ann_category_id : Z }.

(** A value of [train_annos], [all_annos], [sample_annos]: a dictionary with
    the key ['category_id'] and, once filled in, ['coco_url'] and
    ['file_name']. *)
Record Anno := mkAnno {
  category_id : Z; coco_url : option string; file_name : option string }.

Definition KeyError (key : string) : exn := mkExn "KeyError" key.
Definition ValueError (msg : string) : exn := mkExn "ValueError" msg.

(** [category_labels = {c['id']: c['name'] for c in categories
                        if c['supercategory'] == 'animal'}] *)
Definition category_labels_of (categories : list Category) : odict string :=
  foldl (λ d c, if decide (cat_supercategory c = "animal")
                then od_set (cat_id c) (cat_name c) d else d) [] categories.

(** [for a in annotations:
       if a['category_id'] in category_labels:
         annos[a['image_id']] = {'category_id': a['category_id']}] *)
Definition annos_of (category_labels : odict string)
    (annotations : list AnnotationEntry) : odict Anno :=
  foldl (λ d a, match od_get (ann_category_id a) category_labels with
                | Some _ => od_set (ann_image_id a)
                                   (mkAnno (ann_category_id a) None None) d
                | None => d
                end) [] annotations.


(** [for id, anno in annos.items(): anno.update(images_d[id])]: the first
    id without an image raises [KeyError]. *)
Fixpoint combine (annos : odict Anno) (images_d : odict (string * string))
  : exn + odict Anno :=
  match annos with
  | [] => inr []
  | (id, anno) :: rest =>
      match od_get id images_d with
      | None => inl (KeyError (pretty id))
      | Some (url, fn) =>
          match combine rest images_d with
          | inl e => inl e
          | inr rest' =>
              inr ((id, mkAnno (category_id anno) (Some url) (Some fn)) :: rest')
          end
      end
  end.

(** [all_annos = {}; for k, v in train_annos.items(): all_annos.update({k: v});
     for k, v in val_annos.items(): all_annos.update({k: v})] *)
Definition all_annos_of (train_annos val_annos : odict Anno) : odict Anno :=
  foldl (λ d kv, od_set kv.1 kv.2 d)
        (foldl (λ d kv, od_set kv.1 kv.2 d) [] train_annos) val_annos.

Section Sampling.
(** [np.random.choice(subset, size, replace=False)] on a population that is
    large enough: the generator's state goes in and comes out.  Image ids
    are taken to fit [int64], as COCO's do, so that the arrays NumPy builds
    from them hold the ids themselves. *)
Context {Rng : Type}.
Variable choice : Rng → list Z → nat → list Z * Rng.

(** [subset = [k for k, v in all_annos.items() if v['category_id'] == category_id]] *)
Definition subset_of (all_annos : odict Anno) (cid : Z) : list Z :=
  (filter (λ kv, category_id kv.2 = cid) all_annos).*1.

(** [for k in sample: sample_annos[k] = all_annos[k]] *)
Fixpoint copy_sample (all_annos : odict Anno) (sample : list Z)
    (sample_annos : odict Anno) : exn + odict Anno :=
  match sample with
  | [] => inr sample_annos
  | k :: rest =>
      match od_get k all_annos with
      | None => inl (KeyError (pretty k))
      | Some v => copy_sample all_annos rest (od_set k v sample_annos)
      end
  end.

(** One turn of [for category_id in category_labels]; [np.random.choice]
    raises [ValueError] on an empty population and on one smaller than the
    sample. *)
Definition sample_category (all_annos : odict Anno)
    (st : odict Anno * Rng) (cid : Z) : exn + odict Anno * Rng :=
  let subset := subset_of all_annos cid in
  if decide (subset = []) then
    inl (ValueError "'a' cannot be empty unless no samples are taken")
  else if decide (length subset < 250) then
    inl (ValueError
           "Cannot take a larger sample than population when 'replace=False'")
  else
    let '(sample, g) := choice st.2 subset 250 in
    match copy_sample all_annos sample st.1 with
    | inl e => inl e
    | inr d => inr (d, g)
    end.

Fixpoint sample_categories (all_annos : odict Anno) (cids : list Z)
    (st : odict Anno * Rng) : exn + odict Anno * Rng :=
  match cids with
  | [] => inr st
  | cid :: rest =>
      match sample_category all_annos st cid with
      | inl e => inl e
      | inr st' => sample_categories all_annos rest st'
      end
  end.

(** The cell "Sample the dataset". *)
Definition sample_annos_of (category_labels : odict string)
    (all_annos : odict Anno) (g : Rng) : exn + odict Anno * Rng :=
  sample_categories all_annos (od_keys category_labels) ([], g).

(** What the cell relies on from [np.random.choice(..., replace=False)]: the
    sample has the size asked for and takes every element of the population
    at most once. *)
Definition without_replacement : Prop :=
  ∀ g pop n, n ≤ length pop →
    length (choice g pop n).1 = n ∧ (choice g pop n).1 ⊆+ pop.

End Sampling.

(** A generator that samples the head of the population. *)
Definition head_choice (g : unit) (pop : list Z) (n : nat) : list Z * unit :=
  (take n pop, g).

(** [s.replace(old, new)] for a pattern [old] that is not empty: the
    occurrences are replaced from the left and do not overlap.  [skip]
    counts the characters of an occurrence still to pass over. *)
Fixpoint replace_from (skip : nat) (old new s : string) : string :=
  match s with
  | EmptyString => EmptyString
  | String c s' =>
      match skip with
      | S k => replace_from k old new s'
      | O =>
          if String.prefix old s
          then new +:+ replace_from (String.length old - 1) old new s'
          else String c (replace_from 0 old new s')
      end
  end.

Definition str_replace (old new s : string) : string := replace_from 0 old new s.

(** [s.endswith(suffix)] *)
Definition endswith (s suffix : string) : bool :=
  bool_decide (String.substring (String.length s - String.length suffix)
                                (String.length suffix) s = suffix
               ∧ String.length suffix ≤ String.length s).

(** The name a CIFAR image is written under:
    [if filename.endswith('.png'): filename = filename.replace('.png', '.jpg')] *)
Definition written_name (filename : string) : string :=
  if endswith filename ".png" then str_replace ".png" ".jpg" filename
  else filename.

(** The name recorded for it in [sample_annos]:
    [frog_filenames[idx].decode().replace('.png', '.jpg')] *)
Definition recorded_name (filename : string) : string :=
  str_replace ".png" ".jpg" filename.


(** NumPy's [int64].  The keys of [sample_annos] are the [int64] ids the
    sampling cell has left; a sum that has an [int64] operand is an [int64]
    and wraps around (with a warning). *)
Definition int64 (z : Z) : Prop := (- 2 ^ 63 ≤ z < 2 ^ 63)%Z.

Definition wrap64 (z : Z) : Z := ((z + 2 ^ 63) mod 2 ^ 64 - 2 ^ 63)%Z.

(** [next_anno_idx = np.array(list(sample_annos.keys())).max() + 1]; the
    maximum of an empty array raises [ValueError]. *)
Definition next_anno_idx (sample_annos : odict Anno) : exn + Z :=
  match od_keys sample_annos with
  | [] =>
      inl (ValueError
             "zero-size array to reduction operation maximum which has no identity")
  | k :: ks => inr (wrap64 (foldl Z.max k ks + 1))
  end.

(** [frog_anno_ids = range(next_anno_idx, next_anno_idx + len(frog_images))]:
    the integers from [next_anno_idx] up to the bound, none when the bound
    is not above it. *)
Definition frog_anno_ids (next_anno_idx : Z) (n : nat) : list Z :=
  let stop := wrap64 (next_anno_idx + Z.of_nat n) in
  seqZ next_anno_idx (stop - next_anno_idx).

(** [for idx, frog_id in enumerate(frog_anno_ids):
       sample_annos[frog_id] = {'category_id': 26,
                                'file_name': frog_filenames[idx].decode().replace('.png', '.jpg')}];
    an index past the end of [frog_filenames] raises [IndexError]. *)
Fixpoint add_frogs_from (idx : nat) (frog_anno_ids : list Z)
    (frog_filenames : list string) (sample_annos : odict Anno)
  : exn + odict Anno :=
  match frog_anno_ids with
  | [] => inr sample_annos
  | frog_id :: rest =>
      match frog_filenames !! idx with
      | None => inl (mkExn "IndexError" "index out of bounds")
      | Some f =>
          add_frogs_from (S idx) rest frog_filenames
            (od_set frog_id (mkAnno 26 None (Some (recorded_name f)))
                    sample_annos)
      end
  end.

(** The two cells; there is one file name per frog image. *)
Definition add_frogs (frog_filenames : list string) (sample_annos : odict Anno)
  : exn + odict Anno :=
  match next_anno_idx sample_annos with
  | inl e => inl e
  | inr next =>
      add_frogs_from 0 (frog_anno_ids next (length frog_filenames))
        frog_filenames sample_annos
  end.

(** The cells of the notebook in the order they run, from the metadata read
    to the annotations stored for the next notebooks; the file names of the
    sampled frog images are an input. *)
Section DatasetNotebook.
Context {Rng : Type}.
Variable choice : Rng → list Z → nat → list Z * Rng.


End DatasetNotebook.

(** What the next notebook reads of an annotation: the label of its
    category and its file name. *)
Definition ready (category_labels : odict string) (sample_annos : odict Anno)
  : Prop :=
  ∀ k v, (k, v) ∈ sample_annos →
    is_Some (od_get (category_id v) category_labels) ∧ is_Some (file_name v).

(** ** The notebook that structures the data: the copy cell *)

(** A path is kept as the operands joined with [/]; how [pathlib] reads the
    operands is left to the file system. *)
Definition path : Type := list string.

(** What the cell asks of the file system. *)
Inductive fs_op :=
  | MkdirParents (p : path)   (* [p.mkdir(exist_ok=True, parents=True)] *)
  | Mkdir (p : path)          (* [p.mkdir(exist_ok=True)] *)
  | Copy (src dst : path).    (* [shutil.copy(src.as_posix(), dst.as_posix())] *)

Definition unstruct_dir : path := ["data_sample_2750"].
Definition struct_dir : path := ["data_structured"].

(** The copies among the operations. *)
Definition copies (ops : list fs_op) : list (path * path) :=
  ops ≫= λ op, match op with Copy src dst => [(src, dst)] | _ => [] end.

Section StructureCell.
Context {Fs : Type}.
(** The file system performs an operation or raises. *)
Variable fs_do : fs_op → Fs → option exn * Fs.
Variable category_labels : odict string.
Variable sample_annos : odict Anno.

(** The file system and the operations asked of it so far. *)
Definition FsWorld : Type := Fs * list fs_op.

Definition perform (op : fs_op) (w : FsWorld) : option exn * FsWorld :=
  let '(r, s) := fs_do op w.1 in (r, (s, w.2 ++ [op])).

(** Operations one after the other, up to the first that raises. *)
Fixpoint perform_all (ops : list fs_op) (w : FsWorld) : option exn * FsWorld :=
  match ops with
  | [] => (None, w)
  | op :: rest =>
      match perform op w with
      | (Some e, w1) => (Some e, w1)
      | (None, w1) => perform_all rest w1
      end
  end.

(** [for image_id in tqdm(split): ...] *)
Fixpoint copy_images (split_dir : path) (split : list Z) (w : FsWorld)
  : option exn * FsWorld :=
  match split with
  | [] => (None, w)
  | image_id :: rest =>
      match od_get image_id sample_annos with
      | None => (Some (KeyError (pretty image_id)), w)
      | Some anno =>
          match od_get (category_id anno) category_labels with
          | None => (Some (KeyError (pretty (category_id anno))), w)
          | Some label =>
              let category_dir := split_dir ++ [label] in
              match perform (Mkdir category_dir) w with
              | (Some e, w1) => (Some e, w1)
              | (None, w1) =>
                  match file_name anno with
                  | None => (Some (KeyError "'file_name'"), w1)
                  | Some fn =>
                      let source_path := unstruct_dir ++ [fn] in
                      let target_path := category_dir ++ [fn] in
                      match perform (Copy source_path target_path) w1 with
                      | (Some e, w2) => (Some e, w2)
                      | (None, w2) => copy_images split_dir rest w2
                      end
                  end
              end
          end
      end
  end.

(** [for name, split in zip(['train', 'val', 'test'], [train_ids, val_ids, test_ids]): ...] *)
Fixpoint structure_splits (splits : list (string * list Z)) (w : FsWorld)
  : option exn * FsWorld :=
  match splits with
  | [] => (None, w)
  | (name, split) :: rest =>
      let split_dir := struct_dir ++ [name] in
      match perform (Mkdir split_dir) w with
      | (Some e, w1) => (Some e, w1)
      | (None, w1) =>
          match copy_images split_dir split w1 with
          | (Some e, w2) => (Some e, w2)
          | (None, w2) => structure_splits rest w2
          end
      end
  end.

(** The cell "Make new folder structure and copy image files". *)
Definition structure_cell (train_ids val_ids test_ids : list Z) (w : FsWorld)
  : option exn * FsWorld :=
  match perform (MkdirParents struct_dir) w with
  | (Some e, w1) => (Some e, w1)
  | (None, w1) =>
      structure_splits
        [("train", train_ids); ("val", val_ids); ("test", test_ids)] w1
  end.

(** The operations the cell is to ask for an image and for a split. *)
Definition image_ops (name : string) (image_id : Z) : list fs_op :=
  match od_get image_id sample_annos with
  | Some anno =>
      match od_get (category_id anno) category_labels, file_name anno with
      | Some label, Some fn =>
          [Mkdir (struct_dir ++ [name; label]);
           Copy (unstruct_dir ++ [fn]) (struct_dir ++ [name; label; fn])]
      | _, _ => []
      end
  | None => []
  end.

Definition split_ops (name : string) (split : list Z) : list fs_op :=
  Mkdir (struct_dir ++ [name]) :: (split ≫= image_ops name).

Definition cell_ops (train_ids val_ids test_ids : list Z) : list fs_op :=
  MkdirParents struct_dir
  :: split_ops "train" train_ids ++ split_ops "val" val_ids
     ++ split_ops "test" test_ids.

End StructureCell.

Arguments FsWorld : clear implicits.

(** The copy the cell is to make of an image of the split [name]. *)
Definition copied_as (category_labels : odict string) (sample_annos : odict Anno)
    (name : string) (image_id : Z) (c : path * path) : Prop :=
  ∃ anno label fn,
    od_get image_id sample_annos = Some anno
    ∧ od_get (category_id anno) category_labels = Some label
    ∧ file_name anno = Some fn
    ∧ c = (unstruct_dir ++ [fn], struct_dir ++ [name; label; fn]).

(** The image has an annotation with a labelled category and a file name. *)
Definition copyable (category_labels : odict string) (sample_annos : odict Anno)
    (image_id : Z) : Prop :=
  ∃ anno label fn,
    od_get image_id sample_annos = Some anno
    ∧ od_get (category_id anno) category_labels = Some label
    ∧ file_name anno = Some fn.

(** Every copy comes right after the [mkdir] of the directory it copies
    into. *)
Definition led_by_mkdir (ops : list fs_op) : Prop :=
  ∀ i src dst, ops !! i = Some (Copy src dst) →
    ∃ j, i = S j ∧ ops !! j = Some (Mkdir (removelast dst)).

(** A file system that performs every operation and counts them. *)
Definition counting_fs (op : fs_op) (n : nat) : option exn * nat := (None, S n).

(** A file system without room for more than [limit] operations. *)
Definition full_fs (limit : nat) (op : fs_op) (n : nat) : option exn * nat :=
  if decide (n < limit) then (None, S n)
  else (Some (mkExn "OSError" "No space left on device"), n).

(** ** The reviews notebook: the helpfulness label *)

(** *** [helpful_votes / total_votes > 0.80], in binary64 *)
Module b64q.
Import b64.
Local Open Scope Z_scope.

(** [x / y] for [0 < y]: the exact quotient rounded to 53 bits, ties to
    even.  The quotient of the significands is taken with 110 more bits and
    one last bit that tells whether anything is left below; for
    significands under [2^53] that is more than the 55 bits rounding
    needs. *)
Definition div (x y : float) : float :=
  let n := x.1 * 2 ^ 110 in
  let sticky := if Z.eqb (n mod y.1) 0 then 0 else 1 in
  round (2 * (n / y.1) + sticky) (x.2 - y.2 - 111).

(** [x > y] *)
Definition gt (x y : float) : bool :=
  let e := Z.min x.2 y.2 in
  Z.ltb (y.1 * 2 ^ (y.2 - e)) (x.1 * 2 ^ (x.2 - e)).

End b64q.

(** A row of [df_reviews]: the columns the cells read ([int64] and [str]). *)
Record Review := mkReview {
  helpful_votes : Z;
  total_votes : Z;
  review_headline : string;
  review_body : string }.

(** [df_reviews = df_reviews[df_reviews['total_votes'] >= 5]] *)
Definition voted_rows (df_reviews : list Review) : list Review :=
  filter (λ r, (5 ≤ total_votes r)%Z) df_reviews.

(** [df_reviews['helpful_score'] = df_reviews['helpful_votes'] / df_reviews['total_votes']] *)
Definition helpful_score (r : Review) : b64.float :=
  b64q.div (b64.of_int (helpful_votes r)) (b64.of_int (total_votes r)).

(** [df_reviews['is_helpful'] = (df_reviews['helpful_score'] > 0.80)] *)
Definition is_helpful (r : Review) : bool :=
  b64q.gt (helpful_score r) b64.lit_0_8.

(** [index_to_label = {0: 'NotHelpful', 1: 'Helpful'}], read at a [bool]. *)
Definition index_to_label (b : bool) : string :=
  if b then "Helpful" else "NotHelpful".

(** [labelize_df], on a row *)
Definition labelize (r : Review) : string :=
  "__label__" +:+ index_to_label (is_helpful r).

Section Tokenize.
(** [[token.text for token in tokenizer(sent)]] *)
Variable tokenizer : string → list string.

(** [' '.join([...])[:max_length]] *)
Definition tokenize_sent (sent : string) (max_length : nat) : string :=
  py_slice (String.concat " " (tokenizer sent)) 0 max_length.

(** [tokenize_df], on a row *)
Definition tokenize (r : Review) : string :=
  tokenize_sent (review_headline r) 1000 +:+ " "
  +:+ tokenize_sent (review_body r) 1000.

(** [labelize_df(df) + ' ' + tokenize_df(df)], on a row *)
Definition text_line (r : Review) : string :=
  labelize r +:+ " " +:+ tokenize r.

End Tokenize.

(** ** The chunking loop on a Python [str]

    A [str] is a sequence of code points: [len] counts code points and a
    slice cuts between them.  What the service receives is the UTF-8
    encoding, in which a code point takes one to four bytes.  A Rocq
    [string] is a sequence of 8-bit characters; it stands for the texts all
    of whose code points are below 256 ([code_points]). *)
Definition pystr : Type := list Z.



(** [pageText[0+i:maxLength+i] for i in range(0, len(pageText), maxLength)] *)
Definition text_chunks_by (M : nat) (pageText : pystr) : list pystr :=
  (λ i, slice pageText (0 + i) (M + i)) <$> py_range 0 (length pageText) M.


(** The code points of a text of 8-bit characters. *)
Definition code_points (s : string) : pystr :=
  (λ a, Z.of_N (Ascii.N_of_ascii a)) <$> chars s.

(** * Properties *)

(** ** The status-poll loop *)

Section PollFacts.
Context {Svc : Type}.
Variable get_document_analysis :
  string → option string → Svc → (exn + Response) * Svc.
Variable textractJobId : string.

Local Abbreviation await := (awaitCompletion get_document_analysis textractJobId).
Local Abbreviation poll_loop := (status_loop get_document_analysis textractJobId).
Local Abbreviation polled := (polled get_document_analysis textractJobId).
Local Abbreviation turn_events := (turn_events textractJobId).
Local Abbreviation await_events := (await_events textractJobId).
Local Abbreviation always_in_progress :=
  (always_in_progress get_document_analysis textractJobId).

Lemma status_loop_stop fuel (w : World Svc) :
  status w ≠ Some "IN_PROGRESS" → poll_loop fuel w = (Done, w).
Proof.
  intros Hst. destruct fuel; simpl; rewrite bool_decide_eq_false_2; done.
Qed.

Lemma status_loop_done ips : ∀ r (w : World Svc) s' fuel,
  status w = Some "IN_PROGRESS" →
  polled (textract w) (ips ++ [r]) s' →
  Forall (λ x, JobStatus x = "IN_PROGRESS") ips →
  JobStatus r ≠ "IN_PROGRESS" →
  length ips < fuel →
  poll_loop fuel w =
    (Done, mkWorld s' (trace w ++ ((ips ++ [r]) ≫= turn_events))
                   (Some r) (Some (JobStatus r)) (pages w) (nextToken w)).
Proof.
  induction ips as [|r0 ips IH]; intros r w s' fuel Hst Hp Hall Hr Hfuel.
  - destruct fuel as [|fuel]; [simpl in Hfuel; lia|].
    inversion Hp as [|s0 r' s1 rs s'' Hcall Hrest]; subst.
    inversion Hrest; subst.
    simpl. rewrite bool_decide_eq_true_2 by done.
    unfold call. simpl. rewrite Hcall.
    rewrite status_loop_stop; [|simpl; congruence].
    unfold print, set_status; simpl. by rewrite <- !app_assoc.
  - destruct fuel as [|fuel]; [simpl in Hfuel; lia|].
    inversion Hp as [|s0 r' s1 rs s'' Hcall Hrest]; subst.
    apply Forall_cons in Hall as [Hr0 Hall].
    simpl. rewrite bool_decide_eq_true_2 by done.
    unfold call. simpl. rewrite Hcall.
    erewrite IH; [| |exact Hrest|exact Hall|exact Hr|simpl in Hfuel; lia];
      [|simpl; by rewrite Hr0].
    simpl. by rewrite <- !app_assoc.
Qed.

(** The cell completes on the first response whose status is not
    ["IN_PROGRESS"], as soon as the budget covers the turns before it. *)
Lemma awaitCompletion_done ips r (w : World Svc) s' fuel :
  polled (textract w) (ips ++ [r]) s' →
  Forall (λ x, JobStatus x = "IN_PROGRESS") ips →
  JobStatus r ≠ "IN_PROGRESS" →
  length ips ≤ fuel →
  await fuel w =
    (Done, mkWorld s' (trace w ++ await_events (ips ++ [r]))
                   (Some r) (Some (JobStatus r)) (pages w) (nextToken w)).
Proof.
  intros Hp Hall Hr Hfuel. unfold awaitCompletion, call.
  destruct ips as [|r0 ips]; simpl in *.
  - inversion Hp as [|s0 r' s1 rs s'' Hcall Hrest]; subst.
    inversion Hrest; subst. rewrite Hcall.
    rewrite status_loop_stop; [|simpl; congruence].
    unfold set_status; simpl. by rewrite <- !app_assoc.
  - inversion Hp as [|s0 r' s1 rs s'' Hcall Hrest]; subst.
    apply Forall_cons in Hall as [Hr0 Hall]. rewrite Hcall.
    erewrite status_loop_done; [| |exact Hrest|exact Hall|exact Hr|simpl; lia];
      [|simpl; by rewrite Hr0].
    simpl. by rewrite <- !app_assoc.
Qed.

Lemma status_loop_running fuel : ∀ (w : World Svc),
  always_in_progress →
  status w = Some "IN_PROGRESS" →
  ∃ w', poll_loop fuel w = (Running, w')
        ∧ page_requests (trace w') = page_requests (trace w) ++ replicate fuel None
        ∧ sleeps (trace w') = sleeps (trace w) ++ replicate fuel 5
        ∧ status w' = Some "IN_PROGRESS"
        ∧ pages w' = pages w.
Proof.
  induction fuel as [|fuel IH]; intros w Hsvc Hst; simpl;
    rewrite bool_decide_eq_true_2 by done.
  - exists w. by rewrite !app_nil_r.
  - unfold call; simpl.
    destruct (Hsvc (textract w)) as (r & s' & Hcall & Hr). rewrite Hcall.
    edestruct IH as (w' & -> & Hreq & Hsl & Hst' & Hpg); [done| |].
    2:{ exists w'. split; [done|]. rewrite Hreq, Hsl, Hst', Hpg. simpl.
        unfold page_requests, sleeps.
        rewrite !omap_app. simpl. rewrite !app_nil_r, <- !app_assoc.
        done. }
    simpl. by rewrite Hr.
Qed.

(** An exception that leaves the cell is one the service raised. *)
Lemma status_loop_raised (P : exn → Prop) fuel : ∀ (w : World Svc) e,
  (∀ tok s e s', get_document_analysis textractJobId tok s = (inl e, s') → P e) →
  (poll_loop fuel w).1 = Raised e → P e.
Proof.
  induction fuel as [|fuel IH]; intros w e Hsvc; simpl;
    case_bool_decide; simpl; try done.
  unfold call; simpl.
  destruct (get_document_analysis _ _ _) as [[e'|r] s'] eqn:Hcall; simpl.
  - intros [= <-]. eauto.
  - by apply IH.
Qed.

Lemma awaitCompletion_raised (P : exn → Prop) fuel (w : World Svc) e :
  (∀ tok s e s', get_document_analysis textractJobId tok s = (inl e, s') → P e) →
  (await fuel w).1 = Raised e → P e.
Proof.
  intros Hsvc. unfold awaitCompletion, call; simpl.
  destruct (get_document_analysis _ _ _) as [[e'|r] s'] eqn:Hcall; simpl.
  - intros [= <-]. eauto.
  - by apply status_loop_raised.
Qed.

End PollFacts.

(** ** The NextToken loop *)

Section PageFacts.
Context {Svc : Type}.
Variable get_document_analysis :
  string → option string → Svc → (exn + Response) * Svc.
Variable textractJobId : string.

Local Abbreviation collect := (collectPages get_document_analysis textractJobId).
Local Abbreviation page_loop := (token_loop get_document_analysis textractJobId).
Local Abbreviation chain := (chain get_document_analysis textractJobId).

(** What the loop guarantees whatever the service does and however the run
    ends.  [r0] is the response received last before the loop, [rs'] the
    responses the loop appends, [evs] what it does. *)
Lemma token_loop_chain fuel : ∀ (w : World Svc) rs0 r0,
  pages w = Some (rs0 ++ [r0]) →
  nextToken w = NextToken r0 →
  ∃ rs' evs,
    let o := (page_loop fuel w).1 in
    let w' := (page_loop fuel w).2 in
    trace w' = trace w ++ evs
    ∧ pages w' = Some (rs0 ++ r0 :: rs')
    ∧ status w' = status w
    ∧ page_requests evs
      = take (length rs' + (if raised o then 1 else 0))
             (NextToken <$> (r0 :: rs'))
    ∧ Forall (λ t, truthy t = true) (page_requests evs)
    ∧ (o = Done → truthy (NextToken (default r0 (last rs'))) = false)
    ∧ (o = Running → truthy (NextToken (default r0 (last rs'))) = true).
Proof.
  induction fuel as [|fuel IH]; intros w rs0 r0 Hpg Htok.
  - exists [], []. simpl. destruct (truthy (nextToken w)) eqn:Ht; simpl;
      rewrite app_nil_r; repeat split; try done; by rewrite <- Htok.
  - simpl. destruct (truthy (nextToken w)) eqn:Ht.
    2:{ exists [], []. simpl. rewrite app_nil_r.
        repeat split; try done. by rewrite <- Htok. }
    unfold call; simpl.
    destruct (get_document_analysis _ _ _) as [[e|r] s'] eqn:Hcall; simpl.
    + exists [], [Sleep 5; GetDocumentAnalysis textractJobId (nextToken w)].
      simpl. rewrite <- app_assoc. repeat split; try done.
      * by rewrite Htok.
      * by repeat constructor.
    + rewrite Hpg. simpl.
      set (w2 := print _ _).
      destruct (IH w2 (rs0 ++ [r0]) r) as (rs' & evs & IHw);
        [subst w2; simpl; done | done |].
      simpl in IHw. destruct IHw as (Htr & Hpg' & Hst & Hreq & Hall & Hd & Hr).
      exists (r :: rs'),
        ([Sleep 5; GetDocumentAnalysis textractJobId (nextToken w);
          Print ("Resultset page recieved: "
                 +:+ pretty (length ((rs0 ++ [r0]) ++ [r])))] ++ evs).
      simpl. repeat split.
      * rewrite Htr. subst w2. simpl. by rewrite <- !app_assoc.
      * rewrite Hpg'. by rewrite <- app_assoc.
      * rewrite Hst. by subst w2.
      * unfold page_requests in *. simpl. rewrite Htok. f_equal. exact Hreq.
      * unfold page_requests in *. simpl. constructor; [done|exact Hall].
      * intros Ho. specialize (Hd Ho). destruct rs' as [|x rs'] using rev_ind;
          [done|]. by rewrite last_cons, last_snoc in *.
      * intros Ho. specialize (Hr Ho). destruct rs' as [|x rs'] using rev_ind;
          [done|]. by rewrite last_cons, last_snoc in *.
Qed.

(** The same for the whole cell: [rs] is the final value of [pages]. *)
Lemma collectPages_chain fuel (w : World Svc) :
  ∃ rs evs,
    let o := (collect fuel w).1 in
    let w' := (collect fuel w).2 in
    trace w' = trace w ++ evs
    ∧ pages w' = Some rs
    ∧ status w' = status w
    ∧ page_requests evs
      = take (length rs + (if raised o then 1 else 0))
             (None :: (NextToken <$> rs))
    ∧ Forall (λ t, truthy t = true) (tail (page_requests evs))
    ∧ (o = Done → ∃ r, last rs = Some r ∧ truthy (NextToken r) = false)
    ∧ (o = Running → ∃ r, last rs = Some r ∧ truthy (NextToken r) = true).
Proof.
  unfold collectPages, call; simpl.
  destruct (get_document_analysis _ _ _) as [[e|r] s'] eqn:Hcall; simpl.
  - exists [], [Sleep 5; GetDocumentAnalysis textractJobId None]. simpl.
    rewrite <- app_assoc. by repeat split.
  - set (w1 := append_page _ _).
    destruct (token_loop_chain fuel w1 [] r) as (rs' & evs & Hw); [done..|].
    simpl in Hw. destruct Hw as (Htr & Hpg & Hst & Hreq & Hall & Hd & Hr).
    exists (r :: rs'), ([Sleep 5; GetDocumentAnalysis textractJobId None] ++ evs).
    simpl. repeat split.
    + rewrite Htr. subst w1. simpl. by rewrite <- !app_assoc.
    + exact Hpg.
    + rewrite Hst. by subst w1.
    + unfold page_requests in *. simpl. f_equal. exact Hreq.
    + unfold page_requests in *. simpl. exact Hall.
    + intros Ho. specialize (Hd Ho). rewrite last_cons.
      destruct (last rs'); eauto.
    + intros Ho. specialize (Hr Ho). rewrite last_cons.
      destruct (last rs'); eauto.
Qed.

Lemma token_loop_total rs : ∀ (w : World Svc) rs0 r0 s' fuel,
  pages w = Some (rs0 ++ [r0]) →
  nextToken w = NextToken r0 →
  (if truthy (NextToken r0) then chain (textract w) (NextToken r0) rs s'
   else rs = [] ∧ s' = textract w) →
  length rs ≤ fuel →
  (page_loop fuel w).1 = Done
  ∧ pages (page_loop fuel w).2 = Some (rs0 ++ r0 :: rs)
  ∧ textract (page_loop fuel w).2 = s'.
Proof.
  induction rs as [|r rs IH]; intros w rs0 r0 s' fuel Hpg Htok Hch Hfuel.
  - destruct (truthy (NextToken r0)) eqn:Ht; [done|]. destruct Hch as [_ ->].
    destruct fuel; simpl; rewrite Htok, Ht; simpl; by rewrite Hpg.
  - destruct (truthy (NextToken r0)) eqn:Ht; [|by destruct Hch].
    destruct fuel as [|fuel]; [simpl in Hfuel; lia|].
    destruct Hch as (s1 & Hcall & Hrest).
    simpl. rewrite Htok, Ht. unfold call; simpl.
    rewrite Hcall, Hpg. simpl.
    set (w2 := print _ _).
    destruct (IH w2 (rs0 ++ [r0]) r s' fuel) as (Ho & Hpg' & Hs');
      [by subst w2|by subst w2|by subst w2|simpl in Hfuel; lia|].
    rewrite Ho, Hpg', Hs'. by rewrite <- app_assoc.
Qed.

(** With a budget that covers the chain the cell completes, and [pages]
    holds the responses of the chain, in chain order. *)
Lemma collectPages_total rs (w : World Svc) s' fuel :
  chain (textract w) None rs s' →
  length rs ≤ S fuel →
  (collect fuel w).1 = Done
  ∧ pages (collect fuel w).2 = Some rs
  ∧ textract (collect fuel w).2 = s'.
Proof.
  intros Hch Hfuel. destruct rs as [|r rs]; [done|].
  destruct Hch as (s1 & Hcall & Hrest).
  unfold collectPages, call; simpl. rewrite Hcall.
  set (w1 := append_page _ _).
  destruct (token_loop_total rs w1 [] r s' fuel) as (Ho & Hpg & Hs');
    [by subst w1|by subst w1|by subst w1|simpl in Hfuel; lia|].
  by rewrite Ho, Hpg, Hs'.
Qed.

(** The cell never reads [status]: another value of it changes nothing in
    what the cell does and comes out untouched. *)
Lemma token_loop_status st fuel : ∀ (w : World Svc),
  page_loop fuel (with_status st w)
  = ((page_loop fuel w).1, with_status st (page_loop fuel w).2).
Proof.
  induction fuel as [|fuel IH]; intros w; simpl;
    destruct (truthy (nextToken w)); try done.
  unfold call; simpl.
  destruct (get_document_analysis _ _ _) as [[e|r] s'] eqn:Hcall; simpl; [done|].
  exact (IH (print _ (append_page r
               (mkWorld s' _ (response w) (status w) (pages w) (nextToken w))))).
Qed.

Lemma collectPages_status st fuel (w : World Svc) :
  collect fuel (with_status st w)
  = ((collect fuel w).1, with_status st (collect fuel w).2).
Proof.
  unfold collectPages, call; simpl.
  destruct (get_document_analysis _ _ _) as [[e|r] s'] eqn:Hcall; simpl; [done|].
  exact (token_loop_status st fuel
           (append_page r
              (mkWorld s' _ (response w) (status w) (Some []) (nextToken w)))).
Qed.

(** An exception that leaves the cell is one the service raised. *)
Lemma token_loop_raised (P : exn → Prop) fuel : ∀ (w : World Svc) e,
  (∀ tok s e s', get_document_analysis textractJobId tok s = (inl e, s') → P e) →
  (page_loop fuel w).1 = Raised e → P e.
Proof.
  induction fuel as [|fuel IH]; intros w e Hsvc; simpl;
    destruct (truthy (nextToken w)); simpl; try done.
  unfold call; simpl.
  destruct (get_document_analysis _ _ _) as [[e'|r] s'] eqn:Hcall; simpl.
  - intros [= <-]. eauto.
  - by apply IH.
Qed.

Lemma collectPages_raised (P : exn → Prop) fuel (w : World Svc) e :
  (∀ tok s e s', get_document_analysis textractJobId tok s = (inl e, s') → P e) →
  (collect fuel w).1 = Raised e → P e.
Proof.
  intros Hsvc. unfold collectPages, call; simpl.
  destruct (get_document_analysis _ _ _) as [[e'|r] s'] eqn:Hcall; simpl.
  - intros [= <-]. eauto.
  - by apply token_loop_raised.
Qed.

End PageFacts.

(** ** Strings as sequences of characters *)

Lemma string_app_cons a s t : String a s +:+ t = String a (s +:+ t).
Proof. reflexivity. Qed.

Lemma string_app_nil_r s : s +:+ EmptyString = s.
Proof. induction s as [|a s IH]; [done|]. by rewrite string_app_cons, IH. Qed.

Lemma string_app_assoc s t u : s +:+ t +:+ u = (s +:+ t) +:+ u.
Proof.
  induction s as [|a s IH]; [done|]. by rewrite !string_app_cons, IH.
Qed.

Lemma chars_app s t :
  chars (s +:+ t)
  = chars s ++ chars t.
Proof.
  induction s as [|a s IH]; [done|]. rewrite string_app_cons. simpl.
  by rewrite IH.
Qed.

Lemma chars_length s : length (chars s) = String.length s.
Proof. induction s as [|a s IH]; simpl; [done|by rewrite IH]. Qed.

Lemma chars_inj s t : chars s = chars t → s = t.
Proof.
  intros H. rewrite <- (String.string_of_list_ascii_of_string s),
    <- (String.string_of_list_ascii_of_string t). by rewrite H.
Qed.

Lemma chars_substring n m s :
  chars (String.substring n m s)
  = take m (drop n (chars s)).
Proof.
  revert n m.
  induction s as [|a s IH]; intros [|n] [|m]; simpl; by rewrite ?IH.
Qed.

Lemma chars_concat (cs : list string) :
  chars (fold_right String.append EmptyString cs)
  = concat (chars <$> cs).
Proof.
  induction cs as [|c cs IH]; simpl; [done|]. by rewrite chars_app, IH.
Qed.

(** ** The parsed document *)

Module trp_facts.
Import trp.

Lemma page_shaped_snoc p b :
  page_shaped p → BlockType b ≠ "PAGE" → page_shaped (p ++ [b]).
Proof.
  intros (b0 & rest & -> & Hb0 & Hrest) Hb.
  exists b0, (rest ++ [b]). split_and!; [done|done|].
  apply Forall_app; split; [done|by constructor].
Qed.

Lemma parse_block_inv st b st' :
  parse_block st b = inr st' → state_ok st →
  state_ok st'
  ∧ held st' = held st ++ [b]
  ∧ length (held_pages st')
    = length (held_pages st) + length (page_blocks [b]).
Proof.
  destruct st as [dps dp]. unfold parse_block, state_ok, held, held_pages,
    page_blocks. simpl. intros Hstep [Hdps Hdp].
  rewrite filter_cons, filter_nil. case_bool_decide as Hb.
  - rewrite decide_True by done.
    destruct dp as [[|b0 bs]|]; simplify_eq; simpl.
    + specialize (Hdp [] eq_refl). by destruct Hdp as (? & ? & ? & _).
    + split_and!.
      * apply Forall_app; split; [done|]. constructor; [|done]. by apply Hdp.
      * intros p [= <-]. exists b, []. by split_and!.
      * rewrite concat_app. simpl. by rewrite app_nil_r, <- app_assoc.
      * rewrite !length_app. simpl. lia.
    + split_and!; [done| |by rewrite !app_nil_r|rewrite !length_app; simpl; lia].
      intros p [= <-]. exists b, []. by split_and!.
  - rewrite decide_False by done.
    destruct dp as [bs|]; simplify_eq; simpl.
    split_and!; [done| |by rewrite app_assoc|].
    + intros p [= <-]. apply page_shaped_snoc; [by apply Hdp|done].
    + destruct (Hdp bs eq_refl) as (b0 & rest & -> & _). simpl.
      rewrite !length_app. simpl. lia.
Qed.

Lemma parse_blocks_inv bs : ∀ st st',
  parse_blocks st bs = inr st' → state_ok st →
  state_ok st'
  ∧ held st' = held st ++ bs
  ∧ length (held_pages st')
    = length (held_pages st) + length (page_blocks bs).
Proof.
  induction bs as [|b bs IH]; simpl; intros st st' Hrun Hok.
  - simplify_eq. by rewrite app_nil_r.
  - destruct (parse_block st b) as [e|st1] eqn:Hstep; [done|].
    destruct (parse_block_inv _ _ _ Hstep Hok) as (Hok1 & Hheld1 & Hn1).
    destruct (IH _ _ Hrun Hok1) as (Hok' & Hheld' & Hn').
    split_and!; [done|by rewrite Hheld', Hheld1, <- app_assoc|].
    rewrite Hn', Hn1. unfold page_blocks.
    rewrite (filter_cons _ b bs), !filter_cons, filter_nil.
    case_decide; simpl; lia.
Qed.

(** Once a page is open no block can fail. *)
Lemma parse_blocks_open bs : ∀ dps p, ∃ st', parse_blocks (dps, Some p) bs = inr st'.
Proof.
  induction bs as [|b bs IH]; simpl; intros dps p; [eauto|].
  case_bool_decide; [destruct p|]; apply IH.
Qed.

(** [parseDocumentPages] returns the pages the final state stands for. *)
Lemma parseDocumentPages_held rs st :
  parse_blocks ([], None) (rs ≫= Blocks) = inr st →
  parseDocumentPages rs = inr (held_pages st).
Proof.
  unfold parseDocumentPages, held_pages. intros ->.
  destruct st as [dps [[|b bs]|]]; simpl; by rewrite ?app_nil_r.
Qed.

(** The parser fails exactly on blocks that precede the first ["PAGE"]
    block; a response list that starts with a ["PAGE"] block, or has no
    block at all, is parsed. *)
Lemma parseDocumentPages_ok rs :
  (∀ b, head (rs ≫= Blocks) = Some b → BlockType b = "PAGE") →
  ∃ dps, parseDocumentPages rs = inr dps.
Proof.
  intros Hhead. destruct (rs ≫= Blocks) as [|b bs] eqn:Hbs.
  - exists []. unfold parseDocumentPages. by rewrite Hbs.
  - destruct (parse_blocks_open bs [] [b]) as [st' Hst'].
    exists (held_pages st'). apply parseDocumentPages_held.
    rewrite Hbs. simpl. rewrite bool_decide_eq_true_2 by (by apply Hhead).
    exact Hst'.
Qed.

(** The pages of the document cut the blocks of the responses, kept in
    order, at the ["PAGE"] blocks. *)
Lemma parseDocumentPages_spec rs dps :
  parseDocumentPages rs = inr dps →
  concat dps = rs ≫= Blocks
  ∧ Forall page_shaped dps
  ∧ length dps = length (page_blocks (rs ≫= Blocks)).
Proof.
  intros Hrun.
  destruct (parse_blocks ([], None) (rs ≫= Blocks)) as [e|st] eqn:Hst.
  { unfold parseDocumentPages in Hrun. by rewrite Hst in Hrun. }
  rewrite (parseDocumentPages_held _ _ Hst) in Hrun. simplify_eq.
  destruct (parse_blocks_inv _ _ _ Hst) as ([Hdps Hdp] & Hheld & Hn).
  { split; [constructor|done]. }
  unfold held, held_pages in *. simpl in *.
  destruct st as [dps [[|b bs]|]]; simpl in *.
  - specialize (Hdp [] eq_refl). by destruct Hdp as (? & ? & ? & _).
  - split_and!; [|apply Forall_app; split; [done|]; constructor; [by apply Hdp|done]|done].
    rewrite concat_app. simpl. by rewrite app_nil_r.
  - rewrite !app_nil_r in *. by split_and!.
Qed.

(** The text of a page: the texts of its ["LINE"] blocks, in order, each
    closed by a newline. *)
Lemma page_text_lines bs :
  page_text bs
  = fold_right String.append EmptyString
      ((λ b, Text b +:+ newline) <$> filter (λ b, BlockType b = "LINE") bs).
Proof.
  unfold page_text.
  assert (∀ t, foldl (λ t b, if bool_decide (BlockType b = "LINE")
                             then t +:+ Text b +:+ newline else t) t bs
               = t +:+ fold_right String.append EmptyString
                   ((λ b, Text b +:+ newline)
                      <$> filter (λ b, BlockType b = "LINE") bs)) as H.
  { induction bs as [|b bs IH]; intros t; simpl.
    - by rewrite string_app_nil_r.
    - rewrite IH, filter_cons. case_bool_decide.
      + rewrite decide_True by done. simpl.
        by rewrite <- !string_app_assoc.
      + by rewrite decide_False by done. }
  by rewrite H.
Qed.

Lemma Document_spec rs d :
  Document rs = inr d →
  d ≫= blocks = rs ≫= Blocks
  ∧ Forall (λ p, page_shaped (blocks p) ∧ text p = page_text (blocks p)) d
  ∧ length d = length (page_blocks (rs ≫= Blocks)).
Proof.
  unfold Document. destruct (parseDocumentPages rs) as [e|dps] eqn:Hp; [done|].
  intros [= <-]. destruct (parseDocumentPages_spec _ _ Hp) as (Hcat & Hshape & Hn).
  split_and!.
  - rewrite <- Hcat. clear. induction dps as [|p dps IH]; simpl; [done|].
    by rewrite <- IH.
  - apply Forall_fmap. eapply Forall_impl; [exact Hshape|]. by intros p Hp'.
  - by rewrite length_fmap.
Qed.

Lemma Document_ok rs :
  (∀ b, head (rs ≫= Blocks) = Some b → BlockType b = "PAGE") →
  ∃ d, Document rs = inr d.
Proof.
  intros H. destruct (parseDocumentPages_ok rs H) as [dps Hdps].
  unfold Document. rewrite Hdps. eauto.
Qed.

End trp_facts.

(** ** The output cell *)

Lemma page_loop_spec {Svc} (BOLD END : string) (dp : list trp.Page) :
  ∀ (w : World Svc) i pg,
  foldl (page_turn BOLD END) (w, i, pg) dp
  = (mkWorld (textract w)
       (trace w ++ (Print ∘ page_line BOLD END
                      <$> zip (seq i (length dp)) (trp.text <$> dp)))
       (response w) (status w) (pages w) (nextToken w),
     i + length dp,
     from_option Some pg (last dp)).
Proof.
  induction dp as [|p dp IH]; intros w i pg; simpl.
  - rewrite app_nil_r, Nat.add_0_r. by destruct w.
  - rewrite IH. simpl. rewrite <- app_assoc, last_cons. simpl.
    replace (i + 1) with (S i) by lia.
    replace (S i + length dp) with (i + S (length dp)) by lia.
    by destruct (last dp).
Qed.

Lemma print_only_requests {A} (f : A → string) (xs : list A) :
  page_requests (Print ∘ f <$> xs) = [] ∧ sleeps (Print ∘ f <$> xs) = [].
Proof. induction xs as [|x xs [IH1 IH2]]; [done|]. by simpl. Qed.

(** Printed lines add no request and no pause to a trace. *)
Lemma printed_trace {A} (tr : list event) (l : string) (f : A → string) xs :
  page_requests (tr ++ Print l :: (Print ∘ f <$> xs)) = page_requests tr
  ∧ sleeps (tr ++ Print l :: (Print ∘ f <$> xs)) = sleeps tr.
Proof.
  assert (page_requests (Print l :: (Print ∘ f <$> xs)) = []) as Hreq.
  { exact (proj1 (print_only_requests f xs)). }
  assert (sleeps (Print l :: (Print ∘ f <$> xs)) = []) as Hsl.
  { exact (proj2 (print_only_requests f xs)). }
  unfold page_requests, sleeps in *. rewrite !omap_app.
  by rewrite Hreq, Hsl, !app_nil_r.
Qed.

Lemma enumerate_pages_length d : length (enumerate_pages d) = length d.
Proof.
  unfold enumerate_pages. rewrite length_zip_with, length_seq, length_fmap. lia.
Qed.

Lemma output_cell_done {Svc} (BOLD END : string) (d : DocWorld Svc) ps dp :
  pages (world d) = Some ps → trp.Document ps = inr dp →
  output_cell BOLD END d
  = (Done,
     mkDocWorld
       (mkWorld (textract (world d))
          (trace (world d)
           ++ Print ("Total length of document is " +:+ pretty (length dp))
              :: (Print ∘ page_line BOLD END <$> enumerate_pages dp))
          (response (world d)) (status (world d)) (pages (world d))
          (nextToken (world d)))
       (Some dp) (Some (1 + length dp))
       (from_option Some (page d) (last dp))).
Proof.
  intros Hpg Hdoc. unfold output_cell. rewrite Hpg, Hdoc.
  rewrite page_loop_spec. simpl. rewrite <- app_assoc, <- Hpg. reflexivity.
Qed.

(** ** The chunking loop *)

Lemma ceil_div_0 b : 0 < b → ceil_div 0 b = 0.
Proof. intros Hb. unfold ceil_div. apply Nat.div_small. lia. Qed.

Lemma ceil_div_step a b : 0 < b → 0 < a → ceil_div a b = S (ceil_div (a - b) b).
Proof.
  intros Hb Ha. unfold ceil_div. destruct (decide (b ≤ a)) as [Hle|Hlt].
  - replace (a + b - 1) with ((a - b + b - 1) + 1 * b) by lia.
    rewrite Nat.div_add by lia. lia.
  - replace (a - b) with 0 by lia. rewrite (Nat.div_small (0 + b - 1)) by lia.
    symmetry. apply (Nat.div_unique _ _ _ (a - 1)); lia.
Qed.

(** [ceil_div a b] is the least number of windows of width [b] that cover
    [a] positions. *)
Lemma ceil_div_least a b k : 0 < b → a ≤ k * b ↔ ceil_div a b ≤ k.
Proof.
  intros Hb. unfold ceil_div. split; intros H.
  - apply Nat.lt_succ_r, Nat.Div0.div_lt_upper_bound. lia.
  - pose proof (Nat.div_mod_eq (a + b - 1) b) as Hdm.
    pose proof (Nat.mod_upper_bound (a + b - 1) b ltac:(lia)) as Hm.
    nia.
Qed.

Section ChunkFacts.
Variable M : nat.
Hypothesis M_pos : 0 < M.

(** The loop index takes [ceil_div (stop - i) M] values from [i] on, and
    the windows at these indices tile the text from [i] on. *)
Lemma py_range_from_spec (l : list Ascii.ascii) fuel : ∀ i,
  length l - i ≤ fuel →
  length (py_range_from fuel i (length l) M) = ceil_div (length l - i) M
  ∧ concat ((λ j, take M (drop j l)) <$> py_range_from fuel i (length l) M)
    = drop i l.
Proof.
  induction fuel as [|fuel IH]; intros i Hfuel; cbn [py_range_from].
  - replace (length l - i) with 0 by lia. rewrite ceil_div_0 by done.
    by rewrite drop_ge by lia.
  - destruct (Nat.ltb_spec i (length l)) as [Hlt|Hge].
    + destruct (IH (i + M) ltac:(lia)) as [Hlen Hcat].
      rewrite fmap_cons. cbn [concat length].
      rewrite Hlen, Hcat. split.
      * rewrite (ceil_div_step (length l - i)) by lia. do 2 f_equal. lia.
      * rewrite <- drop_drop. apply take_drop.
    + replace (length l - i) with 0 by lia. rewrite ceil_div_0 by done.
      by rewrite drop_ge by lia.
Qed.

Lemma chunks_by_chars (pageText : string) :
  chars <$> chunks_by M pageText
  = (λ j, take M (drop j (chars pageText)))
      <$> py_range_from (String.length pageText) 0 (String.length pageText) M.
Proof.
  unfold chunks_by, py_range, py_slice. rewrite Nat.sub_0_r.
  rewrite <- list_fmap_compose. apply list_fmap_ext. intros _ j _. simpl.
  rewrite chars_substring. do 2 f_equal. lia.
Qed.

Lemma chunks_by_spec (pageText : string) :
  length (chunks_by M pageText) = ceil_div (String.length pageText) M
  ∧ Forall (λ c, String.length c ≤ M) (chunks_by M pageText)
  ∧ fold_right String.append EmptyString (chunks_by M pageText) = pageText.
Proof.
  destruct (py_range_from_spec (chars pageText) (String.length pageText) 0)
    as [Hlen Hcat]; [rewrite chars_length; lia|].
  rewrite chars_length, Nat.sub_0_r in *.
  split_and!.
  - unfold chunks_by, py_range. by rewrite length_fmap, Nat.sub_0_r.
  - apply Forall_forall. intros c Hc.
    apply (list_elem_of_fmap_2 chars) in Hc. rewrite chunks_by_chars in Hc.
    apply list_elem_of_fmap in Hc as (j & Hj & _).
    rewrite <- chars_length, Hj, length_take. lia.
  - apply chars_inj. by rewrite chars_concat, chunks_by_chars.
Qed.

(** The windows are laid side by side: the [k]-th one starts at [k * M]. *)
Lemma py_range_from_lookup fuel : ∀ i stop k j,
  py_range_from fuel i stop M !! k = Some j → j = i + k * M.
Proof.
  induction fuel as [|fuel IH]; intros i stop k j; cbn [py_range_from]; [done|].
  destruct (i <? stop); [|done]. destruct k as [|k]; simpl.
  - intros [= <-]. lia.
  - intros Hk. apply IH in Hk. lia.
Qed.

Lemma chunks_by_lookup (pageText : string) k c :
  chunks_by M pageText !! k = Some c →
  c = String.substring (k * M) M pageText.
Proof.
  unfold chunks_by, py_range, py_slice. rewrite list_lookup_fmap.
  destruct (py_range_from _ _ _ _ !! k) as [j|] eqn:Hj; [|done].
  apply py_range_from_lookup in Hj. simpl. intros [= <-]. subst j.
  f_equal; lia.
Qed.

End ChunkFacts.

(** ** The split indices *)

Module b64_facts.
Import b64.
Local Open Scope Z_scope.

(** An integer below [2^53] is a double. *)
Lemma round_exact p e : 0 ≤ p < 2 ^ 53 → round p e = (p, e).
Proof.
  intros Hp. unfold round.
  assert (Z.log2 p + 1 ≤ 53) as Hk.
  { destruct (decide (p = 0)) as [->|Hne]; [done|].
    assert (Z.log2 p < 53); [|lia]. apply Z.log2_lt_pow2; lia. }
  by rewrite (proj2 (Z.leb_le _ _) Hk).
Qed.

(** Rounding does not carry into the integer part when the fraction of
    [p / 2^53] stays clear of 1. *)
Lemma to_int_round p :
  0 ≤ p < 2 ^ 101 → p mod 2 ^ 53 + 2 ^ 48 < 2 ^ 53 →
  to_int (round p (-53)) = p / 2 ^ 53.
Proof.
  intros Hp Hfrac. unfold round.
  destruct (Z.leb_spec (Z.log2 p + 1) 53) as [Hk|Hk]; [done|].
  set (s := Z.log2 p + 1 - 53).
  assert (1 ≤ s ≤ 48) as Hs.
  { subst s. split; [lia|]. assert (Z.log2 p < 101); [|lia].
    apply Z.log2_lt_pow2; [|lia]. destruct (decide (p = 0)) as [->|]; [done|lia]. }
  set (P := 2 ^ s). set (Q := 2 ^ (53 - s)).
  assert (0 < P ≤ 2 ^ 48) as HP.
  { subst P. split; [apply Z.pow_pos_nonneg; lia|].
    apply Z.pow_le_mono_r; lia. }
  assert (0 < Q) as HQ by (subst Q; apply Z.pow_pos_nonneg; lia).
  assert (P * Q = 2 ^ 53) as HPQ.
  { subst P Q. rewrite <- Z.pow_add_r by lia. f_equal. lia. }
  set (a := p / 2 ^ 53).
  pose proof (Z.div_mod p (2 ^ 53) ltac:(lia)) as Hdm. fold a in Hdm.
  pose proof (Z.mod_pos_bound p (2 ^ 53) ltac:(lia)) as Hpm.
  pose proof (Z.div_mod p P ltac:(lia)) as Hq.
  pose proof (Z.mod_pos_bound p P ltac:(lia)) as Hr.
  set (q := p / P) in *. set (r := p mod P) in *.
  set (pm := p mod 2 ^ 53) in *.
  rewrite <- HPQ in Hdm, Hpm, Hfrac.
  assert (∀ q', to_int (q', -53 + s) = q' / Q) as Hto.
  { intros q'. unfold to_int. simpl fst. simpl snd.
    destruct (Z.leb_spec 0 (-53 + s)); [lia|].
    by replace (- (-53 + s)) with (53 - s) by lia. }
  clearbody P Q a q r pm.
  assert (a * Q ≤ q) as Hlo.
  { apply Z.lt_succ_r, (Z.mul_lt_mono_pos_l P); [lia|].
    clear - Hdm Hq Hr Hpm. lia. }
  assert (q + 1 < (a + 1) * Q) as Hhi.
  { apply (Z.mul_lt_mono_pos_l P); [lia|].
    clear - Hdm Hq Hr Hfrac HP. lia. }
  assert (∀ q', q ≤ q' ≤ q + 1 → q' / Q = a) as Hdiv.
  { intros q' Hq'. symmetry.
    apply (Z.div_unique_pos _ _ _ (q' - a * Q)); lia. }
  destruct (_ || _); rewrite Hto; apply Hdiv; lia.
Qed.

(** Below [2^48], [int(n * 0.8)] is the floor of four fifths of [n]. *)
Lemma int_mul_0_8 n :
  0 ≤ n < 2 ^ 48 → to_int (mul (of_int n) lit_0_8) = 4 * n / 5.
Proof.
  intros Hn. unfold of_int, mul, lit_0_8.
  rewrite (round_exact n 0) by lia. simpl fst. simpl snd.
  set (M := 7205759403792794). set (p := n * M).
  set (a := 4 * n / 5).
  pose proof (Z.div_mod (4 * n) 5 ltac:(lia)) as Hdm. fold a in Hdm.
  pose proof (Z.mod_pos_bound (4 * n) 5 ltac:(lia)) as Hr.
  assert (5 * M = 2 ^ 55 + 2) as HM by done.
  assert (p = a * 2 ^ 53 + (p - a * 2 ^ 53)) as Hp by lia.
  assert (0 ≤ p - a * 2 ^ 53 ∧ (p - a * 2 ^ 53) + 2 ^ 48 < 2 ^ 53) as Hpm.
  { subst p. nia. }
  assert (p / 2 ^ 53 = a ∧ p mod 2 ^ 53 = p - a * 2 ^ 53) as [Hdiv Hmod].
  { split; symmetry;
      [apply (Z.div_unique_pos p (2 ^ 53) a (p - a * 2 ^ 53))
      |apply (Z.mod_unique_pos p (2 ^ 53) a (p - a * 2 ^ 53))]; lia. }
  rewrite to_int_round; [exact Hdiv| |rewrite Hmod; lia].
  split; [lia|]. clear - Hn. subst p M. nia.
Qed.

(** Below [2^48], [int(n * 0.9)] is the floor of nine tenths of [n]. *)
Lemma int_mul_0_9 n :
  0 ≤ n < 2 ^ 48 → to_int (mul (of_int n) lit_0_9) = 9 * n / 10.
Proof.
  intros Hn. unfold of_int, mul, lit_0_9.
  rewrite (round_exact n 0) by lia. simpl fst. simpl snd.
  set (M := 8106479329266893). set (p := n * M).
  set (a := 9 * n / 10).
  pose proof (Z.div_mod (9 * n) 10 ltac:(lia)) as Hdm. fold a in Hdm.
  pose proof (Z.mod_pos_bound (9 * n) 10 ltac:(lia)) as Hr.
  assert (10 * M = 9 * 2 ^ 53 + 2) as HM by done.
  assert (p = a * 2 ^ 53 + (p - a * 2 ^ 53)) as Hp by lia.
  assert (0 ≤ p - a * 2 ^ 53 ∧ (p - a * 2 ^ 53) + 2 ^ 48 < 2 ^ 53) as Hpm.
  { subst p. nia. }
  assert (p / 2 ^ 53 = a ∧ p mod 2 ^ 53 = p - a * 2 ^ 53) as [Hdiv Hmod].
  { split; symmetry;
      [apply (Z.div_unique_pos p (2 ^ 53) a (p - a * 2 ^ 53))
      |apply (Z.mod_unique_pos p (2 ^ 53) a (p - a * 2 ^ 53))]; lia. }
  rewrite to_int_round; [exact Hdiv| |rewrite Hmod; lia].
  split; [lia|]. clear - Hn. subst p M. nia.
Qed.

End b64_facts.

Lemma first_80_floor n :
  (Z.of_nat n < 2 ^ 48)%Z → first_80 n = 4 * n / 5.
Proof.
  intros Hn. unfold first_80. rewrite b64_facts.int_mul_0_8 by lia.
  apply Nat2Z.inj. rewrite Z2Nat.id by (apply Z.div_pos; lia).
  by rewrite Nat2Z.inj_div, Nat2Z.inj_mul.
Qed.

Lemma next_10_floor n :
  (Z.of_nat n < 2 ^ 48)%Z → next_10 n = 9 * n / 10.
Proof.
  intros Hn. unfold next_10. rewrite b64_facts.int_mul_0_9 by lia.
  apply Nat2Z.inj. rewrite Z2Nat.id by (apply Z.div_pos; lia).
  by rewrite Nat2Z.inj_div, Nat2Z.inj_mul.
Qed.

Lemma floor_indices_ordered n : 4 * n / 5 ≤ 9 * n / 10 ∧ 9 * n / 10 ≤ n.
Proof.
  pose proof (Nat.div_mod_eq (4 * n) 5). pose proof (Nat.div_mod_eq (9 * n) 10).
  pose proof (Nat.mod_upper_bound (4 * n) 5). pose proof (Nat.mod_upper_bound (9 * n) 10).
  lia.
Qed.

(** ** [np.split] at two indices *)

Lemma np_split_two {A} (ary : list A) i j :
  i ≤ j → j ≤ length ary →
  ∃ a b c,
    np_split ary [i; j] = [a; b; c]
    ∧ a ++ b ++ c = ary
    ∧ length a = i ∧ length b = j - i ∧ length c = length ary - j.
Proof.
  intros Hij Hj.
  exists (slice ary 0 i), (slice ary i j), (slice ary j (length ary)).
  split; [done|]. unfold slice. rewrite Nat.sub_0_r, drop_0.
  rewrite (take_ge (drop j ary)) by (rewrite length_drop; lia).
  split_and!.
  - rewrite <- (take_drop i ary) at 4. f_equal.
    rewrite <- (take_drop (j - i) (drop i ary)) at 2. f_equal.
    rewrite drop_drop. f_equal. lia.
  - rewrite length_take. lia.
  - rewrite length_take, length_drop. lia.
  - by rewrite length_drop.
Qed.

(** Pieces of a list without repetition share no element. *)
Lemma NoDup_three {A} (a b c : list A) :
  NoDup (a ++ b ++ c) →
  (∀ x, x ∈ a → x ∉ b) ∧ (∀ x, x ∈ a → x ∉ c) ∧ (∀ x, x ∈ b → x ∉ c).
Proof.
  intros (_ & Ha & (_ & Hb & _)%NoDup_app)%NoDup_app.
  split_and!; intros x Hx Hx'.
  - apply (Ha x Hx). apply elem_of_app. by left.
  - apply (Ha x Hx). apply elem_of_app. by right.
  - by apply (Hb x Hx).
Qed.

Section SplitFacts.
Context {Anno : Type}.
Variable shuffle : list Z → list Z.
Hypothesis shuffle_perm : ∀ l, shuffle l ≡ₚ l.

Lemma image_ids_perm (sample_annos : gmap Z Anno) :
  image_ids shuffle sample_annos ≡ₚ elements (dom sample_annos).
Proof.
  unfold image_ids, sorted_keys. by rewrite shuffle_perm, merge_sort_Permutation.
Qed.

Lemma image_ids_NoDup (sample_annos : gmap Z Anno) :
  NoDup (image_ids shuffle sample_annos).
Proof. rewrite image_ids_perm. apply NoDup_elements. Qed.

Lemma image_ids_length (sample_annos : gmap Z Anno) :
  length (image_ids shuffle sample_annos) = size sample_annos.
Proof. rewrite image_ids_perm. by rewrite <- size_dom. Qed.

End SplitFacts.


(** * The status-poll loop, as the cell runs it *)

(** C9.  The status-poll loop treats every status other than
    ["IN_PROGRESS"] as terminal and raises nothing for it.  Let the service
    answer the successive status requests with ["IN_PROGRESS"] responses
    [ips] and then with a response [r] of any other status (["SUCCEEDED"],
    ["FAILED"] or a value nobody knows).  With a budget that covers the
    turns, the cell ends normally: it has slept 5 seconds and sent one
    request before the loop, it has slept 5 seconds, sent one request and
    printed the status once per ["IN_PROGRESS"] response and once for [r],
    [status] holds the status of [r], and the service is where [r] left it.
    The NextToken cell run afterwards does the same whatever that status is,
    and leaves it in place.  It does collect: whatever the status, it
    sleeps 5 seconds and sends the request without token; the response the
    service gives to that request becomes the first page; and when the
    service answers along a chain of responses that the budget covers, the
    cell ends normally with exactly these responses in [pages]. *)
Theorem C9_poll_loop_ends_on_any_other_status
    {Svc : Type}
    (get_document_analysis : string → option string → Svc → (exn + Response) * Svc)
    (textractJobId : string) (w : World Svc)
    (ips : list Response) (r : Response) (s' : Svc) (fuel : nat) :
  polled get_document_analysis textractJobId (textract w) (ips ++ [r]) s' →
  Forall (λ x, JobStatus x = "IN_PROGRESS") ips →
  JobStatus r ≠ "IN_PROGRESS" →
  length ips ≤ fuel →
  let w' := mkWorld s' (trace w ++ await_events textractJobId (ips ++ [r]))
                    (Some r) (Some (JobStatus r)) (pages w) (nextToken w) in
  awaitCompletion get_document_analysis textractJobId fuel w = (Done, w')
  ∧ (∀ fuel2 st,
       collectPages get_document_analysis textractJobId fuel2 w'
       = ((collectPages get_document_analysis textractJobId fuel2
             (with_status st w')).1,
          with_status (Some (JobStatus r))
            (collectPages get_document_analysis textractJobId fuel2
               (with_status st w')).2))
  ∧ (∀ fuel2, ∃ evs,
       trace (collectPages get_document_analysis textractJobId fuel2 w').2
       = trace w' ++ Sleep 5 :: GetDocumentAnalysis textractJobId None :: evs)
  ∧ (∀ fuel2 r1 s1,
       get_document_analysis textractJobId None s' = (inr r1, s1) →
       ∃ rest,
         pages (collectPages get_document_analysis textractJobId fuel2 w').2
         = Some (r1 :: rest))
  ∧ (∀ fuel2 rs s'',
       chain get_document_analysis textractJobId s' None rs s'' →
       length rs ≤ S fuel2 →
       (collectPages get_document_analysis textractJobId fuel2 w').1 = Done
       ∧ pages (collectPages get_document_analysis textractJobId fuel2 w').2
         = Some rs
       ∧ status (collectPages get_document_analysis textractJobId fuel2 w').2
         = Some (JobStatus r)).
Proof.
  intros Hp Hall Hr Hfuel w'. split; [|split; [|split; [|split]]].
  - by apply awaitCompletion_done.
  - intros fuel2 st.
    change w' with (with_status (Some (JobStatus r)) (with_status st w')) at 1.
    apply collectPages_status.
  - intros fuel2. subst w'. unfold collectPages, call; simpl.
    destruct (get_document_analysis textractJobId None s') as [[e|r1] s1];
      simpl.
    + exists []. by rewrite <- !app_assoc.
    + match goal with |- context [token_loop _ _ fuel2 ?w1] =>
        destruct (token_loop_chain get_document_analysis textractJobId fuel2
                    w1 [] r1) as (rs' & evs & Htr & _); [done..|]
      end.
      exists evs. cbv zeta in Htr. rewrite Htr. simpl.
      by rewrite <- !app_assoc.
  - intros fuel2 r1 s1 Hcall. subst w'. unfold collectPages, call; simpl.
    rewrite Hcall.
    match goal with |- context [token_loop _ _ fuel2 ?w1] =>
      destruct (token_loop_chain get_document_analysis textractJobId fuel2
                  w1 [] r1) as (rs' & evs & _ & Hpg & _); [done..|]
    end.
    by exists rs'.
  - intros fuel2 rs s'' Hchain Hlen.
    destruct (collectPages_total get_document_analysis textractJobId rs w' s''
                fuel2 Hchain Hlen) as (Ho & Hpg & _).
    split; [done|]. split; [done|].
    destruct (collectPages_chain get_document_analysis textractJobId fuel2 w')
      as (rs2 & evs & _ & _ & Hst & _).
    exact Hst.
Qed.

Lemma C9_witness_bogus_status :
  polled (status_script_service ["IN_PROGRESS"; "BOGUS"]) "job" 0
    ([mkResponse "IN_PROGRESS" None None []] ++ [mkResponse "BOGUS" None None []]) 2
  ∧ Forall (λ x, JobStatus x = "IN_PROGRESS") [mkResponse "IN_PROGRESS" None None []]
  ∧ "BOGUS" ≠ "IN_PROGRESS"
  ∧ 1 ≤ 1
  ∧ awaitCompletion (status_script_service ["IN_PROGRESS"; "BOGUS"]) "job" 1 world0
    = (Done,
       mkWorld 2
         [Sleep 5; GetDocumentAnalysis "job" None;
          Sleep 5; GetDocumentAnalysis "job" None;
          Print "Textract Job status: BOGUS"]
         (Some (mkResponse "BOGUS" None None [])) (Some "BOGUS") None None).
Proof.
  assert (polled (status_script_service ["IN_PROGRESS"; "BOGUS"]) "job" 0
            ([mkResponse "IN_PROGRESS" None None []]
             ++ [mkResponse "BOGUS" None None []]) 2) as Hp.
  { repeat (econstructor; [reflexivity|]). constructor. }
  assert (Forall (λ x, JobStatus x = "IN_PROGRESS")
            [mkResponse "IN_PROGRESS" None None []]) as Hall.
  { by repeat constructor. }
  split_and!; [exact Hp|exact Hall|done|lia|].
  exact (proj1 (C9_poll_loop_ends_on_any_other_status
                  (status_script_service ["IN_PROGRESS"; "BOGUS"]) "job" world0
                  [mkResponse "IN_PROGRESS" None None []]
                  (mkResponse "BOGUS" None None []) 2 1
                  Hp Hall ltac:(done) ltac:(simpl; lia))).
Defined.

(** C6, as the cell has it.  The loop has no notion of a protocol error.  It
    stops at the first polled status that is not ["IN_PROGRESS"], whatever
    that status is, and takes it for the end of the job: the cell ends
    normally with that value in [status], having sent one request per
    response and none after it, so it cannot see what the service would
    answer next. *)
Theorem C6_first_other_status_is_completion
    {Svc : Type}
    (get_document_analysis : string → option string → Svc → (exn + Response) * Svc)
    (textractJobId : string) (w : World Svc)
    (ips : list Response) (r : Response) (s' : Svc) (fuel : nat) :
  polled get_document_analysis textractJobId (textract w) (ips ++ [r]) s' →
  Forall (λ x, JobStatus x = "IN_PROGRESS") ips →
  JobStatus r ≠ "IN_PROGRESS" →
  length ips ≤ fuel →
  let run := awaitCompletion get_document_analysis textractJobId fuel w in
  run.1 = Done
  ∧ (∀ what, run.1 ≠ Raised (ProtocolError what))
  ∧ status run.2 = Some (JobStatus r)
  ∧ textract run.2 = s'
  ∧ page_requests (trace run.2)
    = page_requests (trace w) ++ replicate (S (length ips)) None.
Proof.
  intros Hp Hall Hr Hfuel run. subst run.
  rewrite (awaitCompletion_done _ _ ips r w s' fuel Hp Hall Hr Hfuel). simpl.
  split_and!; try done.
  unfold page_requests. rewrite omap_app. f_equal.
  clear. destruct ips as [|r0 ips]; [done|]. simpl. f_equal.
  induction (ips ++ [r]) as [|x l IH] eqn:Hl in ips |- *.
  - by destruct ips.
  - assert (length ips = length l) as ->.
    { apply (f_equal length) in Hl. rewrite length_app in Hl. simpl in Hl. lia. }
    clear. induction l as [|y l IH]; [done|]. simpl. f_equal. exact IH.
Qed.

Lemma C6_witness_unknown_status :
  polled (status_script_service ["IN_PROGRESS"; "BOGUS"]) "job" 0
    ([mkResponse "IN_PROGRESS" None None []] ++ [mkResponse "BOGUS" None None []]) 2
  ∧ Forall (λ x, JobStatus x = "IN_PROGRESS") [mkResponse "IN_PROGRESS" None None []]
  ∧ "BOGUS" ≠ "IN_PROGRESS"
  ∧ 1 ≤ 1
  ∧ (awaitCompletion (status_script_service ["IN_PROGRESS"; "BOGUS"]) "job" 1
       world0).1 = Done.
Proof.
  assert (polled (status_script_service ["IN_PROGRESS"; "BOGUS"]) "job" 0
            ([mkResponse "IN_PROGRESS" None None []]
             ++ [mkResponse "BOGUS" None None []]) 2) as Hp.
  { repeat (econstructor; [reflexivity|]). constructor. }
  assert (Forall (λ x, JobStatus x = "IN_PROGRESS")
            [mkResponse "IN_PROGRESS" None None []]) as Hall.
  { by repeat constructor. }
  split_and!; [exact Hp|exact Hall|done|lia|].
  exact (proj1 (C6_first_other_status_is_completion
                  (status_script_service ["IN_PROGRESS"; "BOGUS"]) "job" world0
                  [mkResponse "IN_PROGRESS" None None []]
                  (mkResponse "BOGUS" None None []) 2 1
                  Hp Hall ltac:(done) ltac:(simpl; lia))).
Defined.

(** C6 fails on the cell.  A service that reports ["IN_PROGRESS"] and then a
    status nobody knows: the cell ends normally with that status.  A service
    that reports ["SUCCEEDED"] and then ["IN_PROGRESS"]: the cell ends at
    ["SUCCEEDED"], and the NextToken cell, whose request is answered with
    ["IN_PROGRESS"], ends normally too.  No [ProtocolError] in either run. *)
Lemma C6_counterexample_no_protocol_error :
  (let run := awaitCompletion (status_script_service ["IN_PROGRESS"; "BOGUS"])
                "job" 5 world0 in
   run.1 = Done ∧ status run.2 = Some "BOGUS"
   ∧ run.1 ≠ Raised (ProtocolError "BOGUS"))
  ∧ (let svc := status_script_service ["SUCCEEDED"; "IN_PROGRESS"] in
     let run := awaitCompletion svc "job" 5 world0 in
     let run2 := collectPages svc "job" 5 run.2 in
     run.1 = Done ∧ status run.2 = Some "SUCCEEDED"
     ∧ run2.1 = Done
     ∧ JobStatus <$> response run2.2 = Some "IN_PROGRESS"
     ∧ run2.1 ≠ Raised (ProtocolError "IN_PROGRESS")).
Proof. by vm_compute. Qed.

(** C3, as the cell has it.  When a status poll is answered ["FAILED"] the
    cell raises nothing: it ends normally right after that poll with
    [status = "FAILED"]; the reason the service reports stays, unread, in
    [response]. *)
Theorem C3_failed_status_ends_the_loop_normally
    {Svc : Type}
    (get_document_analysis : string → option string → Svc → (exn + Response) * Svc)
    (textractJobId : string) (w : World Svc)
    (ips : list Response) (r : Response) (s' : Svc) (fuel : nat) :
  polled get_document_analysis textractJobId (textract w) (ips ++ [r]) s' →
  Forall (λ x, JobStatus x = "IN_PROGRESS") ips →
  JobStatus r = "FAILED" →
  length ips ≤ fuel →
  let run := awaitCompletion get_document_analysis textractJobId fuel w in
  run.1 = Done
  ∧ (∀ reason, run.1 ≠ Raised (JobFailedError reason))
  ∧ status run.2 = Some "FAILED"
  ∧ response run.2 = Some r.
Proof.
  intros Hp Hall Hr Hfuel run. subst run.
  rewrite (awaitCompletion_done _ _ ips r w s' fuel Hp Hall) by (by rewrite ?Hr).
  simpl. by rewrite Hr.
Qed.

Lemma C3_witness_invalid_document :
  polled failed_service "job" 0 ([] ++ [failed_response]) 1
  ∧ Forall (λ x, JobStatus x = "IN_PROGRESS") []
  ∧ JobStatus failed_response = "FAILED"
  ∧ 0 ≤ 0
  ∧ (awaitCompletion failed_service "job" 0 world0).1 = Done
  ∧ response (awaitCompletion failed_service "job" 0 world0).2
    = Some (mkResponse "FAILED" (Some "INVALID_DOCUMENT") None []).
Proof.
  assert (polled failed_service "job" 0 ([] ++ [failed_response]) 1) as Hp.
  { repeat (econstructor; [reflexivity|]). constructor. }
  pose proof (C3_failed_status_ends_the_loop_normally
                failed_service "job" world0 [] failed_response 1 0
                Hp ltac:(constructor) eq_refl ltac:(simpl; lia)) as H.
  split_and!; [exact Hp|constructor|done|lia|apply H|apply H].
Defined.

(** C3 fails on the cell.  The service reports ["FAILED"] with the reason
    ["INVALID_DOCUMENT"]: the cell returns normally. *)
Lemma C3_counterexample_failed_job_returns :
  let run := awaitCompletion failed_service "job" 5 world0 in
  run.1 = Done
  ∧ run.1 ≠ Raised (JobFailedError "INVALID_DOCUMENT")
  ∧ status run.2 = Some "FAILED"
  ∧ (response run.2 ≫= StatusMessage) = Some "INVALID_DOCUMENT".
Proof. by vm_compute. Qed.

(** C4, as the cell has it.  The loop has no bound on the wait.  For a job
    the service never moves out of ["IN_PROGRESS"], whatever the budget of
    turns, the cell is still waiting when the budget is spent: it has raised
    nothing, and it has slept 5 seconds and sent a status request once
    before the loop and once per turn.  Status requests are all it sends. *)
Theorem C4_poll_loop_has_no_timeout
    {Svc : Type}
    (get_document_analysis : string → option string → Svc → (exn + Response) * Svc)
    (textractJobId : string) (w : World Svc) (fuel : nat) :
  always_in_progress get_document_analysis textractJobId →
  let run := awaitCompletion get_document_analysis textractJobId fuel w in
  run.1 = Running
  ∧ run.1 ≠ Raised TimeoutError
  ∧ page_requests (trace run.2)
    = page_requests (trace w) ++ replicate (S fuel) None
  ∧ sleeps (trace run.2) = sleeps (trace w) ++ replicate (S fuel) 5.
Proof.
  intros Hsvc run. subst run. unfold awaitCompletion, call. simpl.
  destruct (Hsvc (textract w)) as (r & s' & Hcall & Hr). rewrite Hcall.
  edestruct (status_loop_running get_document_analysis textractJobId fuel)
    as (w' & -> & Hreq & Hsl & _); [exact Hsvc| |].
  2:{ simpl. rewrite Hreq, Hsl. simpl. unfold page_requests, sleeps.
      rewrite !omap_app. simpl. rewrite !app_nil_r, <- !app_assoc.
      by split_and!. }
  simpl. by rewrite Hr.
Qed.

Lemma C4_witness_never_leaves_in_progress :
  always_in_progress in_progress_service "job"
  ∧ (awaitCompletion in_progress_service "job" 2 world0).1 = Running
  ∧ page_requests (trace (awaitCompletion in_progress_service "job" 2 world0).2)
    = [None; None; None].
Proof.
  assert (always_in_progress in_progress_service "job") as Hsvc.
  { intros s. by eexists _, _. }
  pose proof (C4_poll_loop_has_no_timeout in_progress_service "job" world0 2 Hsvc)
    as H.
  split_and!; [exact Hsvc|apply H|apply H].
Defined.

(** C4 fails on the cell.  The service never leaves ["IN_PROGRESS"]: after
    two turns of the loop the cell has sent three status requests and is
    still waiting, and after ten turns eleven. *)
Lemma C4_counterexample_no_timeout :
  (let run := awaitCompletion in_progress_service "job" 2 world0 in
   run.1 = Running ∧ run.1 ≠ Raised TimeoutError
   ∧ length (page_requests (trace run.2)) = 3)
  ∧ (let run := awaitCompletion in_progress_service "job" 10 world0 in
     run.1 = Running ∧ run.1 ≠ Raised TimeoutError
     ∧ length (page_requests (trace run.2)) = 11).
Proof. by vm_compute. Qed.

(** * The NextToken loop, as the cell runs it *)

(** C2.  The cell follows the chain of continuation tokens.  Let [rs] be the
    chain the service answers with from its current state: the first
    response to a request without token, each next one to a request with the
    token of the one before, the last one without token.  With a budget that
    covers the chain the cell ends normally with [pages] equal to [rs], in
    that order; its requests are, in order, one without token and then one
    with the token of each response but the last, so as many requests as
    responses; and the service is left where the last response left it: no
    request follows the response that omits the token. *)
Theorem C2_collectPages_follows_the_token_chain
    {Svc : Type}
    (get_document_analysis : string → option string → Svc → (exn + Response) * Svc)
    (textractJobId : string) (w : World Svc)
    (rs : list Response) (s' : Svc) (fuel : nat) :
  chain get_document_analysis textractJobId (textract w) None rs s' →
  length rs ≤ S fuel →
  let run := collectPages get_document_analysis textractJobId fuel w in
  run.1 = Done
  ∧ pages run.2 = Some rs
  ∧ textract run.2 = s'
  ∧ ∃ evs, trace run.2 = trace w ++ evs
           ∧ page_requests evs = take (length rs) (None :: (NextToken <$> rs))
           ∧ length (page_requests evs) = length rs.
Proof.
  intros Hch Hfuel run. subst run.
  destruct (collectPages_total _ _ rs w s' fuel Hch Hfuel) as (Ho & Hpg & Hs').
  destruct (collectPages_chain get_document_analysis textractJobId fuel w)
    as (rs0 & evs & Htr & Hpg0 & _ & Hreq & _).
  simpl in Htr, Hpg0, Hreq. rewrite Hpg in Hpg0. simplify_eq.
  rewrite Ho in Hreq. simpl in Hreq. rewrite Nat.add_0_r in Hreq.
  split_and!; [done..|]. exists evs. split_and!; [done..|].
  rewrite Hreq, length_take. simpl. rewrite length_fmap. lia.
Qed.

(** The scenario of the specification: pages ["A"] and ["B"], the first with
    token ["t1"], the second with none.  The cell returns the two pages in
    that order with exactly two requests. *)
Lemma C2_witness_two_pages :
  chain two_page_service "job" 0 None
    [result_page "A" (Some "t1"); result_page "B" None] 2
  ∧ 2 ≤ 2
  ∧ (collectPages two_page_service "job" 1 world0).1 = Done
  ∧ pages (collectPages two_page_service "job" 1 world0).2
    = Some [result_page "A" (Some "t1"); result_page "B" None]
  ∧ textract (collectPages two_page_service "job" 1 world0).2 = 2
  ∧ ∃ evs, trace (collectPages two_page_service "job" 1 world0).2 = [] ++ evs
           ∧ page_requests evs = [None; Some "t1"]
           ∧ length (page_requests evs) = 2.
Proof.
  assert (chain two_page_service "job" 0 None
            [result_page "A" (Some "t1"); result_page "B" None] 2) as Hch.
  { simpl. eexists. split; [reflexivity|]. eexists. by split. }
  split_and!; [exact Hch|lia|..];
    apply (C2_collectPages_follows_the_token_chain
             two_page_service "job" world0 _ 2 1 Hch ltac:(simpl; lia)).
Defined.

(** C1, as the cells have it.  The collected pages are the responses of the
    token chain, in chain order, one per request.  The document built from
    them keeps their blocks in that order and has one page per ["PAGE"]
    block: the sheets of the source document, however the service spread
    them over its responses. *)
Theorem C1_pages_in_chain_order_document_pages_by_sheet
    {Svc : Type}
    (get_document_analysis : string → option string → Svc → (exn + Response) * Svc)
    (textractJobId : string) (w : World Svc)
    (rs : list Response) (s' : Svc) (fuel : nat) :
  chain get_document_analysis textractJobId (textract w) None rs s' →
  length rs ≤ S fuel →
  (∀ b, head (rs ≫= Blocks) = Some b → BlockType b = "PAGE") →
  let run := collectPages get_document_analysis textractJobId fuel w in
  run.1 = Done
  ∧ pages run.2 = Some rs
  ∧ (∃ evs, trace run.2 = trace w ++ evs
            ∧ length (page_requests evs) = length rs)
  ∧ ∃ d, trp.Document rs = inr d
         ∧ d ≫= trp.blocks = rs ≫= Blocks
         ∧ Forall (λ p, page_shaped (trp.blocks p)) d
         ∧ length d = length (page_blocks (rs ≫= Blocks)).
Proof.
  intros Hch Hfuel Hhead run. subst run.
  destruct (collectPages_total _ _ rs w s' fuel Hch Hfuel) as (Ho & Hpg & Hs').
  destruct (collectPages_chain get_document_analysis textractJobId fuel w)
    as (rs0 & evs & Htr & Hpg0 & _ & Hreq & _).
  simpl in Htr, Hpg0, Hreq. rewrite Hpg in Hpg0. simplify_eq.
  rewrite Ho in Hreq. simpl in Hreq. rewrite Nat.add_0_r in Hreq.
  split_and!; [done..| |].
  - exists evs. split; [done|].
    rewrite Hreq, length_take. simpl. rewrite length_fmap. lia.
  - destruct (trp_facts.Document_ok rs0 Hhead) as [d Hd]. exists d.
    destruct (trp_facts.Document_spec rs0 d Hd) as (Hcat & Hall & Hn).
    split_and!; [done..| |done].
    eapply Forall_impl; [exact Hall|]. by intros p [Hp _].
Qed.

Lemma C1_witness_two_pages :
  chain two_page_service "job" 0 None
    [result_page "A" (Some "t1"); result_page "B" None] 2
  ∧ 2 ≤ 2
  ∧ (∀ b, head ([result_page "A" (Some "t1"); result_page "B" None] ≫= Blocks)
          = Some b → BlockType b = "PAGE")
  ∧ pages (collectPages two_page_service "job" 1 world0).2
    = Some [result_page "A" (Some "t1"); result_page "B" None]
  ∧ ∃ d, trp.Document [result_page "A" (Some "t1"); result_page "B" None] = inr d
         ∧ length d = 2.
Proof.
  assert (chain two_page_service "job" 0 None
            [result_page "A" (Some "t1"); result_page "B" None] 2) as Hch.
  { simpl. eexists. split; [reflexivity|]. eexists. by split. }
  assert (∀ b, head ([result_page "A" (Some "t1"); result_page "B" None]
                     ≫= Blocks) = Some b → BlockType b = "PAGE") as Hhead.
  { by intros b [= <-]. }
  pose proof (C1_pages_in_chain_order_document_pages_by_sheet
                two_page_service "job" world0 _ 2 1 Hch ltac:(simpl; lia) Hhead)
    as (_ & Hpg & _ & d & Hd & _ & _ & Hn).
  split_and!; [exact Hch|lia|exact Hhead|exact Hpg|].
  exists d. split; [exact Hd|exact Hn].
Defined.

(** C1 fails on the cells, as in the recorded run of the notebook: the
    service returns the two sheets of the report in one response.  One
    request, one collected response, and a document of two pages. *)
Lemma C1_counterexample_page_count :
  let run := collectPages two_sheet_service "job" 5 world0 in
  run.1 = Done
  ∧ page_requests (trace run.2) = [None]
  ∧ ∃ rs d, pages run.2 = Some rs ∧ trp.Document rs = inr d
            ∧ length rs = 1 ∧ length d = 2 ∧ length d ≠ length rs.
Proof.
  split_and!; [by vm_compute..|].
  eexists _, _. split_and!; [by vm_compute..|by vm_compute].
Qed.

(** C5, as the cell has it.  The cell never looks at the status of the job.
    Run with any other value of [status] it does the same and hands the
    value back; an exception that leaves it is one the service raised on a
    request, so it raises no error of its own.  When it ends normally
    [pages] holds a complete chain in the order of the requests: every
    response but the last carried the token of the next request, and the
    last carried none.  When a request raises, [pages] keeps the responses
    received before that request. *)
Theorem C5_collectPages_never_checks_the_status
    {Svc : Type}
    (get_document_analysis : string → option string → Svc → (exn + Response) * Svc)
    (textractJobId : string) (w : World Svc) (fuel : nat) :
  let run := collectPages get_document_analysis textractJobId fuel w in
  (∀ st, collectPages get_document_analysis textractJobId fuel (with_status st w)
         = (run.1, with_status st run.2))
  ∧ (∀ (P : exn → Prop) e,
       (∀ tok s e' s1, get_document_analysis textractJobId tok s = (inl e', s1)
                       → P e') →
       run.1 = Raised e → P e)
  ∧ (run.1 = Done →
     ∃ rs r evs,
       pages run.2 = Some rs ∧ last rs = Some r
       ∧ truthy (NextToken r) = false
       ∧ trace run.2 = trace w ++ evs
       ∧ page_requests evs = take (length rs) (None :: (NextToken <$> rs))
       ∧ Forall (λ t, truthy t = true) (tail (page_requests evs)))
  ∧ (∀ e, run.1 = Raised e →
     ∃ rs evs,
       pages run.2 = Some rs
       ∧ trace run.2 = trace w ++ evs
       ∧ page_requests evs = None :: (NextToken <$> rs)).
Proof.
  intros run. subst run. split; [|split; [|split]].
  - intros st. apply collectPages_status.
  - intros P e Hsvc. by apply collectPages_raised.
  - intros Ho.
    destruct (collectPages_chain get_document_analysis textractJobId fuel w)
      as (rs & evs & Htr & Hpg & _ & Hreq & Hall & Hd & _).
    simpl in *. destruct (Hd Ho) as (r & Hlast & Hr).
    rewrite Ho in Hreq. simpl in Hreq. rewrite Nat.add_0_r in Hreq.
    by exists rs, r, evs.
  - intros e Ho.
    destruct (collectPages_chain get_document_analysis textractJobId fuel w)
      as (rs & evs & Htr & Hpg & _ & Hreq & _).
    simpl in *. rewrite Ho in Hreq. simpl in Hreq.
    exists rs, evs. split_and!; [done..|].
    rewrite Hreq. replace (length rs + 1) with (S (length rs)) by lia.
    simpl. f_equal. apply take_ge. by rewrite length_fmap.
Qed.

Lemma C5_witness_failed_job :
  let w := (awaitCompletion failed_service "job" 0 world0).2 in
  status w = Some "FAILED"
  ∧ collectPages failed_service "job" 3 (with_status (Some "SUCCEEDED") w)
    = ((collectPages failed_service "job" 3 w).1,
       with_status (Some "SUCCEEDED") (collectPages failed_service "job" 3 w).2).
Proof.
  split; [reflexivity|].
  apply (C5_collectPages_never_checks_the_status failed_service "job").
Defined.

(** C5 fails on the cell.  The job has failed and the status cell has left
    [status = "FAILED"]: the NextToken cell sends its request all the same
    and ends normally with the response of the failed job as its one page.
    And when the second request of a chain fails, the exception leaves the
    cell with the first page in [pages]. *)
Lemma C5_counterexample_collect_on_failed_job :
  (let w := (awaitCompletion failed_service "job" 5 world0).2 in
   let run := collectPages failed_service "job" 5 w in
   status w = Some "FAILED"
   ∧ run.1 = Done
   ∧ run.1 ≠ Raised (InvalidStateError "FAILED")
   ∧ pages run.2 = Some [failed_response]
   ∧ page_requests (trace run.2) = [None; None])
  ∧ (let run := collectPages flaky_service "job" 5 world0 in
     run.1 = Raised (mkExn "ThrottlingException" "Rate exceeded")
     ∧ pages run.2 = Some [result_page "A" (Some "t1")]).
Proof. by vm_compute. Qed.

(** * The output cell, the chunking loop and the split *)

(** C8, as the cell has it.  The cell is a function of [pages] with the
    effects of a notebook cell.  It sends no request and does not sleep, and
    it leaves the service, [pages] and the other globals of the Textract
    cells as they are.  What it prints and binds is fixed by [pages]: the
    length of the document, then one line per pair of [aggregateText], and
    [doc], [idx] and [page].  Run again it ends the same way, binds the same
    values and prints the same lines once more.  The pairs are numbered
    from 1 in the order of the blocks; their texts are those of the pieces
    the ["PAGE"] blocks cut the blocks of the responses into, each the texts
    of the piece's ["LINE"] blocks with a newline after each. *)
Theorem C8_aggregateText_is_a_function_of_pages
    {Svc : Type} (color_BOLD color_END : string) (d : DocWorld Svc) :
  let run := output_cell color_BOLD color_END d in
  (textract (world run.2) = textract (world d)
   ∧ pages (world run.2) = pages (world d)
   ∧ response (world run.2) = response (world d)
   ∧ status (world run.2) = status (world d)
   ∧ nextToken (world run.2) = nextToken (world d)
   ∧ page_requests (trace (world run.2)) = page_requests (trace (world d))
   ∧ sleeps (trace (world run.2)) = sleeps (trace (world d)))
  ∧ (∀ ps pairs,
       pages (world d) = Some ps → aggregateText ps = inr pairs →
       run.1 = Done
       ∧ trace (world run.2)
         = trace (world d)
           ++ Print ("Total length of document is " +:+ pretty (length pairs))
              :: (Print ∘ page_line color_BOLD color_END <$> pairs)
       ∧ (enumerate_pages <$> doc run.2) = Some pairs
       ∧ idx run.2 = Some (1 + length pairs))
  ∧ (let run2 := output_cell color_BOLD color_END run.2 in
     run2.1 = run.1
     ∧ doc run2.2 = doc run.2 ∧ idx run2.2 = idx run.2 ∧ page run2.2 = page run.2
     ∧ ∃ evs, trace (world run.2) = trace (world d) ++ evs
              ∧ trace (world run2.2) = trace (world run.2) ++ evs)
  ∧ (∀ ps pairs,
       aggregateText ps = inr pairs →
       ∃ dps, concat dps = ps ≫= Blocks
              ∧ Forall page_shaped dps
              ∧ pairs
                = zip (seq 1 (length dps))
                    ((λ bs, fold_right String.append EmptyString
                              ((λ b, Text b +:+ trp.newline)
                                 <$> filter (λ b, BlockType b = "LINE") bs))
                       <$> dps)).
Proof.
  intros run. subst run.
  assert (∀ ps pairs, aggregateText ps = inr pairs →
            ∃ dp, trp.Document ps = inr dp ∧ pairs = enumerate_pages dp) as Hagg.
  { intros ps pairs. unfold aggregateText.
    destruct (trp.Document ps) as [e|dp]; [done|]. intros [= <-]. eauto. }
  split; [|split; [|split]].
  - destruct (pages (world d)) as [ps|] eqn:Hpg;
      [destruct (trp.Document ps) as [e|dp] eqn:Hdoc|].
    + unfold output_cell. by rewrite Hpg, Hdoc.
    + rewrite (output_cell_done _ _ d ps dp Hpg Hdoc).
      cbn [fst snd world textract pages response status nextToken trace].
      destruct (printed_trace (trace (world d))
                  ("Total length of document is " +:+ pretty (length dp))
                  (page_line color_BOLD color_END) (enumerate_pages dp))
        as [-> ->].
      done.
    + unfold output_cell. by rewrite Hpg.
  - intros ps pairs Hpg Hps. destruct (Hagg _ _ Hps) as (dp & Hdoc & ->).
    rewrite (output_cell_done _ _ d ps dp Hpg Hdoc). simpl.
    by rewrite enumerate_pages_length.
  - destruct (pages (world d)) as [ps|] eqn:Hpg;
      [destruct (trp.Document ps) as [e|dp] eqn:Hdoc|].
    + assert (output_cell color_BOLD color_END d = (Raised e, d)) as ->.
      { unfold output_cell. by rewrite Hpg, Hdoc. }
      simpl. assert (output_cell color_BOLD color_END d = (Raised e, d)) as ->.
      { unfold output_cell. by rewrite Hpg, Hdoc. }
      split_and!; [done..|]. exists []. by rewrite !app_nil_r.
    + rewrite (output_cell_done _ _ d ps dp Hpg Hdoc). simpl.
      erewrite output_cell_done; [|exact Hpg|exact Hdoc]. simpl.
      split_and!; [done..| |by eexists].
      by destruct (last dp).
    + assert (output_cell color_BOLD color_END d
              = (Raised (mkExn "NameError" "name 'pages' is not defined"), d))
        as Hrun.
      { unfold output_cell. by rewrite Hpg. }
      rewrite Hrun. simpl. rewrite Hrun. simpl.
      split_and!; [done..|]. exists []. by rewrite !app_nil_r.
  - intros ps pairs Hps. destruct (Hagg _ _ Hps) as (dp & Hdoc & ->).
    unfold trp.Document in Hdoc.
    destruct (trp.parseDocumentPages ps) as [e|dps] eqn:Hparse; [done|].
    simplify_eq. destruct (trp_facts.parseDocumentPages_spec _ _ Hparse)
      as (Hcat & Hshape & _).
    exists dps. split_and!; [done..|].
    unfold enumerate_pages. rewrite length_fmap, <- list_fmap_compose.
    f_equal. apply list_fmap_ext. intros _ bs _. simpl.
    apply trp_facts.page_text_lines.
Qed.

Lemma C8_witness_two_sheets :
  let d := mkDocWorld (collectPages two_sheet_service "job" 0 world0).2
                      None None None in
  pages (world d) = Some [two_sheet_response]
  ∧ aggregateText [two_sheet_response]
    = inr [(1, "Discharge Summary" +:+ trp.newline);
           (2, "upper respiratory infection" +:+ trp.newline)]
  ∧ (output_cell EmptyString EmptyString d).1 = Done
  ∧ idx (output_cell EmptyString EmptyString d).2 = Some 3.
Proof.
  assert (aggregateText [two_sheet_response]
          = inr [(1, "Discharge Summary" +:+ trp.newline);
                 (2, "upper respiratory infection" +:+ trp.newline)]) as Hagg.
  { reflexivity. }
  pose proof (proj1 (proj2 (C8_aggregateText_is_a_function_of_pages EmptyString EmptyString
                (mkDocWorld (collectPages two_sheet_service "job" 0 world0).2
                            None None None)))
                _ _ eq_refl Hagg) as H.
  split_and!; [reflexivity|exact Hagg|apply H|apply H].
Defined.

(** C8 fails on the cell: it prints, and it binds [doc], [idx] and [page].
    On one collected page with the line ["A"] it leaves two printed lines
    and [idx = 2] behind. *)
Lemma C8_counterexample_cell_prints_and_binds :
  let d := mkDocWorld
             (mkWorld 0 [] None None (Some [result_page "A" None]) None)
             None None None in
  let run := output_cell EmptyString EmptyString d in
  run.1 = Done
  ∧ run.2 ≠ d
  ∧ trace (world run.2)
    = [Print "Total length of document is 1";
       Print ("Results from page 1: " +:+ trp.newline +:+ " A" +:+ trp.newline)]
  ∧ trace (world d) = []
  ∧ doc d = None ∧ is_Some (doc run.2)
  ∧ idx d = None ∧ idx run.2 = Some 2.
Proof.
  cbv zeta. split_and!; try (by vm_compute).
  vm_compute. by eexists.
Qed.

(** The windows of a text of 8-bit characters: the [k]-th chunk is the
    window that starts at [k * maxLength]; there are [ceil(L / maxLength)]
    chunks, none is longer than [maxLength], and joined in order they give
    the text back. *)
Lemma chunks_windows (pageText : string) :
  Z.of_nat maxLength = 20000%Z
  ∧ length (chunks pageText) = ceil_div (String.length pageText) maxLength
  ∧ (∀ k, String.length pageText ≤ k * maxLength
          ↔ length (chunks pageText) ≤ k)
  ∧ Forall (λ c, String.length c ≤ maxLength) (chunks pageText)
  ∧ (∀ k c, chunks pageText !! k = Some c
            → c = String.substring (k * maxLength) maxLength pageText)
  ∧ fold_right String.append EmptyString (chunks pageText) = pageText.
Proof.
  assert (0 < maxLength) as Hpos by (unfold maxLength; lia).
  destruct (chunks_by_spec maxLength Hpos pageText) as (Hlen & Hmax & Hcat).
  split; [|split; [exact Hlen|split; [|split; [exact Hmax|split; [|exact Hcat]]]]].
  - unfold maxLength. lia.
  - intros k. unfold chunks. rewrite Hlen. by apply ceil_div_least.
  - intros k c. by apply chunks_by_lookup.
Qed.

Section TextChunkFacts.
Variable M : nat.
Hypothesis M_pos : 0 < M.


Lemma text_chunks_by_windows (pageText : pystr) :
  text_chunks_by M pageText
  = (λ j, take M (drop j pageText))
      <$> py_range_from (length pageText) 0 (length pageText) M.
Proof.
  unfold text_chunks_by, py_range, slice. rewrite Nat.sub_0_r.
  apply list_fmap_ext. intros _ j _. f_equal. lia.
Qed.



(** On a text of 8-bit characters the two readings of the loop agree. *)
Lemma code_points_chunks_by (pageText : string) :
  code_points <$> chunks_by M pageText
  = text_chunks_by M (code_points pageText).
Proof.
  transitivity (fmap (λ a, Z.of_N (Ascii.N_of_ascii a))
                  <$> (chars <$> chunks_by M pageText)).
  { by rewrite <- list_fmap_compose. }
  rewrite (chunks_by_chars M M_pos), text_chunks_by_windows. unfold code_points.
  rewrite length_fmap, chars_length, <- list_fmap_compose.
  apply list_fmap_ext. intros _ j _. simpl. by rewrite fmap_take, fmap_drop.
Qed.

End TextChunkFacts.




(** C10.  The split cell partitions the shuffled list of image ids.  The
    ids are the keys of [sample_annos], so no id occurs twice; the shuffle
    with its fixed seed is a function that permutes its argument.  The cell
    yields three pieces that share no id and give the shuffled list back
    when joined in order.  Their sizes are [int(n * 0.8)], [int(n * 0.9) -
    int(n * 0.8)] and [n - int(n * 0.9)], where the two products computed
    in binary64 are the floors of [4 n / 5] and [9 n / 10] for every list
    that fits a machine: [n < 2^48]. *)
Theorem C10_split_is_a_partition
    {Anno : Type} (shuffle : list Z → list Z) (sample_annos : gmap Z Anno) :
  (∀ l, shuffle l ≡ₚ l) →
  (Z.of_nat (size sample_annos) < 2 ^ 48)%Z →
  let ids := image_ids shuffle sample_annos in
  let n := length ids in
  first_80 n = 4 * n / 5
  ∧ next_10 n = 9 * n / 10
  ∧ ∃ train_ids val_ids test_ids,
      split_cell shuffle sample_annos = [train_ids; val_ids; test_ids]
      ∧ train_ids ++ val_ids ++ test_ids = ids
      ∧ (∀ x, x ∈ train_ids → x ∉ val_ids)
      ∧ (∀ x, x ∈ train_ids → x ∉ test_ids)
      ∧ (∀ x, x ∈ val_ids → x ∉ test_ids)
      ∧ length train_ids = 4 * n / 5
      ∧ length val_ids = 9 * n / 10 - 4 * n / 5
      ∧ length test_ids = n - 9 * n / 10.
Proof.
  intros Hperm Hsize ids n.
  assert (n = size sample_annos) as Hn by (by apply image_ids_length).
  assert (first_80 n = 4 * n / 5) as H80 by (apply first_80_floor; lia).
  assert (next_10 n = 9 * n / 10) as H90 by (apply next_10_floor; lia).
  destruct (floor_indices_ordered n) as [Hij Hj].
  split_and!; [exact H80|exact H90|].
  destruct (np_split_two ids (first_80 n) (next_10 n)) as
    (a & b & c & Hsplit & Hcat & Ha & Hb & Hc); [lia|fold n; lia|].
  exists a, b, c.
  destruct (NoDup_three a b c) as (Hab & Hac & Hbc).
  { rewrite Hcat. by apply image_ids_NoDup. }
  split; [exact Hsplit|].
  fold n in Hc. rewrite H80 in Ha, Hb. rewrite H90 in Hb, Hc.
  repeat (split; [assumption|]). exact Hc.
Qed.

Lemma C10_witness_ten_images :
  let sample_annos : gmap Z unit :=
    list_to_map ((λ k, (k, ())) <$> [9; 42; 139; 285; 632; 724; 785; 872; 885; 1000]%Z) in
  (∀ l : list Z, reverse l ≡ₚ l)
  ∧ (Z.of_nat (size sample_annos) < 2 ^ 48)%Z
  ∧ first_80 (length (image_ids reverse sample_annos)) = 8
  ∧ next_10 (length (image_ids reverse sample_annos)) = 9
  ∧ ∃ train_ids val_ids test_ids,
      split_cell reverse sample_annos = [train_ids; val_ids; test_ids]
      ∧ train_ids ++ val_ids ++ test_ids
        = [1000; 885; 872; 785; 724; 632; 285; 139; 42; 9]%Z
      ∧ length train_ids = 8 ∧ length val_ids = 1 ∧ length test_ids = 1.
Proof.
  intros sample_annos.
  assert (Z.of_nat (size sample_annos) < 2 ^ 48)%Z as Hsize by (by vm_compute).
  pose proof (C10_split_is_a_partition reverse sample_annos
                reverse_Permutation Hsize)
    as (H80 & H90 & a & b & c & H & Hcat & _ & _ & _ & Ha & Hb & Hc).
  assert (image_ids reverse sample_annos
          = [1000; 885; 872; 785; 724; 632; 285; 139; 42; 9]%Z) as Hids.
  { by vm_compute. }
  rewrite Hids in *.
  split_and!; [exact reverse_Permutation|exact Hsize|exact H80|exact H90|].
  exists a, b, c. split_and!; [exact H|exact Hcat|exact Ha|exact Hb|exact Hc].
Defined.

(** * More on the Textract cells *)

Lemma turns_app evs1 evs2 : turns evs1 → turns evs2 → turns (evs1 ++ evs2).
Proof. induction 1; simpl; intros; [done|constructor; auto..]. Qed.

Lemma turns_paced evs : turns evs → paced evs.
Proof.
  induction 1 as [|j0 t0 evs _ IH|l evs _ IH]; intros i j t Hi.
  - done.
  - destruct i as [|[|i]]; simplify_eq/=.
    + by exists 0.
    + destruct (IH i j t Hi) as (i' & -> & Hi'). by exists (S (S i')).
  - destruct i as [|i]; simplify_eq/=.
    destruct (IH i j t Hi) as (i' & -> & Hi'). by exists (S i').
Qed.

Lemma turns_sleeps evs :
  turns evs → sleeps evs = replicate (length (page_requests evs)) 5.
Proof. induction 1; simpl; by f_equal. Qed.

Section TextractMore.
Context {Svc : Type}.
Variable get_document_analysis :
  string → option string → Svc → (exn + Response) * Svc.
Variable textractJobId : string.

Local Abbreviation await := (awaitCompletion get_document_analysis textractJobId).
Local Abbreviation poll_loop := (status_loop get_document_analysis textractJobId).
Local Abbreviation collect := (collectPages get_document_analysis textractJobId).
Local Abbreviation page_loop := (token_loop get_document_analysis textractJobId).

Lemma status_loop_inv fuel : ∀ (w : World Svc),
  ∃ evs,
    let run := poll_loop fuel w in
    trace run.2 = trace w ++ evs
    ∧ turns evs
    ∧ Forall (λ t, t = None) (page_requests evs)
    ∧ pages run.2 = pages w
    ∧ nextToken run.2 = nextToken w
    ∧ (status_bound w → status_bound run.2)
    ∧ (run.1 = Done → status run.2 ≠ Some "IN_PROGRESS")
    ∧ (run.1 = Running → status run.2 = Some "IN_PROGRESS").
Proof.
  induction fuel as [|fuel IH]; intros w; simpl; case_bool_decide as Hst.
  - exists []. simpl. rewrite app_nil_r. by split_and!; try constructor.
  - exists []. simpl. rewrite app_nil_r. by split_and!; try constructor.
  - unfold call; simpl.
    destruct (get_document_analysis _ _ _) as [[e|r] s'] eqn:Hcall; simpl.
    + exists [Sleep 5; GetDocumentAnalysis textractJobId None]. simpl.
      rewrite <- app_assoc. split_and!; try done; by repeat constructor.
    + set (w2 := print _ _).
      destruct (IH w2) as (evs & Htr & Hturns & Hreq & Hpg & Htok & Hb & Hd & Hr).
      exists ([Sleep 5; GetDocumentAnalysis textractJobId None;
               Print ("Textract Job status: " +:+ JobStatus r)] ++ evs).
      split_and!.
      * rewrite Htr. subst w2. simpl. by rewrite <- !app_assoc.
      * by repeat constructor.
      * by constructor.
      * rewrite Hpg. by subst w2.
      * rewrite Htok. by subst w2.
      * intros _. apply Hb. exists r. by subst w2.
      * exact Hd.
      * exact Hr.
  - exists []. simpl. rewrite app_nil_r. by split_and!; try constructor.
Qed.

Lemma token_loop_turns fuel : ∀ (w : World Svc),
  ∃ evs, trace (page_loop fuel w).2 = trace w ++ evs ∧ turns evs.
Proof.
  induction fuel as [|fuel IH]; intros w; simpl;
    destruct (truthy (nextToken w)); simpl;
    try (exists []; rewrite app_nil_r; split; [done|constructor]).
  unfold call; simpl.
  destruct (get_document_analysis _ _ _) as [[e|r] s'] eqn:Hcall; simpl.
  - exists [Sleep 5; GetDocumentAnalysis textractJobId (nextToken w)].
    rewrite <- app_assoc. split; [done|by repeat constructor].
  - set (w2 := print _ _).
    destruct (IH w2) as (evs & Htr & Hturns).
    eexists ([Sleep 5; GetDocumentAnalysis textractJobId (nextToken w);
              Print _] ++ evs).
    split; [|by repeat constructor].
    rewrite Htr. subst w2. simpl. by rewrite <- !app_assoc.
Qed.

Lemma token_loop_endless fuel : ∀ (w : World Svc) rs,
  endless_tokens get_document_analysis textractJobId →
  pages w = Some rs → truthy (nextToken w) = true →
  ∃ rs', (page_loop fuel w).1 = Running
         ∧ pages (page_loop fuel w).2 = Some (rs ++ rs')
         ∧ length rs' = fuel
         ∧ page_requests (trace (page_loop fuel w).2)
           = page_requests (trace w)
             ++ take fuel (nextToken w :: (NextToken <$> rs')).
Proof.
  induction fuel as [|fuel IH]; intros w rs Hsvc Hpg Htok; simpl; rewrite Htok.
  - exists []. simpl. by rewrite !app_nil_r.
  - unfold call; simpl.
    destruct (Hsvc (nextToken w) (textract w)) as (r & s' & Hcall & Hr).
    rewrite Hcall, Hpg. simpl. set (w2 := print _ _).
    destruct (IH w2 (rs ++ [r]) Hsvc) as (rs' & Ho & Hpg' & Hlen & Hreq);
      [by subst w2|by subst w2|].
    exists (r :: rs'). rewrite Ho, Hpg', Hreq, <- app_assoc. simpl.
    split_and!; [done..|by rewrite Hlen|].
    subst w2. unfold page_requests. simpl. rewrite !omap_app. simpl.
    by rewrite !app_nil_r, <- app_assoc.
Qed.

Lemma status_loop_stateless answer r0 fuel : ∀ (w : World Svc),
  stateless get_document_analysis textractJobId answer →
  answer None = inr r0 →
  response w = Some r0 →
  response (poll_loop fuel w).2 = Some r0
  ∧ ∀ e, (poll_loop fuel w).1 ≠ Raised e.
Proof.
  induction fuel as [|fuel IH]; intros w Hsvc Hans Hresp; simpl;
    case_bool_decide; try done.
  unfold call; simpl. pose proof (Hsvc None (textract w)) as Hcall.
  rewrite Hans in Hcall.
  destruct (get_document_analysis _ _ _) as [x s'] eqn:Hx.
  simpl in Hcall. subst x. by apply IH.
Qed.

End TextractMore.

(** X1.  Both Textract cells pace their requests: in what either cell adds
    to the trace, whatever the service answers and however the run ends,
    every request comes right after a pause of 5 seconds, so the cell has
    slept 5 seconds once per request it has sent. *)
Theorem X1_every_request_follows_a_pause
    {Svc : Type}
    (get_document_analysis : string → option string → Svc → (exn + Response) * Svc)
    (textractJobId : string) (w : World Svc) (fuel : nat) :
  (∃ evs,
     trace (awaitCompletion get_document_analysis textractJobId fuel w).2
     = trace w ++ evs
     ∧ paced evs
     ∧ sleeps evs = replicate (length (page_requests evs)) 5)
  ∧ (∃ evs,
       trace (collectPages get_document_analysis textractJobId fuel w).2
       = trace w ++ evs
       ∧ paced evs
       ∧ sleeps evs = replicate (length (page_requests evs)) 5).
Proof.
  split.
  - unfold awaitCompletion, call; simpl.
    destruct (get_document_analysis _ _ _) as [[e|r] s'] eqn:Hcall; simpl.
    + exists [Sleep 5; GetDocumentAnalysis textractJobId None].
      rewrite <- app_assoc. split_and!; [done| |done].
      apply turns_paced. by repeat constructor.
    + match goal with |- context [status_loop _ _ fuel ?w1] =>
        destruct (status_loop_inv get_document_analysis textractJobId fuel w1)
          as (evs & Htr & Hturns & _)
      end.
      exists ([Sleep 5; GetDocumentAnalysis textractJobId None] ++ evs).
      assert (turns ([Sleep 5; GetDocumentAnalysis textractJobId None] ++ evs))
        as Hall by (by constructor).
      split_and!; [|by apply turns_paced|by apply turns_sleeps].
      rewrite Htr. simpl. by rewrite <- !app_assoc.
  - unfold collectPages, call; simpl.
    destruct (get_document_analysis _ _ _) as [[e|r] s'] eqn:Hcall; simpl.
    + exists [Sleep 5; GetDocumentAnalysis textractJobId None].
      rewrite <- app_assoc. split_and!; [done| |done].
      apply turns_paced. by repeat constructor.
    + match goal with |- context [token_loop _ _ fuel ?w1] =>
        destruct (token_loop_turns get_document_analysis textractJobId fuel w1)
          as (evs & Htr & Hturns)
      end.
      exists ([Sleep 5; GetDocumentAnalysis textractJobId None] ++ evs).
      assert (turns ([Sleep 5; GetDocumentAnalysis textractJobId None] ++ evs))
        as Hall by (by constructor).
      split_and!; [|by apply turns_paced|by apply turns_sleeps].
      rewrite Htr. simpl. by rewrite <- !app_assoc.
Qed.

(** X2.  What the status cell keeps true for every service and every run.
    It never writes [pages] or [nextToken] and sends requests without token
    only.  When it ends normally, [status] is the ["JobStatus"] of the
    response left in [response] and is not ["IN_PROGRESS"].  An exception
    that leaves it is one the client raised. *)
Theorem X2_status_cell_invariants
    {Svc : Type}
    (get_document_analysis : string → option string → Svc → (exn + Response) * Svc)
    (textractJobId : string) (w : World Svc) (fuel : nat) :
  let run := awaitCompletion get_document_analysis textractJobId fuel w in
  pages run.2 = pages w
  ∧ nextToken run.2 = nextToken w
  ∧ (∃ evs, trace run.2 = trace w ++ evs
            ∧ Forall (λ t, t = None) (page_requests evs))
  ∧ (run.1 = Done →
     ∃ r, response run.2 = Some r ∧ status run.2 = Some (JobStatus r)
          ∧ JobStatus r ≠ "IN_PROGRESS")
  ∧ (∀ (P : exn → Prop) e,
       (∀ tok s e' s1, get_document_analysis textractJobId tok s = (inl e', s1)
                       → P e') →
       run.1 = Raised e → P e).
Proof.
  intros run. subst run. split; [|split; [|split; [|split]]].
  5:{ intros P e Hsvc. by apply awaitCompletion_raised. }
  all: unfold awaitCompletion, call; simpl;
    destruct (get_document_analysis _ _ _) as [[e|r] s'] eqn:Hcall; simpl;
    try done.
  all: try (match goal with |- context [status_loop ?g ?j ?f ?w1] =>
        destruct (status_loop_inv g j f w1)
          as (evs & Htr & Hturns & Hreq & Hpg & Htok & Hb & Hd & Hr)
      end).
  - exact Hpg.
  - exact Htok.
  - exists [Sleep 5; GetDocumentAnalysis textractJobId None].
    rewrite <- app_assoc. split; [done|by repeat constructor].
  - exists ([Sleep 5; GetDocumentAnalysis textractJobId None] ++ evs).
    split; [rewrite Htr; simpl; by rewrite <- !app_assoc|by constructor].
  - intros Ho. destruct Hb as (r' & Hresp & Hst); [by exists r|].
    exists r'. split_and!; [done..|].
    intros Heq. apply (Hd Ho). by rewrite Hst, Heq.
Qed.

(** X3.  The NextToken cell has no bound on the number of pages.  With a
    service whose every response carries a token, whatever the budget of
    turns, the cell is still asking when the budget is spent: it has
    collected one page per request, budget + 1 of them, whatever [pages]
    held before. *)
Theorem X3_token_loop_has_no_page_limit
    {Svc : Type}
    (get_document_analysis : string → option string → Svc → (exn + Response) * Svc)
    (textractJobId : string) (w : World Svc) (fuel : nat) :
  endless_tokens get_document_analysis textractJobId →
  let run := collectPages get_document_analysis textractJobId fuel w in
  run.1 = Running
  ∧ ∃ rs, pages run.2 = Some rs
          ∧ length rs = S fuel
          ∧ page_requests (trace run.2)
            = page_requests (trace w) ++ take (S fuel) (None :: (NextToken <$> rs)).
Proof.
  intros Hsvc run. subst run. unfold collectPages, call; simpl.
  destruct (Hsvc None (textract w)) as (r & s' & Hcall & Hr). rewrite Hcall.
  match goal with |- context [token_loop _ _ fuel ?w1] =>
    destruct (token_loop_endless get_document_analysis textractJobId fuel w1 [r]
                Hsvc eq_refl Hr) as (rs' & Ho & Hpg & Hlen & Hreq)
  end.
  rewrite Ho, Hpg, Hreq. split; [done|]. exists (r :: rs'). simpl.
  split_and!; [done|by rewrite Hlen|].
  unfold page_requests. rewrite !omap_app. simpl.
  by rewrite !app_nil_r, <- app_assoc.
Qed.

Lemma X3_witness_endless_service :
  endless_tokens endless_service "job"
  ∧ (collectPages endless_service "job" 3 world0).1 = Running
  ∧ ∃ rs, pages (collectPages endless_service "job" 3 world0).2 = Some rs
          ∧ length rs = 4.
Proof.
  assert (endless_tokens endless_service "job") as Hsvc.
  { intros tok s. eexists _, _. split; [reflexivity|]. simpl.
    by destruct (pretty s). }
  pose proof (X3_token_loop_has_no_page_limit endless_service "job" world0 3 Hsvc)
    as (Ho & rs & Hpg & Hlen & _).
  split_and!; [exact Hsvc|exact Ho|]. exists rs. by split.
Defined.

(** X4.  The result is requested twice.  With a service whose answer
    depends on the request only, the status cell ends normally on the
    answer to a request without token, and the NextToken cell, run next,
    sends that request again: what it adds to the trace starts with a
    pause and the request without token, so the two cells have sent that
    request twice in a row, and its first page is the response the status
    cell has left in [response]. *)
Theorem X4_first_page_repeats_the_last_status_response
    {Svc : Type}
    (get_document_analysis : string → option string → Svc → (exn + Response) * Svc)
    (textractJobId : string) (answer : option string → exn + Response)
    (r0 : Response) (w : World Svc) (fuel fuel2 : nat) :
  stateless get_document_analysis textractJobId answer →
  answer None = inr r0 →
  JobStatus r0 ≠ "IN_PROGRESS" →
  let run := awaitCompletion get_document_analysis textractJobId fuel w in
  let run2 := collectPages get_document_analysis textractJobId fuel2 run.2 in
  run.1 = Done
  ∧ response run.2 = Some r0
  ∧ page_requests (trace run.2) = page_requests (trace w) ++ [None]
  ∧ (∃ evs, trace run2.2
            = trace run.2
              ++ Sleep 5 :: GetDocumentAnalysis textractJobId None :: evs)
  ∧ (∃ more, page_requests (trace run2.2)
             = page_requests (trace w) ++ None :: None :: more)
  ∧ ∃ rs, pages run2.2 = Some (r0 :: rs).
Proof.
  intros Hsvc Hans Hr0 run run2. subst run run2.
  assert (∀ s, ∃ s', get_document_analysis textractJobId None s = (inr r0, s'))
    as Hcall.
  { intros s. pose proof (Hsvc None s) as H. rewrite Hans in H.
    destruct (get_document_analysis _ _ _) as [x s']. simpl in H. subst x.
    by exists s'. }
  destruct (Hcall (textract w)) as [s1 Hc1].
  assert (awaitCompletion get_document_analysis textractJobId fuel w
          = (Done, mkWorld s1 (trace w ++ [Sleep 5; GetDocumentAnalysis textractJobId None])
                     (Some r0) (Some (JobStatus r0)) (pages w) (nextToken w)))
    as ->.
  { unfold awaitCompletion, call; simpl. rewrite Hc1.
    rewrite status_loop_stop; [|simpl; congruence].
    unfold set_status. simpl. by rewrite <- app_assoc. }
  cbn [fst snd response trace].
  assert (page_requests (trace w ++ [Sleep 5; GetDocumentAnalysis textractJobId None])
          = page_requests (trace w) ++ [None]) as Hreq1.
  { unfold page_requests. by rewrite omap_app. }
  unfold collectPages, call. cbn [textract trace sleep].
  destruct (Hcall s1) as [s2 Hc2]. rewrite Hc2.
  match goal with |- context [token_loop _ _ fuel2 ?w1] =>
    destruct (token_loop_chain get_document_analysis textractJobId fuel2 w1 [] r0)
      as (rs' & evs & Htr & Hpg & _); [done..|]
  end.
  cbv zeta in Htr, Hpg. cbn [trace append_page] in Htr.
  split; [done|]. split; [done|]. split; [done|].
  split; [|split].
  - exists evs. rewrite Htr. by rewrite <- !app_assoc.
  - exists (page_requests evs). rewrite Htr. unfold page_requests.
    rewrite !omap_app. cbn [omap]. by rewrite <- !app_assoc.
  - by exists rs'.
Qed.

Lemma X4_witness_two_sheets :
  stateless two_sheet_service "job" (λ _, inr two_sheet_response)
  ∧ JobStatus two_sheet_response ≠ "IN_PROGRESS"
  ∧ response (awaitCompletion two_sheet_service "job" 2 world0).2
    = Some two_sheet_response
  ∧ ∃ rs, pages (collectPages two_sheet_service "job" 2
                   (awaitCompletion two_sheet_service "job" 2 world0).2).2
          = Some (two_sheet_response :: rs).
Proof.
  assert (stateless two_sheet_service "job" (λ _, inr two_sheet_response))
    as Hsvc by done.
  pose proof (X4_first_page_repeats_the_last_status_response
                two_sheet_service "job" (λ _, inr two_sheet_response)
                two_sheet_response world0 2 2 Hsvc eq_refl ltac:(done))
    as (_ & Hresp & _ & _ & _ & Hpg).
  split_and!; [exact Hsvc|done|exact Hresp|exact Hpg].
Defined.

(** * The Comprehend Medical cell *)

(** No chunk is empty: a window starts inside the text. *)
Lemma py_range_from_lt fuel : ∀ i stop step j,
  j ∈ py_range_from fuel i stop step → j < stop.
Proof.
  induction fuel as [|fuel IH]; intros i stop step j; cbn [py_range_from].
  - by intros ?%elem_of_nil.
  - destruct (Nat.ltb_spec i stop); [|by intros ?%elem_of_nil].
    intros [->|Hj]%elem_of_cons; [done|]. by apply IH in Hj.
Qed.

Lemma chunks_nonempty (pageText : string) :
  Forall (λ c, c ≠ EmptyString) (chunks pageText).
Proof.
  apply Forall_forall. intros c Hc. unfold chunks, chunks_by, py_range in Hc.
  apply list_elem_of_fmap in Hc as (j & -> & Hj).
  apply py_range_from_lt in Hj. intros Hempty.
  assert (length (chars (py_slice pageText (0 + j) (maxLength + j))) = 0) as Hlen.
  { by rewrite Hempty. }
  unfold py_slice in Hlen.
  rewrite chars_substring, length_take, length_drop, chars_length in Hlen.
  assert (0 < maxLength) by (unfold maxLength; lia). lia.
Qed.

Section ComprehendFacts.
Context {CSvc CResp : Type}.
Variable detect_entities_v2 : string → CSvc → (exn + CResp) * CSvc.

Local Abbreviation inner := (page_requests_loop detect_entities_v2).
Local Abbreviation outer := (pages_loop detect_entities_v2).
Local Abbreviation send := (send_all detect_entities_v2).

Lemma page_requests_loop_send pageText indices : ∀ (w : CWorld CSvc CResp),
  inner pageText indices w
  = send ((λ i, py_slice pageText (0 + i) (maxLength + i)) <$> indices) w.
Proof.
  induction indices as [|i rest IH]; intros w; [done|].
  rewrite fmap_cons. cbn [page_requests_loop send_all].
  destruct (detect_entities_v2 _ _) as [[e|r] s]; [done|]. apply IH.
Qed.

Lemma send_all_app texts1 texts2 : ∀ (w : CWorld CSvc CResp),
  send (texts1 ++ texts2) w
  = match send texts1 w with
    | (Done, w') => send texts2 w'
    | stop => stop
    end.
Proof.
  induction texts1 as [|t rest IH]; intros w; [done|].
  cbn [app send_all].
  destruct (detect_entities_v2 _ _) as [[e|r] s]; [done|]. apply IH.
Qed.

(** The two nested loops send the chunks of the pages, page after page. *)
Lemma pages_loop_send doc_pages : ∀ (w : CWorld CSvc CResp),
  outer doc_pages w = send (doc_pages ≫= chunks ∘ trp.text) w.
Proof.
  induction doc_pages as [|pg rest IH]; intros w; [done|].
  cbn [pages_loop mbind list_bind]. fold (mbind (M:=list) (chunks ∘ trp.text) rest).
  rewrite send_all_app, page_requests_loop_send.
  change (send ((chunks ∘ trp.text) pg) w)
    with (send ((λ i, py_slice (trp.text pg) (0 + i) (maxLength + i))
                  <$> py_range 0 (String.length (trp.text pg)) maxLength) w).
  destruct (send _ w) as [[|e|] w1]; [apply IH|done..].
Qed.

Lemma send_all_spec texts : ∀ (w : CWorld CSvc CResp),
  ∃ k rs,
    let run := send texts w in
    k ≤ length texts
    ∧ sent run.2 = sent w ++ take k texts
    ∧ comprehendResponse run.2 = comprehendResponse w ++ rs
    ∧ length rs + (if raised run.1 then 1 else 0) = k
    ∧ (run.1 = Done → k = length texts)
    ∧ run.1 ≠ Running.
Proof.
  induction texts as [|t rest IH]; intros w; cbn [send_all].
  - exists 0, []. simpl. by rewrite !app_nil_r.
  - destruct (detect_entities_v2 _ _) as [[e|r] s].
    + exists 1, []. simpl. rewrite app_nil_r. split_and!; try done; lia.
    + match goal with |- context [send_all _ _ ?w1] =>
        destruct (IH w1) as (k & rs & Hk & Hsent & Hresp & Hlen & Hd & Hrun)
      end.
      cbn [sent comprehendResponse] in Hsent, Hresp.
      exists (S k), (r :: rs). cbv zeta in *.
      rewrite Hsent, Hresp, <- !app_assoc. simpl.
      split_and!; try done; try lia.
      intros Ho. by rewrite (Hd Ho).
Qed.

Lemma send_all_total texts : ∀ (w : CWorld CSvc CResp),
  (∀ t s, ∃ r s', detect_entities_v2 t s = (inr r, s')) →
  (send texts w).1 = Done.
Proof.
  induction texts as [|t rest IH]; intros w Hsvc; cbn [send_all]; [done|].
  destruct (Hsvc t (comprehend w)) as (r & s' & ->). by apply IH.
Qed.

End ComprehendFacts.

Lemma join_app (xs ys : list string) :
  fold_right String.append EmptyString (xs ++ ys)
  = fold_right String.append EmptyString xs
    +:+ fold_right String.append EmptyString ys.
Proof.
  induction xs as [|x xs IH]; [done|]. cbn [app fold_right].
  by rewrite IH, string_app_assoc.
Qed.

Lemma chunks_of_pages_join (doc_pages : list trp.Page) :
  fold_right String.append EmptyString (doc_pages ≫= chunks ∘ trp.text)
  = fold_right String.append EmptyString (trp.text <$> doc_pages).
Proof.
  assert (0 < maxLength) as Hpos by (unfold maxLength; lia).
  induction doc_pages as [|pg rest IH]; [done|].
  cbn [mbind list_bind fmap list_fmap fold_right].
  fold (mbind (M:=list) (chunks ∘ trp.text) rest).
  fold (fmap (M:=list) trp.text rest).
  rewrite join_app, IH. f_equal.
  apply (chunks_by_spec maxLength Hpos (trp.text pg)).
Qed.

Lemma chunks_of_pages_length (doc_pages : list trp.Page) :
  length (doc_pages ≫= chunks ∘ trp.text)
  = sum_list ((λ pg, ceil_div (String.length (trp.text pg)) maxLength)
                <$> doc_pages).
Proof.
  assert (0 < maxLength) as Hpos by (unfold maxLength; lia).
  induction doc_pages as [|pg rest IH]; [done|].
  cbn [mbind list_bind fmap list_fmap sum_list sum_list_with].
  fold (mbind (M:=list) (chunks ∘ trp.text) rest).
  rewrite length_app, IH. f_equal.
  apply (chunks_by_spec maxLength Hpos (trp.text pg)).
Qed.

Lemma chunks_nil_iff (pageText : string) :
  chunks pageText = [] ↔ pageText = EmptyString.
Proof.
  assert (0 < maxLength) as Hpos by (unfold maxLength; lia).
  destruct (chunks_by_spec maxLength Hpos pageText) as (Hlen & _ & Hcat).
  fold (chunks pageText) in Hlen, Hcat. split.
  - intros Hnil. by rewrite Hnil in Hcat.
  - intros ->. done.
Qed.

Lemma chunks_of_pages_nil_iff (doc_pages : list trp.Page) :
  doc_pages ≫= chunks ∘ trp.text = []
  ↔ Forall (λ pg, trp.text pg = EmptyString) doc_pages.
Proof.
  induction doc_pages as [|pg rest IH].
  - split; [constructor|done].
  - cbn [mbind list_bind]. fold (mbind (M:=list) (chunks ∘ trp.text) rest).
    rewrite Forall_cons, <- IH, <- chunks_nil_iff.
    split.
    + by intros [? ?]%app_eq_nil.
    + intros [H1 H2]. change ((chunks ∘ trp.text) pg) with (chunks (trp.text pg)).
      by rewrite H1, H2.
Qed.

(** X5.  The Comprehend Medical cell sends the chunks of the page texts,
    page after page and window after window, and nothing else: the texts
    sent are a front part of that list, the whole of it when the cell ends
    normally.  No text sent is empty and none is longer than [maxLength];
    a page without text causes no request.  [comprehendResponse] starts
    empty and receives one response per request answered.  When the cell
    ends normally the texts sent, joined, are the page texts, joined; and it
    ends normally whenever the service answers every request. *)
Theorem X5_comprehend_cell_sends_the_chunks
    {CSvc CResp : Type}
    (detect_entities_v2 : string → CSvc → (exn + CResp) * CSvc)
    (doc_pages : list trp.Page) (w : CWorld CSvc CResp) :
  let run := comprehend_cell detect_entities_v2 doc_pages w in
  let plan := doc_pages ≫= chunks ∘ trp.text in
  Forall (λ t, t ≠ EmptyString ∧ String.length t ≤ maxLength) plan
  ∧ length plan
    = sum_list ((λ pg, ceil_div (String.length (trp.text pg)) maxLength)
                  <$> doc_pages)
  ∧ (∃ k, k ≤ length plan
          ∧ sent run.2 = sent w ++ take k plan
          ∧ length (comprehendResponse run.2)
            + (if raised run.1 then 1 else 0) = k)
  ∧ (run.1 = Done →
     sent run.2 = sent w ++ plan
     ∧ length (comprehendResponse run.2) = length plan
     ∧ fold_right String.append EmptyString plan
       = fold_right String.append EmptyString (trp.text <$> doc_pages))
  ∧ ((∀ t s, ∃ r s', detect_entities_v2 t s = (inr r, s')) → run.1 = Done).
Proof.
  intros run plan. subst run. unfold comprehend_cell.
  rewrite pages_loop_send. fold plan.
  destruct (send_all_spec detect_entities_v2 plan
              (mkCWorld (comprehend w) (sent w) []))
    as (k & rs & Hk & Hsent & Hresp & Hlen & Hd & _).
  cbv zeta in *. cbn [sent comprehendResponse] in Hsent, Hresp.
  rewrite app_nil_l in Hresp.
  split; [|split; [|split; [|split]]].
  - subst plan. apply Forall_forall. intros t Ht.
    apply list_elem_of_bind in Ht as (pg & Ht & _).
    assert (0 < maxLength) as Hpos by (unfold maxLength; lia).
    split.
    + by apply (proj1 (Forall_forall _ _) (chunks_nonempty (trp.text pg))).
    + destruct (chunks_by_spec maxLength Hpos (trp.text pg)) as (_ & Hmax & _).
      by apply (proj1 (Forall_forall _ _) Hmax).
  - apply chunks_of_pages_length.
  - exists k. rewrite Hresp. by split_and!.
  - intros Ho. specialize (Hd Ho). rewrite Ho in Hlen. simpl in Hlen.
    rewrite Hsent, Hresp, take_ge by lia.
    split_and!; [done|lia|apply chunks_of_pages_join].
  - intros Hsvc. by apply send_all_total.
Qed.

(** X6.  After a normal run of the Comprehend Medical cell, the next cell's
    [comprehendResponse[0]] raises [IndexError] exactly when no page of the
    document has any text; otherwise it is a response of the service. *)
Theorem X6_first_response_exists_iff_some_page_has_text
    {CSvc CResp : Type}
    (detect_entities_v2 : string → CSvc → (exn + CResp) * CSvc)
    (doc_pages : list trp.Page) (w : CWorld CSvc CResp) :
  let run := comprehend_cell detect_entities_v2 doc_pages w in
  run.1 = Done →
  (first_response run.2 = inl (mkExn "IndexError" "list index out of range")
   ↔ Forall (λ pg, trp.text pg = EmptyString) doc_pages)
  ∧ (¬ Forall (λ pg, trp.text pg = EmptyString) doc_pages
     → ∃ r, first_response run.2 = inr r).
Proof.
  intros run Ho. subst run. unfold comprehend_cell in *.
  rewrite pages_loop_send in *.
  destruct (send_all_spec detect_entities_v2 (doc_pages ≫= chunks ∘ trp.text)
              (mkCWorld (comprehend w) (sent w) []))
    as (k & rs & Hk & _ & Hresp & Hlen & Hd & _).
  cbv zeta in *. cbn [comprehendResponse] in Hresp. rewrite app_nil_l in Hresp.
  specialize (Hd Ho). rewrite Ho in Hlen. simpl in Hlen.
  rewrite <- chunks_of_pages_nil_iff. unfold first_response. rewrite Hresp.
  destruct rs as [|r rs]; simpl in Hlen.
  - split; [split; [intros _|done]|intros Hne; destruct Hne].
    + apply length_zero_iff_nil. lia.
    + apply length_zero_iff_nil. lia.
  - split; [split; [done|]|by eexists].
    intros Hnil. rewrite Hnil in Hd. simpl in Hd. lia.
Qed.

Lemma X6_witness_blank_second_page :
  let doc_pages := [trp.mkPage [] "Discharge Summary"; trp.mkPage [] EmptyString] in
  let w := mkCWorld 0 [] [7] in
  (comprehend_cell length_service doc_pages w).1 = Done
  ∧ first_response (comprehend_cell length_service doc_pages w).2 = inr 17
  ∧ sent (comprehend_cell length_service doc_pages w).2 = ["Discharge Summary"].
Proof.
  intros doc_pages w.
  assert ((comprehend_cell length_service doc_pages w).1 = Done) as Ho.
  { by vm_compute. }
  pose proof (X6_first_response_exists_iff_some_page_has_text
                length_service doc_pages w Ho) as [_ Hsome].
  split_and!; [exact Ho|by vm_compute|by vm_compute].
Defined.

(** * Dictionaries *)

Section ODictFacts.
Context {V : Type}.
Implicit Types (d : odict V) (k : Z) (v : V).

Lemma od_get_set d k k' v :
  od_get k' (od_set k v d) = if decide (k = k') then Some v else od_get k' d.
Proof.
  induction d as [|[k0 v0] d IH]; simpl.
  - by repeat case_decide.
  - repeat (case_decide; simpl); congruence.
Qed.

Lemma od_get_None d k : od_get k d = None ↔ k ∉ od_keys d.
Proof.
  unfold od_keys. induction d as [|[k0 v0] d IH].
  - split; [intros _; apply not_elem_of_nil|done].
  - cbn [od_get]. rewrite fmap_cons, not_elem_of_cons. simpl.
    case_decide as Hk; [split; [done|intros [? _]; done]|].
    rewrite IH. split; [by split|by intros [_ ?]].
Qed.

Lemma od_get_Some_keys d k v : od_get k d = Some v → k ∈ od_keys d.
Proof.
  intros H. destruct (decide (k ∈ od_keys d)) as [|Hn]; [done|].
  apply od_get_None in Hn. congruence.
Qed.

Lemma od_get_elem d k v : od_get k d = Some v → (k, v) ∈ d.
Proof.
  induction d as [|[k0 v0] d IH]; simpl; [done|].
  case_decide; [intros [= ->]; subst; left|intros ?; right; auto].
Qed.

Lemma od_elem_get d k v : NoDup (od_keys d) → (k, v) ∈ d → od_get k d = Some v.
Proof.
  unfold od_keys. induction d as [|[k0 v0] d IH]; simpl.
  - by intros _ ?%elem_of_nil.
  - intros [Hk0 Hnd]%NoDup_cons [[= -> ->]|Hin]%elem_of_cons.
    + by rewrite decide_True.
    + rewrite decide_False; [by apply IH|]. intros ->. apply Hk0.
      apply list_elem_of_fmap. by exists (k0, v).
Qed.

Lemma od_keys_set d k v :
  od_keys (od_set k v d)
  = match od_get k d with
    | Some _ => od_keys d
    | None => od_keys d ++ [k]
    end.
Proof.
  unfold od_keys. induction d as [|[k0 v0] d IH]; [done|].
  cbn [od_set od_get]. case_decide.
  - subst. by rewrite !fmap_cons.
  - rewrite !fmap_cons, IH. by destruct (od_get k d).
Qed.

Lemma od_set_NoDup d k v : NoDup (od_keys d) → NoDup (od_keys (od_set k v d)).
Proof.
  intros Hnd. rewrite od_keys_set. destruct (od_get k d) eqn:Hk; [done|].
  apply od_get_None in Hk. apply NoDup_app. split_and!; [done| |apply NoDup_singleton].
  intros x Hx ->%list_elem_of_singleton. done.
Qed.

Lemma od_set_length_new d k v :
  od_get k d = None → length (od_set k v d) = S (length d).
Proof.
  intros Hk. pose proof (od_keys_set d k v) as H. rewrite Hk in H.
  apply (f_equal length) in H. unfold od_keys in H.
  rewrite length_app, !length_fmap in H. simpl in H. lia.
Qed.

(** Filling a dictionary in a loop: the last assignment to a key wins. *)
Lemma assign_loop_get {A} (P : A → Prop) `{!∀ a, Decision (P a)}
    (key : A → Z) (val : A → V) (l : list A) : ∀ d k,
  od_get k (foldl (λ d a, if decide (P a) then od_set (key a) (val a) d else d)
                  d l)
  = match last (filter (λ a, P a ∧ key a = k) l) with
    | Some a => Some (val a)
    | None => od_get k d
    end.
Proof.
  induction l as [|a l IH]; intros d k; simpl; [done|].
  rewrite IH, filter_cons.
  destruct (decide (P a ∧ key a = k)) as [[HP Hk]|Hn].
  - rewrite last_cons. destruct (last (filter _ l)); [done|].
    rewrite decide_True by done. rewrite od_get_set, decide_True; done.
  - destruct (last (filter _ l)); [done|].
    case_decide; [|done]. rewrite od_get_set. case_decide; [|done].
    destruct Hn. done.
Qed.

Lemma assign_loop_NoDup {A} (P : A → Prop) `{!∀ a, Decision (P a)}
    (key : A → Z) (val : A → V) (l : list A) : ∀ d,
  NoDup (od_keys d) →
  NoDup (od_keys (foldl (λ d a, if decide (P a) then od_set (key a) (val a) d
                                else d) d l)).
Proof.
  induction l as [|a l IH]; intros d Hd; simpl; [done|].
  apply IH. case_decide; [by apply od_set_NoDup|done].
Qed.

End ODictFacts.

Lemma foldl_ext_all {A B} (f g : A → B → A) (l : list B) :
  (∀ a b, f a b = g a b) → ∀ a, foldl f a l = foldl g a l.
Proof.
  intros Hfg. induction l as [|b l IH]; intros a; simpl; [done|].
  by rewrite Hfg, IH.
Qed.

Lemma filter_ext_in {A} (P Q : A → Prop) `{!∀ x, Decision (P x)}
    `{!∀ x, Decision (Q x)} (l : list A) :
  (∀ x, x ∈ l → P x ↔ Q x) → filter P l = filter Q l.
Proof.
  induction l as [|x l IH]; intros HPQ; [done|].
  rewrite !filter_cons. rewrite IH by (intros y Hy; apply HPQ; by right).
  pose proof (HPQ x ltac:(left)) as Hx.
  destruct (decide (P x)), (decide (Q x)); tauto || done.
Qed.

(** The loops that copy one dictionary into another. *)
Section UpdateLoop.
Context {V : Type}.
Implicit Types (d l : odict V).

Lemma update_loop_get l : ∀ d k,
  NoDup (od_keys l) →
  od_get k (foldl (λ d kv, od_set kv.1 kv.2 d) d l)
  = match od_get k l with Some v => Some v | None => od_get k d end.
Proof.
  unfold od_keys. induction l as [|[k0 v0] l IH]; intros d k Hnd; [done|].
  rewrite fmap_cons in Hnd. apply NoDup_cons in Hnd as [Hk0 Hnd].
  cbn [fst] in Hk0. cbn [foldl od_get fst snd]. rewrite IH by done.
  case_decide as Hk.
  - subst k0. apply (od_get_None l) in Hk0. rewrite Hk0.
    by rewrite od_get_set, decide_True.
  - destruct (od_get k l); [done|]. rewrite od_get_set, decide_False; done.
Qed.

Lemma update_loop_keys l : ∀ d,
  NoDup (od_keys l) →
  od_keys (foldl (λ d kv, od_set kv.1 kv.2 d) d l)
  = od_keys d ++ filter (λ k, k ∉ od_keys d) (od_keys l).
Proof.
  unfold od_keys. induction l as [|[k0 v0] l IH]; intros d Hnd.
  - simpl. by rewrite filter_nil, app_nil_r.
  - rewrite fmap_cons in Hnd. apply NoDup_cons in Hnd as [Hk0 Hnd].
    cbn [fst] in Hk0. cbn [foldl fst snd]. rewrite IH by done. rewrite fmap_cons, filter_cons.
    cbn [fst]. pose proof (od_keys_set d k0 v0) as Hs. unfold od_keys in Hs.
    rewrite Hs. destruct (od_get k0 d) as [v|] eqn:Hg.
    + apply od_get_Some_keys in Hg. unfold od_keys in Hg.
      rewrite decide_False by (intros Hn; by apply Hn). done.
    + apply od_get_None in Hg. unfold od_keys in Hg.
      rewrite decide_True by done. rewrite <- app_assoc. cbn [app]. do 2 f_equal.
      apply filter_ext_in. intros k Hk. rewrite not_elem_of_app.
      split; [by intros [? _]|]. intros Hkd. split; [done|].
      intros ->%list_elem_of_singleton. done.
Qed.

Lemma update_loop_NoDup l : ∀ d,
  NoDup (od_keys d) →
  NoDup (od_keys (foldl (λ d kv, od_set kv.1 kv.2 d) d l)).
Proof.
  induction l as [|[k0 v0] l IH]; intros d Hd; [done|].
  cbn [foldl]. apply IH. by apply od_set_NoDup.
Qed.

End UpdateLoop.

(** * The notebook "Downloading and Combining Datasets" *)

Lemma category_labels_get cats k :
  od_get k (category_labels_of cats)
  = cat_name <$> last (filter (λ c, cat_supercategory c = "animal" ∧ cat_id c = k)
                              cats).
Proof.
  unfold category_labels_of.
  rewrite (assign_loop_get (λ c, cat_supercategory c = "animal") cat_id cat_name).
  by destruct (last _).
Qed.

Lemma category_labels_NoDup cats : NoDup (od_keys (category_labels_of cats)).
Proof.
  unfold category_labels_of.
  apply (assign_loop_NoDup (λ c, cat_supercategory c = "animal") cat_id cat_name).
  apply NoDup_nil_2.
Qed.

Lemma annos_of_loop labels anns :
  annos_of labels anns
  = foldl (λ d a, if decide (is_Some (od_get (ann_category_id a) labels))
                  then od_set (ann_image_id a)
                              (mkAnno (ann_category_id a) None None) d
                  else d) [] anns.
Proof.
  unfold annos_of. apply foldl_ext_all. intros d a.
  destruct (od_get (ann_category_id a) labels) eqn:E.
  - by rewrite decide_True by eauto.
  - by rewrite decide_False by (by intros [? ?]).
Qed.

Lemma annos_of_get labels anns k :
  od_get k (annos_of labels anns)
  = (λ a, mkAnno (ann_category_id a) None None)
    <$> last (filter (λ a, is_Some (od_get (ann_category_id a) labels)
                           ∧ ann_image_id a = k) anns).
Proof.
  rewrite annos_of_loop.
  rewrite (assign_loop_get (λ a, is_Some (od_get (ann_category_id a) labels))
             ann_image_id (λ a, mkAnno (ann_category_id a) None None)).
  by destruct (last _).
Qed.

Lemma annos_of_NoDup labels anns : NoDup (od_keys (annos_of labels anns)).
Proof.
  rewrite annos_of_loop.
  apply (assign_loop_NoDup (λ a, is_Some (od_get (ann_category_id a) labels))
           ann_image_id (λ a, mkAnno (ann_category_id a) None None)).
  apply NoDup_nil_2.
Qed.

Lemma annos_of_labelled labels anns k v :
  od_get k (annos_of labels anns) = Some v →
  is_Some (od_get (category_id v) labels)
  ∧ coco_url v = None ∧ file_name v = None.
Proof.
  rewrite annos_of_get. destruct (last _) as [a|] eqn:Hl; [|done].
  intros [= <-]. apply last_Some in Hl as [l' Hl].
  assert (a ∈ filter (λ a, is_Some (od_get (ann_category_id a) labels)
                           ∧ ann_image_id a = k) anns) as Ha.
  { rewrite Hl. apply elem_of_app. right. by left. }
  apply list_elem_of_filter in Ha as [[Ha _] _]. done.
Qed.

(** X7: [category_labels] maps the id of every category whose supercategory is
    "animal" to the name of the last such category with that id, and nothing
    else; [train_annos] and [val_annos] keep, for an image id, one entry only:
    the category of the last annotation of that image whose category is in
    [category_labels] (an image annotated with several animals is filed
    under the last one), without URL or file name yet; an image without such
    an annotation has no entry.  Keys are unique, and the category of every
    entry has a label. *)
Theorem X7_an_image_keeps_its_last_animal_annotation
    (categories : list Category) (annotations : list AnnotationEntry) (k : Z) :
  let category_labels := category_labels_of categories in
  let annos := annos_of category_labels annotations in
  od_get k category_labels
  = cat_name <$> last (filter (λ c, cat_supercategory c = "animal"
                                    ∧ cat_id c = k) categories)
  ∧ od_get k annos
    = (λ a, mkAnno (ann_category_id a) None None)
      <$> last (filter (λ a, is_Some (od_get (ann_category_id a) category_labels)
                             ∧ ann_image_id a = k) annotations)
  ∧ NoDup (od_keys category_labels)
  ∧ NoDup (od_keys annos)
  ∧ ∀ v, od_get k annos = Some v → is_Some (od_get (category_id v) category_labels).
Proof.
  intros category_labels annos.
  split; [apply category_labels_get|].
  split; [apply annos_of_get|].
  split; [apply category_labels_NoDup|].
  split; [apply annos_of_NoDup|].
  intros v Hv. by apply annos_of_labelled in Hv as [? _].
Qed.

Lemma combine_spec annos images :
  match combine annos images with
  | inr d =>
      Forall2 (λ old new, ∃ url fn,
                 od_get old.1 images = Some (url, fn)
                 ∧ new = (old.1, mkAnno (category_id old.2) (Some url) (Some fn)))
              annos d
  | inl e =>
      ∃ pre id anno post,
        annos = pre ++ (id, anno) :: post
        ∧ (∀ k, k ∈ od_keys pre → is_Some (od_get k images))
        ∧ od_get id images = None
        ∧ e = KeyError (pretty id)
  end.
Proof.
  induction annos as [|[id anno] rest IH]; cbn [combine]; [constructor|].
  destruct (od_get id images) as [[url fn]|] eqn:Hi.
  - destruct (combine rest images) as [e|d].
    + destruct IH as (pre & id' & anno' & post & -> & Hpre & Hid & ->).
      exists ((id, anno) :: pre), id', anno', post. split_and!; try done.
      intros k. unfold od_keys. rewrite fmap_cons. cbn [fst].
      intros [->|Hk]%elem_of_cons; [by rewrite Hi|by apply Hpre].
    + constructor; [|done]. by exists url, fn.
  - exists [], id, anno, rest. split_and!; try done.
    by intros k ?%elem_of_nil.
Qed.

Lemma combine_keys annos images d :
  combine annos images = inr d → od_keys d = od_keys annos.
Proof.
  intros H. pose proof (combine_spec annos images) as Hs. rewrite H in Hs.
  clear H. unfold od_keys. induction Hs as [|[k v] new ? ? Hx ? IH]; [done|].
  destruct Hx as (url & fn & _ & ->). rewrite !fmap_cons, IH. done.
Qed.


(** X8: the cell that completes the annotations with the URL and file name
    of their images ([anno.update(images[id])]) succeeds exactly when every
    annotated image id is a key of the images dictionary; it then keeps the
    ids, their order and the categories and gives every entry the URL and
    file name of its image.  Otherwise it raises [KeyError] for the first
    annotated id without an image. *)
Theorem X8_combine_needs_an_image_for_every_annotation
    (annos : odict Anno) (images : odict (string * string)) :
  match combine annos images with
  | inr d =>
      (∀ k, k ∈ od_keys annos → is_Some (od_get k images))
      ∧ od_keys d = od_keys annos
      ∧ Forall2 (λ old new, ∃ url fn,
                   od_get old.1 images = Some (url, fn)
                   ∧ new = (old.1,
                            mkAnno (category_id old.2) (Some url) (Some fn)))
                annos d
  | inl e =>
      ∃ pre id anno post,
        annos = pre ++ (id, anno) :: post
        ∧ (∀ k, k ∈ od_keys pre → is_Some (od_get k images))
        ∧ od_get id images = None
        ∧ e = KeyError (pretty id)
  end.
Proof.
  pose proof (combine_spec annos images) as Hs.
  pose proof (combine_keys annos images) as Hk.
  destruct (combine annos images) as [e|d]; [done|].
  split; [|split; [by apply Hk|done]].
  intros k Hin. unfold od_keys in Hin.
  apply list_elem_of_fmap in Hin as ([k' v] & -> & Hin).
  clear Hk. induction Hs as [|old new ? ? Hx ? IH]; [by apply elem_of_nil in Hin|].
  apply elem_of_cons in Hin as [<-|Hin]; [|by apply IH].
  destruct Hx as (url & fn & Hg & _). by rewrite Hg.
Qed.

Lemma filter_not_in_nil (l : list Z) : filter (λ k, k ∉ @nil Z) l = l.
Proof.
  induction l as [|x l IH]; [done|].
  rewrite filter_cons, decide_True by apply not_elem_of_nil. by rewrite IH.
Qed.

(** X9: [all_annos] holds the training annotations followed by the
    validation annotations of the images that are not in the training set,
    each id once; for an image id present in both, the validation entry
    replaces the training entry, at the training entry's position. *)
Theorem X9_validation_entries_replace_training_entries
    (train_annos val_annos : odict Anno)
    (Htrain : NoDup (od_keys train_annos))
    (Hval : NoDup (od_keys val_annos)) :
  let all_annos := all_annos_of train_annos val_annos in
  (∀ k, od_get k all_annos
        = match od_get k val_annos with
          | Some v => Some v
          | None => od_get k train_annos
          end)
  ∧ od_keys all_annos
    = od_keys train_annos
      ++ filter (λ k, k ∉ od_keys train_annos) (od_keys val_annos)
  ∧ NoDup (od_keys all_annos).
Proof.
  intros all_annos. unfold all_annos, all_annos_of. split; [|split].
  - intros k. rewrite !update_loop_get by done.
    destruct (od_get k val_annos); [done|]. by destruct (od_get k train_annos).
  - rewrite !update_loop_keys by done. cbn [od_keys fmap list_fmap app].
    rewrite (filter_not_in_nil (od_keys train_annos)). done.
  - apply update_loop_NoDup, update_loop_NoDup, NoDup_nil_2.
Qed.

Lemma X9_witness_shared_image :
  let train := [(1, mkAnno 17 (Some "u1") (Some "a.jpg"));
                (2, mkAnno 18 (Some "u2") (Some "b.jpg"))]%Z in
  let val := [(3, mkAnno 17 (Some "u3") (Some "c.jpg"));
              (1, mkAnno 21 (Some "v1") (Some "d.jpg"))]%Z in
  (∀ k, od_get k (all_annos_of train val)
        = match od_get k val with
          | Some v => Some v
          | None => od_get k train
          end)
  ∧ od_keys (all_annos_of train val)
    = od_keys train ++ filter (λ k, k ∉ od_keys train) (od_keys val)
  ∧ NoDup (od_keys (all_annos_of train val)).
Proof.
  intros train val.
  apply (X9_validation_entries_replace_training_entries train val).
  - by apply (bool_decide_unpack _).
  - by apply (bool_decide_unpack _).
Defined.

Lemma filter_Forall_id {A} (P : A → Prop) `{!∀ x, Decision (P x)} (l : list A) :
  Forall P l → filter P l = l.
Proof.
  induction 1 as [|x l Hx _ IH]; [done|].
  by rewrite filter_cons, decide_True, IH.
Qed.

Lemma filter_Forall_nil {A} (P : A → Prop) `{!∀ x, Decision (P x)} (l : list A) :
  Forall (λ x, ¬ P x) l → filter P l = [].
Proof.
  induction 1 as [|x l Hx _ IH]; [done|].
  by rewrite filter_cons, decide_False, IH.
Qed.

Lemma od_set_new {V} (d : odict V) k v :
  k ∉ od_keys d → od_set k v d = d ++ [(k, v)].
Proof.
  unfold od_keys. induction d as [|[k0 v0] d IH]; [done|].
  rewrite fmap_cons, not_elem_of_cons. cbn [fst od_set]. intros [Hne Hk].
  rewrite decide_False by done. by rewrite IH.
Qed.

Lemma subset_of_elem all cid k :
  NoDup (od_keys all) →
  k ∈ subset_of all cid ↔ ∃ v, od_get k all = Some v ∧ category_id v = cid.
Proof.
  intros Hnd. unfold subset_of. rewrite list_elem_of_fmap. split.
  - intros ([k' v] & -> & [Hc Hin]%list_elem_of_filter). exists v.
    split; [by apply od_elem_get|done].
  - intros (v & Hg & Hc). exists (k, v). split; [done|].
    apply list_elem_of_filter. split; [done|by apply od_get_elem].
Qed.

Lemma subset_of_NoDup all cid : NoDup (od_keys all) → NoDup (subset_of all cid).
Proof.
  unfold subset_of, od_keys, odict.
  induction all as [|[k v] all IH]; intros Hnd.
  - apply NoDup_nil_2.
  - rewrite fmap_cons in Hnd. apply NoDup_cons in Hnd as [Hk Hnd].
    rewrite filter_cons. case_decide; [|by apply IH].
    rewrite fmap_cons. apply NoDup_cons. split; [|by apply IH].
    cbn [fst] in *. intros Hin. apply Hk.
    apply list_elem_of_fmap in Hin as (kv & -> & [_ Hin]%list_elem_of_filter).
    apply list_elem_of_fmap. by exists kv.
Qed.

Lemma copy_sample_spec all sample : ∀ d,
  NoDup sample →
  (∀ k, k ∈ sample → is_Some (od_get k all) ∧ k ∉ od_keys d) →
  ∃ new, copy_sample all sample d = inr (d ++ new)
         ∧ new.*1 = sample
         ∧ Forall (λ kv, od_get kv.1 all = Some kv.2) new.
Proof.
  induction sample as [|k rest IH]; intros d Hnd Hs.
  - exists []. by rewrite app_nil_r.
  - apply NoDup_cons in Hnd as [Hk Hnd].
    destruct (Hs k ltac:(left)) as [[v Hv] Hkd].
    cbn [copy_sample]. rewrite Hv, od_set_new by done.
    destruct (IH (d ++ [(k, v)]) Hnd) as (new & -> & Hkeys & Hall).
    { intros k' Hk'. destruct (Hs k' ltac:(by right)) as [? ?].
      split; [done|]. unfold od_keys. rewrite fmap_app, not_elem_of_app.
      split; [done|]. cbn. intros ->%list_elem_of_singleton. done. }
    exists ((k, v) :: new). rewrite <- app_assoc. split; [done|].
    split; [by rewrite fmap_cons, Hkeys|]. by constructor.
Qed.

Lemma submseteq_NoDup {A} (l k : list A) : l ⊆+ k → NoDup k → NoDup l.
Proof.
  intros [k' Hk]%submseteq_Permutation Hnd. rewrite Hk in Hnd.
  by apply NoDup_app in Hnd as [? _].
Qed.

Section SamplingFacts.
Context {Rng : Type}.
Variable choice : Rng → list Z → nat → list Z * Rng.
Hypothesis choice_ok : without_replacement choice.
Variable all : odict Anno.
Hypothesis all_NoDup : NoDup (od_keys all).

Lemma sample_category_spec d g cid :
  (∀ k v, (k, v) ∈ d → od_get k all = Some v ∧ category_id v ≠ cid) →
  match sample_category choice all (d, g) cid with
  | inr (d', _) =>
      250 ≤ length (subset_of all cid)
      ∧ ∃ new, d' = d ++ new
          ∧ length new = 250
          ∧ NoDup new.*1
          ∧ Forall (λ kv, od_get kv.1 all = Some kv.2 ∧ category_id kv.2 = cid) new
  | inl e =>
      exn_class e = "ValueError" ∧ length (subset_of all cid) < 250
  end.
Proof.
  intros Hd. unfold sample_category. cbn [fst snd].
  case_decide as Hnil; [rewrite Hnil; cbn; split; [done|lia]|].
  case_decide as Hlen; [done|].
  destruct (choice_ok g (subset_of all cid) 250 ltac:(lia)) as [Hn Hsub].
  destruct (choice g (subset_of all cid) 250) as [sample g'] eqn:Hc.
  cbn [fst] in Hn, Hsub.
  assert (NoDup sample) as Hnds.
  { eapply submseteq_NoDup; [done|]. by apply subset_of_NoDup. }
  assert (∀ k, k ∈ sample → ∃ v, od_get k all = Some v ∧ category_id v = cid)
    as Hin.
  { intros k Hk. apply subset_of_elem; [done|].
    eapply elem_of_submseteq; done. }
  destruct (copy_sample_spec all sample d Hnds) as (new & -> & Hkeys & Hall).
  { intros k Hk. destruct (Hin k Hk) as (v & Hv & Hcat). split; [by eauto|].
    intros Hkd. unfold od_keys in Hkd.
    apply list_elem_of_fmap in Hkd as ([k' v'] & -> & Hkd).
    destruct (Hd _ _ Hkd) as [Hg Hne]. cbn [fst] in Hv. congruence. }
  split; [lia|]. exists new. split; [done|].
  split; [by rewrite <- (length_fmap fst), Hkeys|].
  split; [by rewrite Hkeys|].
  apply Forall_forall. intros [k v] Hkv.
  rewrite Forall_forall in Hall. pose proof (Hall _ Hkv) as Hg.
  split; [done|]. cbn [fst snd] in *.
  destruct (Hin k) as (v' & Hv' & Hcat); [|congruence].
  rewrite <- Hkeys. apply list_elem_of_fmap. by exists (k, v).
Qed.

Lemma sample_categories_spec cids : ∀ d g,
  NoDup cids →
  (∀ k v, (k, v) ∈ d → od_get k all = Some v ∧ category_id v ∉ cids) →
  match sample_categories choice all cids (d, g) with
  | inr (d', _) =>
      (∀ c, c ∈ cids → 250 ≤ length (subset_of all c))
      ∧ ∃ new, d' = d ++ new
          ∧ length new = 250 * length cids
          ∧ NoDup new.*1
          ∧ (∀ k v, (k, v) ∈ new → od_get k all = Some v ∧ category_id v ∈ cids)
          ∧ (∀ c, c ∈ cids → length (subset_of new c) = 250)
  | inl e =>
      exn_class e = "ValueError"
      ∧ ∃ c, c ∈ cids ∧ length (subset_of all c) < 250
  end.
Proof.
  induction cids as [|c rest IH]; intros d g Hnd Hd.
  - cbn. split; [by intros c ?%elem_of_nil|]. exists [].
    rewrite app_nil_r. split; [done|]. split; [done|].
    split; [apply NoDup_nil_2|].
    split; [by intros k v ?%elem_of_nil|by intros c ?%elem_of_nil].
  - apply NoDup_cons in Hnd as [Hc Hnd]. cbn [sample_categories].
    assert (∀ k v, (k, v) ∈ d → od_get k all = Some v ∧ category_id v ≠ c)
      as Hd1.
    { intros k v Hkv. destruct (Hd k v Hkv) as [? Hn]. split; [done|].
      intros ?. apply Hn. subst c. by left. }
    pose proof (sample_category_spec d g c Hd1) as H1.
    destruct (sample_category choice all (d, g) c) as [e|[d1 g1]].
    { destruct H1 as [? ?]. split; [done|]. exists c. split; [by left|done]. }
    destruct H1 as (Hlen & new1 & -> & Hl1 & Hnd1 & Hall1).
    rewrite Forall_forall in Hall1.
    assert (∀ k v, (k, v) ∈ d ++ new1 →
                   od_get k all = Some v ∧ category_id v ∉ rest) as Hd2.
    { intros k v [Hkv|Hkv]%elem_of_app.
      + destruct (Hd k v Hkv) as [? Hn]. split; [done|].
        intros ?. apply Hn. by right.
      + destruct (Hall1 _ Hkv) as [? Hcat]. split; [done|].
        cbn [snd] in Hcat. by rewrite Hcat. }
    pose proof (IH (d ++ new1) g1 Hnd Hd2) as H2.
    match goal with
    | |- context [sample_categories ?a ?b ?c ?st] =>
        destruct (sample_categories a b c st) as [e|[d2 g2]]
    end.
    { destruct H2 as (? & c' & ? & ?).
      split; [done|]. exists c'. split; [by right|done]. }
    destruct H2 as (Hlens & new2 & -> & Hl2 & Hnd2 & Hall2 & Hcnt2).
    split.
    { intros c' [->|?]%elem_of_cons; [done|by apply Hlens]. }
    exists (new1 ++ new2). split; [by rewrite app_assoc|].
    split; [rewrite length_app, Hl1, Hl2; cbn [length]; lia|].
    split.
    { rewrite fmap_app. apply NoDup_app. split; [done|]. split; [|done].
      intros k ([k1 v1] & -> & Hin1)%list_elem_of_fmap
               ([k2 v2] & Hk & Hin2)%list_elem_of_fmap.
      cbn [fst] in Hk. subst k2.
      destruct (Hall1 _ Hin1) as [Hg1 Hc1]. destruct (Hall2 _ _ Hin2) as [Hg2 Hc2].
      cbn [fst snd] in *. assert (v1 = v2) as -> by congruence.
      subst c. done. }
    split.
    { intros k v [Hkv|Hkv]%elem_of_app.
      - destruct (Hall1 _ Hkv) as [? Hcat]. split; [done|].
        cbn [snd] in Hcat. rewrite Hcat. by left.
      - destruct (Hall2 _ _ Hkv) as [? ?]. split; [done|by right]. }
    intros c' Hc'. unfold subset_of, odict.
    rewrite filter_app, fmap_app, length_app.
    rewrite !length_fmap. apply elem_of_cons in Hc' as [->|Hc'].
    + rewrite (filter_Forall_id _ new1), (filter_Forall_nil _ new2).
      * cbn [length]. lia.
      * apply Forall_forall. intros [k v] Hkv Hcat.
        destruct (Hall2 _ _ Hkv) as [_ Hin]. cbn [snd] in Hcat. by subst c.
      * apply Forall_forall. intros kv Hkv. by destruct (Hall1 _ Hkv).
    + rewrite (filter_Forall_nil _ new1).
      * pose proof (Hcnt2 c' Hc') as Hcnt. unfold subset_of, odict in Hcnt.
        rewrite length_fmap in Hcnt. cbn [length]. lia.
      * apply Forall_forall. intros kv Hkv Hcat.
        destruct (Hall1 _ Hkv) as [_ Hcat']. rewrite Hcat in Hcat'.
        apply Hc. by rewrite <- Hcat'.
Qed.

End SamplingFacts.

Lemma head_choice_without_replacement : without_replacement head_choice.
Proof.
  intros g pop n Hn. unfold head_choice. cbn [fst].
  split; [rewrite length_take; lia|].
  apply sublist_submseteq, sublist_take.
Qed.

(** X10: the cell "Sample the dataset" takes exactly 250 images of each
    label: if every category of [category_labels] has at least 250 images in
    [all_annos], [sample_annos] ends with 250 entries per category, each an
    entry of [all_annos] under its own id, no id twice, 250 times the number
    of labels in all; if some category has fewer than 250 images (or none),
    the cell raises [ValueError]. *)
Theorem X10_sample_has_250_images_of_each_label {Rng : Type}
    (choice : Rng → list Z → nat → list Z * Rng)
    (category_labels : odict string) (all_annos : odict Anno) (g : Rng)
    (Hchoice : without_replacement choice)
    (Hlabels : NoDup (od_keys category_labels))
    (Hall : NoDup (od_keys all_annos)) :
  match sample_annos_of choice category_labels all_annos g with
  | inr (sample_annos, _) =>
      (∀ c, c ∈ od_keys category_labels →
            250 ≤ length (subset_of all_annos c))
      ∧ length sample_annos = 250 * length category_labels
      ∧ NoDup (od_keys sample_annos)
      ∧ (∀ k v, (k, v) ∈ sample_annos →
                od_get k all_annos = Some v
                ∧ category_id v ∈ od_keys category_labels)
      ∧ (∀ c, c ∈ od_keys category_labels →
              length (subset_of sample_annos c) = 250)
  | inl e =>
      exn_class e = "ValueError"
      ∧ ∃ c, c ∈ od_keys category_labels
             ∧ length (subset_of all_annos c) < 250
  end.
Proof.
  unfold sample_annos_of.
  assert (∀ k v, (k, v) ∈ @nil (Z * Anno) →
                 od_get k all_annos = Some v
                 ∧ category_id v ∉ od_keys category_labels) as Hnil.
  { by intros k v ?%elem_of_nil. }
  pose proof (sample_categories_spec choice Hchoice all_annos Hall
                (od_keys category_labels) [] g Hlabels Hnil) as H.
  unfold odict in *.
  match goal with
  | |- context [sample_categories ?a ?b ?c ?st] =>
      destruct (sample_categories a b c st) as [e|[d g']]
  end; [done|].
  destruct H as (Hlen & new & Hd & Hl & Hnd & Hin & Hcnt).
  cbn [app] in Hd. subst new. split; [done|].
  split; [by rewrite Hl; unfold od_keys; rewrite length_fmap|]. done.
Qed.

Lemma X10_witness_two_labels :
  let category_labels := [(16, "bird"); (17, "cat")]%Z in
  let all_annos :=
    ((λ i : nat, (Z.of_nat i, mkAnno (16 + Z.of_nat (i mod 2)) None None))
       <$> seq 0 600) in
  match sample_annos_of head_choice category_labels all_annos () with
  | inr (sample_annos, _) =>
      (∀ c, c ∈ od_keys category_labels →
            250 ≤ length (subset_of all_annos c))
      ∧ length sample_annos = 250 * length category_labels
      ∧ NoDup (od_keys sample_annos)
      ∧ (∀ k v, (k, v) ∈ sample_annos →
                od_get k all_annos = Some v
                ∧ category_id v ∈ od_keys category_labels)
      ∧ (∀ c, c ∈ od_keys category_labels →
              length (subset_of sample_annos c) = 250)
  | inl e =>
      exn_class e = "ValueError"
      ∧ ∃ c, c ∈ od_keys category_labels
             ∧ length (subset_of all_annos c) < 250
  end.
Proof.
  intros category_labels all_annos.
  refine (X10_sample_has_250_images_of_each_label head_choice category_labels
            all_annos () head_choice_without_replacement _ _).
  - apply (bool_decide_unpack _). vm_compute. exact I.
  - apply (bool_decide_unpack _). vm_compute. exact I.
Defined.

Lemma foldl_max_ge (ks : list Z) : ∀ k0 : Z,
  (k0 ≤ foldl Z.max k0 ks)%Z ∧ ∀ k, k ∈ ks → (k ≤ foldl Z.max k0 ks)%Z.
Proof.
  induction ks as [|k1 ks IH]; intros k0; cbn [foldl].
  - split; [lia|by intros k ?%elem_of_nil].
  - destruct (IH (Z.max k0 k1)) as [H0 Hks]. split; [lia|].
    intros k [->|Hk]%elem_of_cons; [lia|by apply Hks].
Qed.

Lemma foldl_max_elem (ks : list Z) : ∀ k0 : Z, foldl Z.max k0 ks ∈ k0 :: ks.
Proof.
  induction ks as [|k1 ks IH]; intros k0; cbn [foldl]; [by left|].
  pose proof (IH (Z.max k0 k1)) as Hmax.
  apply elem_of_cons in Hmax as [Heq|Hin].
  - rewrite Heq. destruct (Z.max_spec k0 k1) as [[_ ->]|[_ ->]];
      [right; left|left].
  - right. by right.
Qed.

Lemma wrap64_id z : int64 z → wrap64 z = z.
Proof.
  unfold int64, wrap64. intros Hz. rewrite Z.mod_small by lia. lia.
Qed.

Lemma wrap64_over z : (2 ^ 63 ≤ z < 2 ^ 63 + 2 ^ 64)%Z → wrap64 z = (z - 2 ^ 64)%Z.
Proof.
  unfold wrap64. intros Hz.
  rewrite <- (Z.mod_unique_pos (z + 2 ^ 63) (2 ^ 64) 1 (z + 2 ^ 63 - 2 ^ 64))
    by lia.
  lia.
Qed.

(** The loop over a range as long as the file names that are left. *)
Lemma add_frogs_from_spec next rest : ∀ done d,
  (∀ k, k ∈ od_keys d → (k < next + Z.of_nat (length done))%Z) →
  add_frogs_from (length done)
    (seqZ (next + Z.of_nat (length done)) (Z.of_nat (length rest)))
    (done ++ rest) d
  = inr (d ++ imap (λ i f, ((next + Z.of_nat (length done + i))%Z,
                            mkAnno 26 None (Some (recorded_name f)))) rest).
Proof.
  induction rest as [|f rest IH]; intros done d Hd.
  - cbn [length imap]. rewrite seqZ_nil by lia. cbn [add_frogs_from].
    by rewrite app_nil_r.
  - rewrite seqZ_cons by (cbn [length]; lia). cbn [add_frogs_from].
    rewrite list_lookup_middle by done.
    rewrite od_set_new.
    2: { intros Hin. apply Hd in Hin. lia. }
    replace (Z.succ (next + Z.of_nat (length done)))
      with (next + Z.of_nat (length (done ++ [f])))%Z
      by (rewrite length_app; cbn [length]; lia).
    replace (Z.pred (Z.of_nat (length (f :: rest))))
      with (Z.of_nat (length rest)) by (cbn [length]; lia).
    replace (S (length done)) with (length (done ++ [f]))
      by (rewrite length_app; cbn [length]; lia).
    rewrite (cons_middle f done rest), app_assoc.
    rewrite IH.
    + rewrite <- app_assoc. cbn [app imap]. rewrite Nat.add_0_r.
      do 3 f_equal. apply imap_ext. intros i x _. cbn.
      rewrite length_app. cbn [length]. do 2 f_equal. lia.
    + intros k. unfold od_keys. rewrite fmap_app, elem_of_app, length_app.
      cbn [length]. intros [Hk|Hk]; [apply Hd in Hk; lia|].
      cbn in Hk. apply list_elem_of_singleton in Hk. lia.
Qed.

Lemma add_frogs_spec fns d :
  (∀ k, k ∈ od_keys d →
        (- 2 ^ 63 ≤ k ∧ k + Z.of_nat (length fns) + 1 < 2 ^ 63)%Z) →
  match add_frogs fns d with
  | inr d' =>
      ∃ next, (next - 1)%Z ∈ od_keys d
        ∧ (∀ k, k ∈ od_keys d → (k < next)%Z)
        ∧ d' = d ++ imap (λ i f, ((next + Z.of_nat i)%Z,
                                  mkAnno 26 None (Some (recorded_name f)))) fns
  | inl e => d = [] ∧ exn_class e = "ValueError"
  end.
Proof.
  intros Hroom. unfold add_frogs, next_anno_idx.
  destruct d as [|[k0 v0] d]; [done|].
  unfold od_keys in *. rewrite fmap_cons in *. cbn [fst] in *.
  destruct (foldl_max_ge d.*1 k0) as [H0 Hks].
  pose proof (foldl_max_elem d.*1 k0) as Hmax.
  set (m := foldl Z.max k0 d.*1) in *.
  destruct (Hroom m Hmax) as [Hlo Hhi].
  rewrite (wrap64_id (m + 1)) by (unfold int64; lia).
  unfold frog_anno_ids.
  rewrite (wrap64_id (m + 1 + Z.of_nat (length fns))) by (unfold int64; lia).
  replace (m + 1 + Z.of_nat (length fns) - (m + 1))%Z
    with (Z.of_nat (length fns)) by lia.
  pose proof (add_frogs_from_spec (m + 1) fns [] ((k0, v0) :: d)) as Hspec.
  cbn [length app] in Hspec. rewrite Z.add_0_r in Hspec.
  rewrite Hspec.
  - exists (m + 1)%Z. split; [|split; [|done]].
    + by replace (m + 1 - 1)%Z with m by lia.
    + intros k [->|Hk]%elem_of_cons; [lia|]. apply Hks in Hk. lia.
  - intros k. unfold od_keys. rewrite fmap_cons. cbn [fst].
    intros [->|Hk]%elem_of_cons; [lia|]. apply Hks in Hk. lia.
Qed.

(** Near the top of [int64] the range is empty. *)
Lemma add_frogs_overflow fns d :
  (∀ k, k ∈ od_keys d → (- 2 ^ 63 ≤ k ∧ k + 1 < 2 ^ 63)%Z) →
  (Z.of_nat (length fns) < 2 ^ 63)%Z →
  (∃ k, k ∈ od_keys d ∧ (2 ^ 63 ≤ k + 1 + Z.of_nat (length fns))%Z) →
  add_frogs fns d = inr d.
Proof.
  intros Hkeys Hn (k & Hk & Hfull). unfold add_frogs, next_anno_idx.
  destruct d as [|[k0 v0] d]; [by apply elem_of_nil in Hk|].
  unfold od_keys in *. rewrite fmap_cons in *. cbn [fst] in *.
  destruct (foldl_max_ge d.*1 k0) as [H0 Hks].
  pose proof (foldl_max_elem d.*1 k0) as Hmax.
  assert (k ≤ foldl Z.max k0 d.*1)%Z as Hle.
  { apply elem_of_cons in Hk as [->|Hk]; [done|by apply Hks]. }
  set (m := foldl Z.max k0 d.*1) in *.
  destruct (Hkeys m Hmax) as [Hlo Hhi].
  rewrite (wrap64_id (m + 1)) by (unfold int64; lia).
  unfold frog_anno_ids. rewrite wrap64_over by lia.
  rewrite seqZ_nil by lia. done.
Qed.

Lemma imap_keys_NoDup (next : Z) (fns : list string) :
  NoDup (imap (λ i f, ((next + Z.of_nat i)%Z,
                       mkAnno 26 None (Some (recorded_name f)))) fns).*1.
Proof.
  apply NoDup_alt. intros i j k Hi Hj.
  rewrite list_lookup_fmap in Hi, Hj.
  rewrite list_lookup_imap in Hi, Hj.
  destruct (fns !! i) as [fi|]; [|done]. destruct (fns !! j) as [fj|]; [|done].
  cbn in Hi, Hj. simplify_eq. lia.
Qed.

Lemma frogs_appended_NoDup (d : odict Anno) (next : Z) (fns : list string) :
  NoDup (od_keys d) →
  (∀ k, k ∈ od_keys d → (k < next)%Z) →
  NoDup (od_keys (d ++ imap (λ i f, ((next + Z.of_nat i)%Z,
                                     mkAnno 26 None (Some (recorded_name f))))
                           fns)).
Proof.
  intros Hnd Hlt. unfold od_keys. rewrite fmap_app. apply NoDup_app.
  split; [done|]. split; [|apply imap_keys_NoDup].
  intros k Hk Hin. apply Hlt in Hk.
  apply list_elem_of_fmap in Hin as ([k' v] & -> & Hin).
  apply list_elem_of_lookup in Hin as [i Hi].
  rewrite list_lookup_imap in Hi. destruct (fns !! i); [|done].
  cbn in Hi, Hk. simplify_eq. lia.
Qed.

Lemma od_keys_is_Some {V} (d : odict V) k : k ∈ od_keys d → is_Some (od_get k d).
Proof.
  intros Hk. destruct (od_get k d) eqn:Hg; [by eauto|].
  by apply od_get_None in Hg.
Qed.

(** X11: with ids that leave room below [2^63] (every id of [sample_annos]
    is an [int64] and stays one when the number of frog images and 1 are
    added), the frog annotations never replace an annotation: they go after
    the existing entries, in the order of the file names, under consecutive
    ids that start right above the largest id in [sample_annos], each with
    category 26, no URL and the file name with ".png" replaced by ".jpg".
    With no annotation at all the cell that takes the largest id raises
    [ValueError]. *)
Theorem X11_frog_annotations_get_fresh_ids
    (frog_filenames : list string) (sample_annos : odict Anno)
    (Hroom : ∀ k, k ∈ od_keys sample_annos →
                  (- 2 ^ 63 ≤ k
                   ∧ k + Z.of_nat (length frog_filenames) + 1 < 2 ^ 63)%Z) :
  match add_frogs frog_filenames sample_annos with
  | inr sample_annos' =>
      ∃ next_anno_idx,
        (next_anno_idx - 1)%Z ∈ od_keys sample_annos
        ∧ (∀ k, k ∈ od_keys sample_annos → (k < next_anno_idx)%Z)
        ∧ sample_annos'
          = sample_annos
            ++ imap (λ idx f, ((next_anno_idx + Z.of_nat idx)%Z,
                               mkAnno 26 None (Some (recorded_name f))))
                    frog_filenames
        ∧ length sample_annos' = length sample_annos + length frog_filenames
        ∧ (NoDup (od_keys sample_annos) → NoDup (od_keys sample_annos'))
  | inl e => sample_annos = [] ∧ exn_class e = "ValueError"
  end.
Proof.
  pose proof (add_frogs_spec frog_filenames sample_annos Hroom) as H.
  destruct (add_frogs frog_filenames sample_annos) as [e|d']; [done|].
  destruct H as (next & Hmax & Hlt & ->). exists next.
  split; [done|]. split; [done|]. split; [done|].
  split; [by rewrite length_app, length_imap|].
  intros Hnd. by apply frogs_appended_NoDup.
Qed.

Lemma X11_witness_two_frogs :
  let frog_filenames := ["frog_s_000001.png"; "frog_s_000002.png"] in
  let sample_annos :=
    [(139, mkAnno 17 (Some "http://images/139.jpg") (Some "139.jpg"));
     (42, mkAnno 18 (Some "http://images/42.jpg") (Some "42.jpg"))]%Z in
  add_frogs frog_filenames sample_annos
  = inr (sample_annos
         ++ [(140, mkAnno 26 None (Some "frog_s_000001.jpg"));
             (141, mkAnno 26 None (Some "frog_s_000002.jpg"))]%Z)
  ∧ match add_frogs frog_filenames sample_annos with
    | inr sample_annos' =>
        ∃ next_anno_idx,
          (next_anno_idx - 1)%Z ∈ od_keys sample_annos
          ∧ (∀ k, k ∈ od_keys sample_annos → (k < next_anno_idx)%Z)
          ∧ sample_annos'
            = sample_annos
              ++ imap (λ idx f, ((next_anno_idx + Z.of_nat idx)%Z,
                                 mkAnno 26 None (Some (recorded_name f))))
                      frog_filenames
          ∧ length sample_annos' = length sample_annos + length frog_filenames
          ∧ (NoDup (od_keys sample_annos) → NoDup (od_keys sample_annos'))
    | inl e => sample_annos = [] ∧ exn_class e = "ValueError"
    end.
Proof.
  intros frog_filenames sample_annos. split; [vm_compute; reflexivity|].
  apply (X11_frog_annotations_get_fresh_ids frog_filenames sample_annos).
  intros k Hk. cbn in Hk.
  repeat (apply elem_of_cons in Hk as [->|Hk]; [cbn; lia|]).
  by apply elem_of_nil in Hk.
Defined.

(** X21: near the top of [int64] the frog annotations are dropped without
    an error.  When every id of [sample_annos] is an [int64] below
    [2^63 - 1] but the largest id plus 1 plus the number of frog images
    reaches [2^63], the bound of the range wraps around to a negative
    number, the range is empty, and the cell leaves [sample_annos] as it
    was: no frog image gets an annotation. *)
Theorem X21_frogs_are_dropped_when_the_range_bound_wraps
    (frog_filenames : list string) (sample_annos : odict Anno)
    (Hkeys : ∀ k, k ∈ od_keys sample_annos →
                  (- 2 ^ 63 ≤ k ∧ k + 1 < 2 ^ 63)%Z)
    (Hfrogs : (Z.of_nat (length frog_filenames) < 2 ^ 63)%Z)
    (Hfull : ∃ k, k ∈ od_keys sample_annos
                  ∧ (2 ^ 63 ≤ k + 1 + Z.of_nat (length frog_filenames))%Z) :
  add_frogs frog_filenames sample_annos = inr sample_annos.
Proof. by apply add_frogs_overflow. Qed.

Lemma X21_witness_last_but_one_id :
  let frog_filenames := ["frog_s_000001.png"; "frog_s_000002.png"] in
  let sample_annos :=
    [(139, mkAnno 17 (Some "http://images/139.jpg") (Some "139.jpg"));
     (9223372036854775806, mkAnno 18 (Some "http://images/x.jpg") (Some "x.jpg"))]%Z in
  (9223372036854775806 = 2 ^ 63 - 2)%Z
  ∧ add_frogs frog_filenames sample_annos = inr sample_annos.
Proof.
  intros frog_filenames sample_annos. split; [reflexivity|].
  apply (X21_frogs_are_dropped_when_the_range_bound_wraps
           frog_filenames sample_annos).
  - intros k Hk. cbn in Hk.
    repeat (apply elem_of_cons in Hk as [->|Hk]; [cbn; lia|]).
    by apply elem_of_nil in Hk.
  - cbn. lia.
  - exists 9223372036854775806%Z. split; [|cbn; lia].
    cbn. right. left.
Defined.


Section NotebookFacts.
Context {Rng : Type}.
Variable choice : Rng → list Z → nat → list Z * Rng.
Hypothesis choice_ok : without_replacement choice.


End NotebookFacts.



(** * The copy cell of the structuring notebook *)

Section StructureFacts.
Context {Fs : Type}.
Variable fs_do : fs_op → Fs → option exn * Fs.
Variable category_labels : odict string.
Variable sample_annos : odict Anno.

Local Abbreviation run_ops := (perform_all fs_do).
Local Abbreviation ops_of := (image_ops category_labels sample_annos).
Local Abbreviation can_copy := (copyable category_labels sample_annos).

Lemma perform_all_app ops1 ops2 (w : FsWorld Fs) :
  run_ops (ops1 ++ ops2) w
  = match run_ops ops1 w with
    | (Some e, w1) => (Some e, w1)
    | (None, w1) => run_ops ops2 w1
    end.
Proof.
  revert w. induction ops1 as [|op ops1 IH]; intros w; [done|].
  cbn [app perform_all]. destruct (perform fs_do op w) as [[e|] w1]; [done|].
  apply IH.
Qed.

Lemma perform_all_spec ops : ∀ w : FsWorld Fs,
  ∃ done,
    (run_ops ops w).2.2 = w.2 ++ done
    ∧ done `prefix_of` ops
    ∧ ((run_ops ops w).1 = None → done = ops)
    ∧ (∀ e, (run_ops ops w).1 = Some e →
            ∃ op s, op ∈ ops ∧ (fs_do op s).1 = Some e)
    ∧ ((∀ op s, op ∈ ops → (fs_do op s).1 = None) → (run_ops ops w).1 = None).
Proof.
  induction ops as [|op ops IH]; intros w.
  - exists []. cbn. rewrite app_nil_r. split_and!; try done.
  - cbn [perform_all]. unfold perform.
    destruct (fs_do op w.1) as [r s] eqn:Hop. destruct r as [e|].
    + exists [op]. cbn [fst snd]. split; [done|].
      split; [by exists ops|]. split; [done|]. split.
      * intros e' [= <-]. exists op, w.1. split; [by left|by rewrite Hop].
      * intros Hq. specialize (Hq op w.1 ltac:(left)). by rewrite Hop in Hq.
    + destruct (IH (s, w.2 ++ [op])) as (done & Htr & Hpre & Hnone & Hsome & Hq).
      exists (op :: done). cbn [fst snd] in *.
      split; [by rewrite Htr, <- app_assoc|].
      split; [by apply prefix_cons|].
      split; [by intros ->%Hnone|]. split.
      * intros e He. destruct (Hsome e He) as (op' & s' & Hin & Hs').
        exists op', s'. split; [by right|done].
      * intros Hq'. apply Hq. intros op' s' Hin. apply Hq'. by right.
Qed.

Lemma copy_images_ops name split : ∀ w : FsWorld Fs,
  Forall can_copy split →
  copy_images fs_do category_labels sample_annos (struct_dir ++ [name]) split w
  = run_ops (split ≫= ops_of name) w.
Proof.
  induction split as [|id split IH]; intros w Hc; [done|].
  apply Forall_cons in Hc as [(anno & label & fn & Ha & Hl & Hf) Hc].
  cbn [copy_images mbind list_bind]. change (mbind ?f ?l) with (l ≫= f).
  unfold image_ops at 1. rewrite Ha, Hl, Hf. cbn [app perform_all].
  change ((struct_dir ++ [name]) ++ [label]) with (struct_dir ++ [name; label]).
  destruct (perform fs_do (Mkdir _) w) as [[e|] w1]; [done|].
  change ((struct_dir ++ [name; label]) ++ [fn])
    with (struct_dir ++ [name; label; fn]).
  destruct (perform fs_do (Copy _ _) w1) as [[e|] w2]; [done|].
  by apply IH.
Qed.

Lemma structure_cell_ops train_ids val_ids test_ids (w : FsWorld Fs) :
  Forall can_copy (train_ids ++ val_ids ++ test_ids) →
  structure_cell fs_do category_labels sample_annos train_ids val_ids test_ids w
  = run_ops (cell_ops category_labels sample_annos train_ids val_ids test_ids) w.
Proof.
  intros [Ht [Hv Hs]%Forall_app]%Forall_app.
  unfold structure_cell, cell_ops, split_ops. cbn [perform_all structure_splits].
  destruct (perform fs_do (MkdirParents _) w) as [[e|] w0]; [done|].
  cbn [app perform_all].
  destruct (perform fs_do (Mkdir _) w0) as [[e|] w1]; [done|].
  rewrite copy_images_ops by done. rewrite perform_all_app.
  destruct (run_ops _ w1) as [[e|] w2]; [done|].
  cbn [app perform_all].
  destruct (perform fs_do (Mkdir _) w2) as [[e|] w3]; [done|].
  rewrite copy_images_ops by done. rewrite perform_all_app.
  destruct (run_ops _ w3) as [[e|] w4]; [done|].
  cbn [perform_all].
  destruct (perform fs_do (Mkdir _) w4) as [[e|] w5]; [done|].
  rewrite copy_images_ops by done.
  by destruct (run_ops _ w5) as [[e|] w6].
Qed.

Lemma copies_app ops1 ops2 : copies (ops1 ++ ops2) = copies ops1 ++ copies ops2.
Proof. unfold copies. apply bind_app. Qed.

Lemma copies_image_ops name split :
  Forall can_copy split →
  Forall2 (copied_as category_labels sample_annos name) split
          (copies (split ≫= ops_of name)).
Proof.
  induction 1 as [|id split (anno & label & fn & Ha & Hl & Hf) _ IH];
    [constructor|].
  cbn [mbind list_bind]. change (mbind ?f ?l) with (l ≫= f).
  rewrite copies_app. unfold image_ops at 1. rewrite Ha, Hl, Hf.
  cbn [copies mbind list_bind app]. constructor; [|done].
  by exists anno, label, fn.
Qed.

Lemma copies_cell_ops train_ids val_ids test_ids :
  copies (cell_ops category_labels sample_annos train_ids val_ids test_ids)
  = copies (train_ids ≫= ops_of "train")
    ++ copies (val_ids ≫= ops_of "val")
    ++ copies (test_ids ≫= ops_of "test").
Proof.
  unfold cell_ops, split_ops.
  change (MkdirParents struct_dir :: ?l) with ([MkdirParents struct_dir] ++ l).
  change (Mkdir ?d :: ?l) with ([Mkdir d] ++ l).
  by rewrite !copies_app.
Qed.

Lemma led_by_mkdir_app ops1 ops2 :
  led_by_mkdir ops1 → led_by_mkdir ops2 → led_by_mkdir (ops1 ++ ops2).
Proof.
  intros H1 H2 i src dst Hi. destruct (decide (i < length ops1)) as [Hlt|Hge].
  - rewrite lookup_app_l in Hi by done.
    destruct (H1 i src dst Hi) as (j & -> & Hj). exists j. split; [done|].
    rewrite lookup_app_l by lia. done.
  - rewrite lookup_app_r in Hi by lia.
    destruct (H2 _ src dst Hi) as (j & Hij & Hj). exists (length ops1 + j).
    split; [lia|]. rewrite lookup_app_r by lia.
    by replace (length ops1 + j - length ops1) with j by lia.
Qed.

Lemma led_by_mkdir_prefix ops1 ops2 :
  ops1 `prefix_of` ops2 → led_by_mkdir ops2 → led_by_mkdir ops1.
Proof.
  intros [k ->] H i src dst Hi.
  pose proof (lookup_lt_Some _ _ _ Hi) as Hlt.
  destruct (H i src dst) as (j & -> & Hj).
  { by rewrite lookup_app_l. }
  exists j. split; [done|]. by rewrite lookup_app_l in Hj by lia.
Qed.

Lemma led_by_mkdir_one op :
  (∀ src dst, op ≠ Copy src dst) → led_by_mkdir [op].
Proof.
  intros Hop [|i] src dst Hi; [|done]. cbn in Hi. simplify_eq. by destruct (Hop src dst).
Qed.

Lemma led_by_mkdir_images name split : led_by_mkdir (split ≫= ops_of name).
Proof.
  induction split as [|id split IH]; [by intros i ? ? ?|].
  cbn [mbind list_bind]. change (mbind ?f ?l) with (l ≫= f).
  apply led_by_mkdir_app; [|done]. unfold image_ops.
  destruct (od_get id sample_annos) as [anno|]; [|by intros i ? ? ?].
  destruct (od_get (category_id anno) category_labels) as [label|];
    [|by intros i ? ? ?].
  destruct (file_name anno) as [fn|]; [|by intros i ? ? ?].
  intros [|[|i]] src dst Hi; [done| |done].
  cbn in Hi. simplify_eq. by exists 0.
Qed.

Lemma led_by_mkdir_cell train_ids val_ids test_ids :
  led_by_mkdir (cell_ops category_labels sample_annos train_ids val_ids test_ids).
Proof.
  unfold cell_ops, split_ops.
  change (MkdirParents struct_dir :: ?l) with ([MkdirParents struct_dir] ++ l).
  change (Mkdir ?d :: ?l) with ([Mkdir d] ++ l).
  repeat (apply led_by_mkdir_app);
    try apply led_by_mkdir_images; by apply led_by_mkdir_one.
Qed.

Lemma perform_outcome op (w w' : FsWorld Fs) e :
  perform fs_do op w = (Some e, w') → ∃ op s, (fs_do op s).1 = Some e.
Proof.
  unfold perform. destruct (fs_do op w.1) as [r s] eqn:Hop. intros [= -> _].
  exists op, w.1. by rewrite Hop.
Qed.

Lemma copy_images_outcome dir split : ∀ w : FsWorld Fs,
  match (copy_images fs_do category_labels sample_annos dir split w).1 with
  | None => Forall can_copy split
  | Some e =>
      (exn_class e = "KeyError" ∧ Exists (λ id, ¬ can_copy id) split)
      ∨ ∃ op s, (fs_do op s).1 = Some e
  end.
Proof.
  induction split as [|id split IH]; intros w; [constructor|].
  cbn [copy_images].
  destruct (od_get id sample_annos) as [anno|] eqn:Ha.
  2: { left. split; [done|]. left. intros (? & ? & ? & ? & _). congruence. }
  destruct (od_get (category_id anno) category_labels) as [label|] eqn:Hl.
  2: { left. split; [done|]. left. intros (? & ? & ? & ? & ? & _). congruence. }
  destruct (perform fs_do (Mkdir _) w) as [[e|] w1] eqn:Hm.
  { right. eapply perform_outcome, Hm. }
  destruct (file_name anno) as [fn|] eqn:Hf.
  2: { left. split; [done|]. left. intros (? & ? & ? & ? & ? & ?). congruence. }
  destruct (perform fs_do (Copy _ _) w1) as [[e|] w2] eqn:Hc.
  { right. eapply perform_outcome, Hc. }
  specialize (IH w2).
  destruct (copy_images fs_do category_labels sample_annos dir split w2).1
    as [e|].
  - destruct IH as [[? ?]|?]; [left|by right]. split; [done|by right].
  - constructor; [|done]. by exists anno, label, fn.
Qed.

Lemma structure_splits_outcome splits : ∀ w : FsWorld Fs,
  match (structure_splits fs_do category_labels sample_annos splits w).1 with
  | None => Forall can_copy (splits ≫= snd)
  | Some e =>
      (exn_class e = "KeyError" ∧ Exists (λ id, ¬ can_copy id) (splits ≫= snd))
      ∨ ∃ op s, (fs_do op s).1 = Some e
  end.
Proof.
  induction splits as [|[name split] splits IH]; intros w; [constructor|].
  cbn [structure_splits mbind list_bind snd].
  change (mbind ?f ?l) with (l ≫= f).
  destruct (perform fs_do (Mkdir _) w) as [[e|] w1] eqn:Hm.
  { right. eapply perform_outcome, Hm. }
  pose proof (copy_images_outcome (struct_dir ++ [name]) split w1) as Hc.
  destruct (copy_images fs_do category_labels sample_annos _ split w1)
    as [[e|] w2]; cbn [fst] in *.
  { destruct Hc as [[? ?]|?]; [left|by right]. split; [done|].
    apply Exists_app. by left. }
  specialize (IH w2).
  destruct (structure_splits fs_do category_labels sample_annos splits w2).1
    as [e|].
  - destruct IH as [[? ?]|?]; [left|by right]. split; [done|].
    apply Exists_app. by right.
  - apply Forall_app. done.
Qed.

Lemma structure_cell_outcome train_ids val_ids test_ids (w : FsWorld Fs) :
  match (structure_cell fs_do category_labels sample_annos
           train_ids val_ids test_ids w).1 with
  | None => Forall can_copy (train_ids ++ val_ids ++ test_ids)
  | Some e =>
      (exn_class e = "KeyError"
       ∧ Exists (λ id, ¬ can_copy id) (train_ids ++ val_ids ++ test_ids))
      ∨ ∃ op s, (fs_do op s).1 = Some e
  end.
Proof.
  unfold structure_cell.
  destruct (perform fs_do (MkdirParents _) w) as [[e|] w1] eqn:Hm.
  { right. eapply perform_outcome, Hm. }
  pose proof (structure_splits_outcome
                [("train", train_ids); ("val", val_ids); ("test", test_ids)] w1)
    as H.
  cbn [mbind list_bind snd] in H. rewrite app_nil_r in H. done.
Qed.

End StructureFacts.

(** X13: when every image id of the three splits has an annotation with a
    labelled category and a file name, the copy cell looks up nothing that
    is missing, and what it asks of the file system is a prefix of one
    plan: make [data_structured] with its parents, then for each of
    "train", "val", "test" in this order make the split directory and, for
    each image id of the split in order, make
    [data_structured/<split>/<label>] and copy
    [data_sample_2750/<file name>] to
    [data_structured/<split>/<label>/<file name>].  Every copy comes right
    after the [mkdir] of its target directory.  The cell ends normally only
    with the whole plan carried out; an exception that leaves it is one the
    file system raised on an operation of the plan, and when the file
    system raises on none the cell ends normally. *)
Theorem X13_copy_cell_follows_its_plan {Fs : Type}
    (fs_do : fs_op → Fs → option exn * Fs)
    (category_labels : odict string) (sample_annos : odict Anno)
    (train_ids val_ids test_ids : list Z) (w : FsWorld Fs)
    (Hids : Forall (copyable category_labels sample_annos)
                   (train_ids ++ val_ids ++ test_ids)) :
  let plan := cell_ops category_labels sample_annos train_ids val_ids test_ids in
  let run := structure_cell fs_do category_labels sample_annos
               train_ids val_ids test_ids w in
  ∃ done,
    run.2.2 = w.2 ++ done
    ∧ done `prefix_of` plan
    ∧ led_by_mkdir done
    ∧ (run.1 = None → done = plan)
    ∧ (∀ e, run.1 = Some e → ∃ op s, op ∈ plan ∧ (fs_do op s).1 = Some e)
    ∧ ((∀ op s, op ∈ plan → (fs_do op s).1 = None) → run.1 = None)
    ∧ ∃ train_copies val_copies test_copies,
        copies plan = train_copies ++ val_copies ++ test_copies
        ∧ Forall2 (copied_as category_labels sample_annos "train")
                  train_ids train_copies
        ∧ Forall2 (copied_as category_labels sample_annos "val")
                  val_ids val_copies
        ∧ Forall2 (copied_as category_labels sample_annos "test")
                  test_ids test_copies.
Proof.
  intros plan run. unfold run. rewrite structure_cell_ops by done. fold plan.
  destruct (perform_all_spec fs_do plan w) as (done & Htr & Hpre & Hn & He & Hq).
  exists done. split; [done|]. split; [done|].
  split.
  { eapply led_by_mkdir_prefix; [done|]. apply led_by_mkdir_cell. }
  split; [done|]. split; [done|]. split; [done|].
  apply Forall_app in Hids as [Ht [Hv Hs]%Forall_app].
  eexists _, _, _. split; [apply copies_cell_ops|].
  split; [|split]; by apply copies_image_ops.
Qed.

Lemma X13_witness_disk_full :
  let category_labels := [(16, "bird"); (26, "frog")]%Z in
  let sample_annos :=
    [(7, mkAnno 16 (Some "http://images/7.jpg") (Some "7.jpg"));
     (9, mkAnno 26 None (Some "frog_s_000001.jpg"));
     (8, mkAnno 16 (Some "http://images/8.jpg") (Some "8.jpg"))]%Z in
  let plan := cell_ops category_labels sample_annos [7; 9]%Z [8]%Z [] in
  let run := structure_cell (full_fs 4) category_labels sample_annos
               [7; 9]%Z [8]%Z [] (0, []) in
  ∃ done,
    run.2.2 = [] ++ done
    ∧ done `prefix_of` plan
    ∧ led_by_mkdir done
    ∧ (run.1 = None → done = plan)
    ∧ (∀ e, run.1 = Some e → ∃ op s, op ∈ plan ∧ (full_fs 4 op s).1 = Some e)
    ∧ ((∀ op s, op ∈ plan → (full_fs 4 op s).1 = None) → run.1 = None)
    ∧ ∃ train_copies val_copies test_copies,
        copies plan = train_copies ++ val_copies ++ test_copies
        ∧ Forall2 (copied_as category_labels sample_annos "train")
                  [7; 9]%Z train_copies
        ∧ Forall2 (copied_as category_labels sample_annos "val")
                  [8]%Z val_copies
        ∧ Forall2 (copied_as category_labels sample_annos "test")
                  [] test_copies.
Proof.
  intros category_labels sample_annos plan run.
  apply (X13_copy_cell_follows_its_plan (full_fs 4) category_labels sample_annos
           [7; 9]%Z [8]%Z [] (0, [])).
  repeat constructor.
  - by eexists _, _, _.
  - by eexists _, _, _.
  - by eexists _, _, _.
Defined.

(** X14: the copy cell ends normally only if every image id of the three
    splits has an annotation with a labelled category and a file name.  An
    exception that leaves it is either one the file system raised, or a
    [KeyError], and then some image id of the splits lacks its annotation,
    the label of its category or its file name. *)
Theorem X14_copy_cell_needs_label_and_file_name {Fs : Type}
    (fs_do : fs_op → Fs → option exn * Fs)
    (category_labels : odict string) (sample_annos : odict Anno)
    (train_ids val_ids test_ids : list Z) (w : FsWorld Fs) :
  match (structure_cell fs_do category_labels sample_annos
           train_ids val_ids test_ids w).1 with
  | None =>
      Forall (copyable category_labels sample_annos)
             (train_ids ++ val_ids ++ test_ids)
  | Some e =>
      (exn_class e = "KeyError"
       ∧ Exists (λ id, ¬ copyable category_labels sample_annos id)
                (train_ids ++ val_ids ++ test_ids))
      ∨ ∃ op s, (fs_do op s).1 = Some e
  end.
Proof. apply structure_cell_outcome. Qed.

Lemma dom_list_to_map_keys (sample_annos : odict Anno) :
  NoDup (od_keys sample_annos) →
  elements (dom (list_to_map sample_annos : gmap Z Anno)) ≡ₚ od_keys sample_annos.
Proof.
  intros Hnd. rewrite dom_list_to_map_L. by apply elements_list_to_set.
Qed.

Lemma ready_copyable category_labels sample_annos id :
  ready category_labels sample_annos →
  id ∈ od_keys sample_annos →
  copyable category_labels sample_annos id.
Proof.
  intros Hready [anno Ha]%od_keys_is_Some.
  destruct (Hready id anno (od_get_elem _ _ _ Ha)) as [[label Hl] [fn Hf]].
  by exists anno, label, fn.
Qed.

Lemma Forall2_copied_split category_labels sample_annos name ids cs :
  name ∈ ["train"; "val"; "test"] →
  Forall2 (copied_as category_labels sample_annos name) ids cs →
  Forall2 (λ id c, ∃ name, name ∈ ["train"; "val"; "test"]
                     ∧ copied_as category_labels sample_annos name id c) ids cs.
Proof.
  intros Hn HF. eapply Forall2_impl; [exact HF|].
  intros id c Hc. by exists name.
Qed.

Lemma split_and_copy_spec {Fs : Type}
    (fs_do : fs_op → Fs → option exn * Fs) (shuffle : list Z → list Z)
    (category_labels : odict string) (sample_annos : odict Anno)
    (w : FsWorld Fs)
    (Hshuffle : ∀ l, shuffle l ≡ₚ l)
    (Hready : ready category_labels sample_annos)
    (Hkeys : NoDup (od_keys sample_annos))
    (Hsize : (Z.of_nat (length sample_annos) < 2 ^ 48)%Z)
    (Hfs : ∀ op s, (fs_do op s).1 = None) :
  ∃ train_ids val_ids test_ids done,
    split_cell shuffle (list_to_map sample_annos : gmap Z Anno)
    = [train_ids; val_ids; test_ids]
    ∧ train_ids ++ val_ids ++ test_ids ≡ₚ od_keys sample_annos
    ∧ (structure_cell fs_do category_labels sample_annos
         train_ids val_ids test_ids w).1 = None
    ∧ (structure_cell fs_do category_labels sample_annos
         train_ids val_ids test_ids w).2.2 = w.2 ++ done
    ∧ Forall2 (λ id c, ∃ name, name ∈ ["train"; "val"; "test"]
                         ∧ copied_as category_labels sample_annos name id c)
              (train_ids ++ val_ids ++ test_ids) (copies done)
    ∧ length (copies done) = length sample_annos.
Proof.
  set (m := list_to_map sample_annos : gmap Z Anno).
  set (ids := image_ids shuffle m).
  assert (ids ≡ₚ od_keys sample_annos) as Hperm.
  { unfold ids. rewrite (image_ids_perm shuffle Hshuffle m).
    by apply dom_list_to_map_keys. }
  assert (length ids = length sample_annos) as Hlen.
  { rewrite Hperm. unfold od_keys. by rewrite length_fmap. }
  destruct (floor_indices_ordered (length ids)) as [Hij Hj].
  destruct (np_split_two ids (first_80 (length ids)) (next_10 (length ids)))
    as (a & b & c & Hsplit & Hcat & _).
  { rewrite first_80_floor, next_10_floor by lia. done. }
  { rewrite next_10_floor by lia. done. }
  assert (Forall (copyable category_labels sample_annos) (a ++ b ++ c)) as Hc.
  { rewrite Hcat. apply Forall_forall. intros id Hid.
    apply ready_copyable; [done|]. by rewrite <- Hperm. }
  destruct (perform_all_spec fs_do
              (cell_ops category_labels sample_annos a b c) w)
    as (done & Htr & _ & Hn & _ & Hq).
  rewrite <- (structure_cell_ops fs_do category_labels sample_annos a b c w Hc)
    in Htr, Hn, Hq.
  specialize (Hq (λ op s _, Hfs op s)). specialize (Hn Hq).
  exists a, b, c, done. split; [done|]. split; [by rewrite Hcat|].
  split; [done|]. split; [done|].
  apply Forall_app in Hc as [Ha [Hb Hc]%Forall_app].
  assert (Forall2 (λ id c, ∃ name, name ∈ ["train"; "val"; "test"]
                     ∧ copied_as category_labels sample_annos name id c)
                  (a ++ b ++ c) (copies done)) as HF.
  { rewrite Hn, copies_cell_ops. repeat apply Forall2_app.
    - eapply Forall2_copied_split; [|by apply copies_image_ops]. set_solver.
    - eapply Forall2_copied_split; [|by apply copies_image_ops]. set_solver.
    - eapply Forall2_copied_split; [|by apply copies_image_ops]. set_solver. }
  split; [done|].
  apply Forall2_length in HF. rewrite <- HF, Hcat. done.
Qed.


(** X15: the split cell and the copy cell together file every annotated
    image exactly once.  For annotations with unique ids that all have a
    labelled category and a file name (fewer than 2^48 of them), a shuffle
    that permutes, and a file system that raises on nothing, the copy cell
    run on the three pieces of the split ends normally, and its copies
    correspond one to one, in order, to a permutation of the ids of
    [sample_annos]: the image of each id is copied from
    [data_sample_2750/<file name>] to
    [data_structured/<split>/<label>/<file name>] for one split among train,
    val and test, so there are as many copies as annotations. *)
Theorem X15_every_annotated_image_is_copied_once {Fs : Type}
    (fs_do : fs_op → Fs → option exn * Fs) (shuffle : list Z → list Z)
    (category_labels : odict string) (sample_annos : odict Anno)
    (w : FsWorld Fs)
    (Hshuffle : ∀ l, shuffle l ≡ₚ l)
    (Hready : ready category_labels sample_annos)
    (Hkeys : NoDup (od_keys sample_annos))
    (Hsize : (Z.of_nat (length sample_annos) < 2 ^ 48)%Z)
    (Hfs : ∀ op s, (fs_do op s).1 = None) :
  ∃ train_ids val_ids test_ids done,
    split_cell shuffle (list_to_map sample_annos : gmap Z Anno)
    = [train_ids; val_ids; test_ids]
    ∧ train_ids ++ val_ids ++ test_ids ≡ₚ od_keys sample_annos
    ∧ (structure_cell fs_do category_labels sample_annos
         train_ids val_ids test_ids w).1 = None
    ∧ (structure_cell fs_do category_labels sample_annos
         train_ids val_ids test_ids w).2.2 = w.2 ++ done
    ∧ Forall2 (λ id c, ∃ name, name ∈ ["train"; "val"; "test"]
                         ∧ copied_as category_labels sample_annos name id c)
              (train_ids ++ val_ids ++ test_ids) (copies done)
    ∧ length (copies done) = length sample_annos.
Proof.
  by apply split_and_copy_spec.
Qed.

Lemma X15_witness_five_images :
  let category_labels := [(16, "bird"); (26, "frog")]%Z in
  let sample_annos :=
    [(7, mkAnno 16 (Some "http://images/7.jpg") (Some "7.jpg"));
     (3, mkAnno 16 (Some "http://images/3.jpg") (Some "3.jpg"));
     (12, mkAnno 16 (Some "http://images/12.jpg") (Some "12.jpg"));
     (13, mkAnno 26 None (Some "frog_s_000001.jpg"));
     (14, mkAnno 26 None (Some "frog_s_000002.jpg"))]%Z in
  ∃ train_ids val_ids test_ids done,
    split_cell reverse (list_to_map sample_annos : gmap Z Anno)
    = [train_ids; val_ids; test_ids]
    ∧ train_ids ++ val_ids ++ test_ids ≡ₚ od_keys sample_annos
    ∧ (structure_cell counting_fs category_labels sample_annos
         train_ids val_ids test_ids (0, [])).1 = None
    ∧ (structure_cell counting_fs category_labels sample_annos
         train_ids val_ids test_ids (0, [])).2.2 = [] ++ done
    ∧ Forall2 (λ id c, ∃ name, name ∈ ["train"; "val"; "test"]
                         ∧ copied_as category_labels sample_annos name id c)
              (train_ids ++ val_ids ++ test_ids) (copies done)
    ∧ length (copies done) = length sample_annos.
Proof.
  intros category_labels sample_annos.
  apply (X15_every_annotated_image_is_copied_once counting_fs reverse
           category_labels sample_annos (0, [])).
  - exact reverse_Permutation.
  - intros k v Hin. unfold sample_annos in Hin.
    repeat (apply elem_of_cons in Hin as [Hin|Hin];
            [injection Hin as -> ->; split; by eexists|]).
    by apply elem_of_nil in Hin.
  - apply (bool_decide_unpack _). vm_compute. exact I.
  - vm_compute. reflexivity.
  - reflexivity.
Defined.

(** * The names of the frog images *)

Lemma string_length_app s t :
  String.length (s +:+ t) = String.length s + String.length t.
Proof. by rewrite <- !chars_length, chars_app, length_app. Qed.

Lemma endswith_app u suffix : endswith (u +:+ suffix) suffix = true.
Proof.
  unfold endswith. apply bool_decide_eq_true. rewrite string_length_app.
  split; [|lia]. apply chars_inj. rewrite chars_substring, chars_app.
  replace (String.length u + String.length suffix - String.length suffix)
    with (length (chars u)) by (rewrite chars_length; lia).
  rewrite drop_app_length, <- chars_length. apply firstn_all.
Qed.

Lemma endswith_inv s suffix :
  endswith s suffix = true → ∃ t, s = t +:+ suffix.
Proof.
  unfold endswith. intros [Hs Hlen]%bool_decide_eq_true.
  exists (String.substring 0 (String.length s - String.length suffix) s).
  assert (chars suffix
          = take (String.length suffix)
                 (drop (String.length s - String.length suffix) (chars s)))
    as Hc by (by rewrite <- chars_substring, Hs).
  apply chars_inj. rewrite chars_app, chars_substring, drop_0, Hc.
  rewrite (take_ge (drop _ _)) by (rewrite length_drop, chars_length; lia).
  by rewrite take_drop.
Qed.

Lemma replace_absent old new s :
  (∀ i, String.substring i (String.length old) s ≠ old) →
  str_replace old new s = s.
Proof.
  unfold str_replace. induction s as [|c s IH]; intros H; [done|].
  cbn [replace_from]. destruct (String.prefix old (String c s)) eqn:Hp.
  - apply String.prefix_correct in Hp. by destruct (H 0).
  - f_equal. apply IH. intros i Hi. apply (H (S i)).
    destruct (String.length old); done.
Qed.

Lemma prefix_cons_inv a p s :
  String.prefix (String a p) s = true →
  ∃ s', s = String a s' ∧ String.prefix p s' = true.
Proof.
  destruct s as [|b s]; [done|]. cbn [String.prefix].
  destruct (Ascii.ascii_dec a b) as [->|]; [|done]. by exists s.
Qed.

Lemma replace_png_ends t : ∀ k,
  (∀ i, i < k → String.get i (t +:+ ".png") ≠ String.get 0 ".") →
  ∃ u, replace_from k ".png" ".jpg" (t +:+ ".png") = u +:+ ".jpg".
Proof.
  induction t as [|c t IH]; intros k Hk.
  - destruct k as [|k]; [by exists EmptyString|].
    by destruct (Hk 0 ltac:(lia)).
  - rewrite string_app_cons. cbn [replace_from]. destruct k as [|k].
    + destruct (String.prefix ".png" (String c (t +:+ ".png"))) eqn:Hp.
      * apply prefix_cons_inv in Hp as (s1 & [= -> Hs1] & Hp).
        apply prefix_cons_inv in Hp as (s2 & -> & Hp).
        apply prefix_cons_inv in Hp as (s3 & -> & Hp).
        apply prefix_cons_inv in Hp as (s4 & -> & _).
        destruct (IH 3) as [u Hu].
        { rewrite Hs1. intros [|[|[|i]]] Hi; cbn; try done. lia. }
        exists (".jpg" +:+ u). cbn [String.length Nat.sub].
        by rewrite Hu, string_app_assoc.
      * destruct (IH 0) as [u Hu]; [intros i Hi; lia|].
        exists (String c u). by rewrite Hu.
    + destruct (IH k) as [u Hu].
      { intros i Hi. apply (Hk (S i)). lia. }
      by exists u.
Qed.

(** X16: a frog image is written under [written_name] of its CIFAR file
    name and recorded in [sample_annos] under [recorded_name] of it; the
    first replaces ".png" only in a name that ends with it, the second
    always.  For a name that ends with ".png" the two agree and the name
    ends with ".jpg"; for a name without ".png" both are the name itself.
    So the file recorded is the file written for every name of one of these
    two kinds. *)
Theorem X16_frog_file_is_recorded_under_its_written_name (filename : string)
    (Hname : endswith filename ".png" = true
             ∨ String.index 0 ".png" filename = None) :
  written_name filename = recorded_name filename
  ∧ (endswith filename ".png" = true →
     endswith (recorded_name filename) ".jpg" = true)
  ∧ (String.index 0 ".png" filename = None → recorded_name filename = filename).
Proof.
  assert (String.index 0 ".png" filename = None →
          recorded_name filename = filename) as Habsent.
  { intros Hi. apply replace_absent. intros i.
    apply (String.index_correct3 0 i _ _ Hi); [done|lia]. }
  split; [|split; [|done]].
  - unfold written_name. destruct (endswith filename ".png") eqn:He; [done|].
    destruct Hname as [?|Hi]; [done|]. by rewrite Habsent.
  - intros [t ->]%endswith_inv. unfold recorded_name, str_replace.
    destruct (replace_png_ends t 0) as [u ->]; [intros i Hi; lia|].
    apply endswith_app.
Qed.

Lemma X16_witness_cifar_name :
  written_name "bufo_viridis_s_000502.png"
  = recorded_name "bufo_viridis_s_000502.png"
  ∧ (endswith "bufo_viridis_s_000502.png" ".png" = true →
     endswith (recorded_name "bufo_viridis_s_000502.png") ".jpg" = true)
  ∧ (String.index 0 ".png" "bufo_viridis_s_000502.png" = None →
     recorded_name "bufo_viridis_s_000502.png" = "bufo_viridis_s_000502.png").
Proof.
  apply (X16_frog_file_is_recorded_under_its_written_name
           "bufo_viridis_s_000502.png").
  left. reflexivity.
Defined.

(** * The helpfulness label of a review *)

Module b64q_facts.
Import b64 b64q.
Local Open Scope Z_scope.

(** Rounding a significand of more than 53 bits: the bits dropped make the
    significand go up or not. *)
Lemma round_long p e :
  2 ^ 53 ≤ p →
  let s := Z.log2 p + 1 - 53 in
  let u := 2 ^ s in
  1 ≤ s
  ∧ ∃ M, round p e = (M, e + s)
      ∧ (M = p / u ∨ (M = p / u + 1 ∧ 0 < p mod u))
      ∧ (u < 2 * (p mod u) → M = p / u + 1).
Proof.
  intros Hp s u.
  assert (53 ≤ Z.log2 p) as Hlog by (apply Z.log2_le_pow2; lia).
  assert (1 ≤ s) as Hs by (subst s; lia).
  split; [done|]. unfold round.
  destruct (Z.leb_spec (Z.log2 p + 1) 53) as [Hk|Hk]; [lia|].
  fold s. fold u.
  assert (u = 2 * 2 ^ (s - 1)) as Hu.
  { subst u. rewrite <- (Z.pow_succ_r 2 (s - 1)) by lia. f_equal. lia. }
  assert (0 < 2 ^ (s - 1)) as Hhalf by (apply Z.pow_pos_nonneg; lia).
  set (half := 2 ^ (s - 1)) in *.
  destruct (Z.ltb_spec half (p mod u)) as [Hlt|Hge]; cbn [orb].
  - exists (p / u + 1). split; [done|]. split; [right; split; [done|lia]|done].
  - destruct (Z.eqb_spec (p mod u) half) as [Heq|Hne]; cbn [andb].
    + destruct (Z.odd (p / u)).
      * exists (p / u + 1). split; [done|].
        split; [right; split; [done|lia]|done].
      * exists (p / u). split; [done|]. split; [by left|lia].
    + exists (p / u). split; [done|]. split; [by left|lia].
Qed.

Lemma gt_scaled M s C :
  0 ≤ s → gt (M, s - 111) (C, -53) = true ↔ C * 2 ^ 58 < M * 2 ^ s.
Proof.
  intros Hs. unfold gt. cbn [fst snd]. rewrite Z.ltb_lt.
  destruct (Z.min_spec (s - 111) (-53)) as [[Hlt ->]|[Hge ->]].
  - replace (s - 111 - (s - 111)) with 0 by lia.
    replace (-53 - (s - 111)) with (58 - s) by lia.
    replace (2 ^ 58) with (2 ^ (58 - s) * 2 ^ s)
      by (rewrite <- Z.pow_add_r by lia; f_equal; lia).
    assert (0 < 2 ^ s) as Hu by (apply Z.pow_pos_nonneg; lia).
    set (u := 2 ^ s) in *. set (a := 2 ^ (58 - s)). clearbody u a.
    rewrite Z.mul_1_r, Z.mul_assoc. apply Z.mul_lt_mono_pos_r. done.
  - replace (-53 - -53) with 0 by lia.
    replace (s - 111 - -53) with (s - 58) by lia.
    replace (2 ^ s) with (2 ^ (s - 58) * 2 ^ 58)
      by (rewrite <- Z.pow_add_r by lia; f_equal; lia).
    set (a := 2 ^ (s - 58)). clearbody a.
    rewrite Z.mul_1_r, Z.mul_assoc.
    apply (Z.mul_lt_mono_pos_r (2 ^ 58)). done.
Qed.

(** More than four fifths, exactly. *)
Lemma gt_0_8_exact h t :
  0 ≤ h < 2 ^ 53 → 1 ≤ t ≤ 2 ^ 50 →
  gt (div (of_int h) (of_int t)) lit_0_8 = true ↔ 4 * t < 5 * h.
Proof.
  intros Hh Ht. unfold of_int.
  rewrite (b64_facts.round_exact h 0), (b64_facts.round_exact t 0) by lia.
  unfold div, lit_0_8. cbn [fst snd].
  destruct (decide (h = 0)) as [->|Hh0].
  { rewrite Z.mul_0_l, Z.mod_0_l, Z.div_0_l by lia. cbn [Z.eqb].
    rewrite (b64_facts.round_exact 0) by lia.
    split; [done|lia]. }
  set (C := 7205759403792794).
  assert (5 * C = 2 ^ 55 + 2) as HC by done.
  set (n := h * 2 ^ 110).
  pose proof (Z.div_mod n t ltac:(lia)) as Hdm.
  pose proof (Z.mod_pos_bound n t ltac:(lia)) as Hrem.
  set (q := n / t) in *. set (rem := n mod t) in *.
  set (st := if Z.eqb rem 0 then 0 else 1).
  assert ((st = 0 ∧ rem = 0) ∨ (st = 1 ∧ 0 < rem)) as Hst.
  { subst st. destruct (Z.eqb_spec rem 0); [by left|right; lia]. }
  set (tq := t * q) in *.
  assert (2 ^ 60 ≤ q) as Hq.
  { apply Z.nlt_ge. intros Hlt.
    assert (tq ≤ t * (2 ^ 60 - 1)) as Hle
      by (subst tq; apply Z.mul_le_mono_nonneg_l; lia).
    subst n. clearbody tq rem. lia. }
  set (p := 2 * q + st).
  assert (2 ^ 53 ≤ p) as Hp by (subst p; lia).
  destruct (round_long p (0 - 0 - 111) Hp) as (Hs & M & Hround & HM & Hup).
  rewrite Hround. set (s := Z.log2 p + 1 - 53) in *.
  replace (0 - 0 - 111 + s) with (s - 111) by lia.
  rewrite gt_scaled by lia.
  assert (0 < 2 ^ s) as Hu by (apply Z.pow_pos_nonneg; lia).
  pose proof (Z.div_mod p (2 ^ s) ltac:(lia)) as Hpdm.
  pose proof (Z.mod_pos_bound p (2 ^ s) ltac:(lia)) as Hr.
  set (u := 2 ^ s) in *. set (q' := p / u) in *. set (r := p mod u) in *.
  set (uq := u * q') in *.
  assert (∀ g, q' < g → uq + u ≤ u * g) as Hbelow.
  { intros g Hg. subst uq. rewrite <- (Z.mul_1_r u) at 2.
    rewrite <- Z.mul_add_distr_l. apply Z.mul_le_mono_nonneg_l; lia. }
  assert (∀ g, g ≤ q' → u * g ≤ uq) as Habove.
  { intros g Hg. subst uq. apply Z.mul_le_mono_nonneg_l; lia. }
  assert (M * u = uq ∨ (M * u = uq + u ∧ 0 < r)) as HMu.
  { destruct HM as [->|[-> ?]]; [left|right; split; [|done]]; subst uq; lia. }
  destruct (Z.lt_ge_cases p (2 ^ 111)) as [Hsmall|Hbig].
  - (* the quotient is below 2: the unit of rounding divides [C * 2^58] *)
    assert (s ≤ 58) as Hs58.
    { assert (Z.log2 p < 111); [|subst s; lia]. apply Z.log2_lt_pow2; lia. }
    set (g := C * 2 ^ (58 - s)).
    assert (C * 2 ^ 58 = u * g) as HG.
    { subst g u. rewrite (Z.mul_comm (2 ^ s)), <- Z.mul_assoc.
      rewrite <- Z.pow_add_r by lia. do 2 f_equal. lia. }
    assert (u ≤ 2 ^ 58) as Hu58 by (subst u; apply Z.pow_le_mono_r; lia).
    rewrite HG. split.
    + (* rounded above [0.8]: the quotient is above four fifths *)
      intros Hgt. apply Z.nle_gt. intros Hle.
      assert (p ≤ C * 2 ^ 58) as HpG.
      { apply Z.nlt_ge. intros Hlt.
        assert (C * 2 ^ 57 ≤ q) as Hq57 by (subst p C; lia).
        assert (t * (C * 2 ^ 57) ≤ tq) as Hmul
          by (subst tq; apply Z.mul_le_mono_nonneg_l; lia).
        subst n C. clearbody tq rem q. lia. }
      destruct (Z.lt_ge_cases q' g) as [Hq'|Hq'].
      * pose proof (Hbelow g Hq'). destruct HMu as [HMu|[HMu _]]; lia.
      * pose proof (Habove g Hq') as Hab.
        destruct HMu as [HMu|[HMu Hr0]]; [lia|]. clearbody uq. lia.
    + (* the quotient is above four fifths: it is rounded above [0.8] *)
      intros Hlt.
      assert (C * 2 ^ 58 + 2 ^ 57 < p) as HpG.
      { apply Z.nle_gt. intros Hle.
        assert (q ≤ C * 2 ^ 57 + 2 ^ 56) as Hq57 by (subst p C; lia).
        assert (tq ≤ t * (C * 2 ^ 57 + 2 ^ 56)) as Hmul
          by (subst tq; apply Z.mul_le_mono_nonneg_l; lia).
        subst n C. clearbody tq rem q. lia. }
      destruct (Z.lt_ge_cases g q') as [Hq'|Hq'].
      * pose proof (Habove (g + 1) ltac:(lia)) as Hab.
        rewrite Z.mul_add_distr_l, Z.mul_1_r in Hab.
        destruct HMu as [HMu|[HMu _]]; lia.
      * assert (q' = g) as Hqg.
        { apply Z.le_antisymm; [done|]. apply Z.nlt_ge. intros Hq''.
          pose proof (Hbelow g Hq''). clearbody uq. lia. }
        assert (u < 2 * r) as Hhalf by (subst uq; rewrite Hqg in *; lia).
        rewrite (Hup Hhalf). subst uq. rewrite Hqg.
        rewrite Z.mul_add_distr_r, (Z.mul_comm g u). lia.
  - (* the quotient is 2 or more *)
    assert (59 ≤ s) as Hs59.
    { assert (111 ≤ Z.log2 p); [|subst s; lia]. apply Z.log2_le_pow2; lia. }
    assert (2 ^ 59 ≤ u) as Hu59 by (subst u; apply Z.pow_le_mono_r; lia).
    assert (4 * t < 5 * h) as Hlt.
    { apply Z.nle_gt. intros Hle.
      assert (t * 2 ^ 110 ≤ tq) as Hmul.
      { subst tq. apply Z.mul_le_mono_nonneg_l; [lia|]. subst p. lia. }
      subst n. clearbody tq rem q. lia. }
    split; [done|]. intros _.
    assert (2 ^ 52 ≤ q') as Hq52.
    { subst q'. apply Z.div_le_lower_bound; [lia|].
      assert (2 ^ Z.log2 p ≤ p) as Hlog by (apply Z.log2_spec; lia).
      replace (Z.log2 p) with (s + 52) in Hlog by (subst s; lia).
      rewrite Z.pow_add_r in Hlog by lia. fold u in Hlog. lia. }
    pose proof (Habove (2 ^ 52) Hq52) as Hab.
    assert (2 ^ 59 * 2 ^ 52 ≤ u * 2 ^ 52) as Hmul
      by (apply Z.mul_le_mono_nonneg_r; lia).
    assert (C * 2 ^ 58 < 2 ^ 59 * 2 ^ 52) as Hc by done.
    destruct HMu as [HMu|[HMu _]]; lia.
Qed.

End b64q_facts.

Lemma is_helpful_exact (r : Review) :
  (0 ≤ helpful_votes r < 2 ^ 53)%Z → (1 ≤ total_votes r ≤ 2 ^ 50)%Z →
  is_helpful r = true ↔ (4 * total_votes r < 5 * helpful_votes r)%Z.
Proof. intros Hh Ht. by apply b64q_facts.gt_0_8_exact. Qed.

(** X17: the helpfulness flag is exact.  For a review kept by the filter
    (at least 5 votes) with vote counts a double holds apart (helpful votes
    under 2^53, total votes up to 2^50), [is_helpful], computed as the
    binary64 quotient [helpful_votes / total_votes] compared with the double
    [0.80], is true exactly when strictly more than four fifths of the
    votes are helpful: neither the rounding of the quotient nor that of the
    literal moves a review across the threshold. *)
Theorem X17_is_helpful_is_more_than_four_fifths
    (df_reviews : list Review) (r : Review)
    (Hrow : r ∈ voted_rows df_reviews)
    (Hhelpful : (0 ≤ helpful_votes r < 2 ^ 53)%Z)
    (Htotal : (total_votes r ≤ 2 ^ 50)%Z) :
  (5 ≤ total_votes r)%Z
  ∧ (is_helpful r = true ↔ (4 * total_votes r < 5 * helpful_votes r)%Z).
Proof.
  apply list_elem_of_filter in Hrow as [Hvotes _].
  split; [done|]. apply is_helpful_exact; lia.
Qed.

Lemma X17_witness_four_of_five :
  let r := mkReview 4 5 "Five Stars" "Works" in
  let df_reviews := [mkReview 1 1 "Five Stars" "As described."; r] in
  (5 ≤ total_votes r)%Z
  ∧ (is_helpful r = true ↔ (4 * total_votes r < 5 * helpful_votes r)%Z).
Proof.
  intros r df_reviews.
  apply (X17_is_helpful_is_more_than_four_fifths df_reviews r).
  - apply list_elem_of_filter. split; [cbn; lia|]. right. left.
  - cbn. lia.
  - cbn. lia.
Defined.

Lemma substring_0_length n s :
  String.length (String.substring 0 n s) = n `min` String.length s.
Proof.
  by rewrite <- !chars_length, chars_substring, drop_0, length_take.
Qed.

Lemma substring_0_prefix n s :
  String.prefix (String.substring 0 n s) s = true.
Proof.
  apply String.prefix_correct. rewrite substring_0_length. apply chars_inj.
  rewrite !chars_substring, !drop_0, <- chars_length.
  destruct (Nat.min_spec n (length (chars s))) as [[_ ->]|[Hle ->]]; [done|].
  by rewrite !take_ge by lia.
Qed.

(** X18: the training line of a review is ["__label__Helpful"] or
    ["__label__NotHelpful"], a space, the tokenized headline, a space and
    the tokenized body.  For a review with at least one vote (vote counts in
    the range of X17) the label is Helpful exactly when more than four
    fifths of the votes are helpful.  Each of the two texts is the tokens
    joined with spaces and cut after 1000 characters, so the line has at
    most 2021 characters. *)
Theorem X18_training_line_of_a_review
    (tokenizer : string → list string) (r : Review)
    (Hhelpful : (0 ≤ helpful_votes r < 2 ^ 53)%Z)
    (Htotal : (1 ≤ total_votes r ≤ 2 ^ 50)%Z) :
  let headline := String.concat " " (tokenizer (review_headline r)) in
  let body := String.concat " " (tokenizer (review_body r)) in
  ∃ label head_text body_text,
    text_line tokenizer r
    = "__label__" +:+ label +:+ " " +:+ head_text +:+ " " +:+ body_text
    ∧ label = (if bool_decide (4 * total_votes r < 5 * helpful_votes r)%Z
               then "Helpful" else "NotHelpful")
    ∧ String.prefix head_text headline = true
    ∧ String.length head_text = 1000 `min` String.length headline
    ∧ String.prefix body_text body = true
    ∧ String.length body_text = 1000 `min` String.length body
    ∧ String.length (text_line tokenizer r) ≤ 2021.
Proof.
  intros headline body.
  exists (index_to_label (is_helpful r)),
         (tokenize_sent tokenizer (review_headline r) 1000),
         (tokenize_sent tokenizer (review_body r) 1000).
  unfold text_line, labelize, tokenize, tokenize_sent, py_slice.
  fold headline. fold body. rewrite Nat.sub_0_r.
  pose proof (substring_0_length 1000 headline) as Hh.
  pose proof (substring_0_length 1000 body) as Hb.
  split; [by rewrite <- !string_app_assoc|].
  split.
  { pose proof (is_helpful_exact r Hhelpful Htotal) as Hex.
    destruct (is_helpful r); case_bool_decide as Hd; try done.
    - exfalso. apply Hd. by apply Hex.
    - by apply Hex in Hd. }
  split; [apply substring_0_prefix|]. split; [done|].
  split; [apply substring_0_prefix|]. split; [done|].
  rewrite !string_length_app, Hh, Hb.
  assert (String.length (index_to_label (is_helpful r)) ≤ 10)
    by (destruct (is_helpful r); cbn; lia).
  change (String.length "__label__") with 9.
  change (String.length " ") with 1. lia.
Qed.

Lemma X18_witness_split_on_spaces :
  let tokenizer := λ s : string, [s; "!"] in
  let r := mkReview 9 10 "Great" "Works well" in
  ∃ label head_text body_text,
    text_line tokenizer r
    = "__label__" +:+ label +:+ " " +:+ head_text +:+ " " +:+ body_text
    ∧ label = (if bool_decide (4 * total_votes r < 5 * helpful_votes r)%Z
               then "Helpful" else "NotHelpful")
    ∧ String.prefix head_text
        (String.concat " " (tokenizer (review_headline r))) = true
    ∧ String.length head_text
      = 1000 `min` String.length
                     (String.concat " " (tokenizer (review_headline r)))
    ∧ String.prefix body_text
        (String.concat " " (tokenizer (review_body r))) = true
    ∧ String.length body_text
      = 1000 `min` String.length
                     (String.concat " " (tokenizer (review_body r)))
    ∧ String.length (text_line tokenizer r) ≤ 2021.
Proof.
  intros tokenizer r.
  apply (X18_training_line_of_a_review tokenizer r); cbn; lia.
Defined.

(** * From Textract to Comprehend Medical *)

Lemma page_texts_join (d : list trp.Page) :
  Forall (λ p, trp.text p = trp.page_text (trp.blocks p)) d →
  fold_right String.append EmptyString (trp.text <$> d)
  = fold_right String.append EmptyString
      ((λ b, Text b +:+ trp.newline)
         <$> filter (λ b, BlockType b = "LINE") (d ≫= trp.blocks)).
Proof.
  induction 1 as [|p d Hp _ IH]; [done|].
  cbn [fmap list_fmap fold_right mbind list_bind].
  change (list_fmap _ _ ?f ?l) with (f <$> l).
  change (mbind ?f ?l) with (l ≫= f).
  rewrite filter_app, fmap_app, join_app, <- IH, Hp.
  by rewrite trp_facts.page_text_lines.
Qed.

(** X19: no text is lost, added or moved between Textract and Comprehend
    Medical.  When [trp.Document] accepts the collected responses and the
    Comprehend Medical cell ends normally, the texts the cell has sent,
    joined in the order sent, are the texts of the ["LINE"] blocks of the
    responses, in the order the service returned them, each followed by a
    newline: blocks of other types contribute nothing, and the boundaries
    of pages and of 20000-character windows fall anywhere in this text. *)
Theorem X19_comprehend_receives_the_lines_in_order
    {CSvc CResp : Type}
    (detect_entities_v2 : string → CSvc → (exn + CResp) * CSvc)
    (pages : list Response) (doc_pages : list trp.Page)
    (w : CWorld CSvc CResp) :
  trp.Document pages = inr doc_pages →
  (comprehend_cell detect_entities_v2 doc_pages w).1 = Done →
  ∃ texts,
    sent (comprehend_cell detect_entities_v2 doc_pages w).2 = sent w ++ texts
    ∧ fold_right String.append EmptyString texts
      = fold_right String.append EmptyString
          ((λ b, Text b +:+ trp.newline)
             <$> filter (λ b, BlockType b = "LINE") (pages ≫= Blocks)).
Proof.
  intros Hdoc Hdone. unfold comprehend_cell in *.
  rewrite pages_loop_send in *.
  destruct (send_all_spec detect_entities_v2 (doc_pages ≫= chunks ∘ trp.text)
              (mkCWorld (comprehend w) (sent w) []))
    as (k & rs & Hk & Hsent & _ & _ & Hd & _).
  cbv zeta in *. cbn [sent] in Hsent. specialize (Hd Hdone).
  exists (doc_pages ≫= chunks ∘ trp.text).
  split; [by rewrite Hsent, Hd, firstn_all|].
  destruct (trp_facts.Document_spec pages doc_pages Hdoc) as (Hblocks & Hall & _).
  rewrite chunks_of_pages_join, <- Hblocks. apply page_texts_join.
  eapply Forall_impl; [exact Hall|]. by intros p [_ ?].
Qed.

Lemma X19_witness_two_sheets :
  let w := mkCWorld 0 [] [] in
  ∃ doc_pages,
    trp.Document [two_sheet_response] = inr doc_pages
    ∧ ∃ texts,
        sent (comprehend_cell length_service doc_pages w).2 = sent w ++ texts
        ∧ fold_right String.append EmptyString texts
          = fold_right String.append EmptyString
              ((λ b, Text b +:+ trp.newline)
                 <$> filter (λ b, BlockType b = "LINE")
                            ([two_sheet_response] ≫= Blocks)).
Proof.
  intros w. eexists. split; [vm_compute; reflexivity|].
  apply (X19_comprehend_receives_the_lines_in_order length_service
           [two_sheet_response] _ w); vm_compute; reflexivity.
Defined.

(** * From the dataset notebook to the structured folders *)


